(** * pdf_extractor: a shallow embedding of the field-resolution pipeline

    The development follows the Python sources module by module.  [Py]
    and [Re] give the fragment of the Python runtime that the code relies
    on: [str] with its methods, and the regular expressions of [re] with
    a backtracking matcher.  Then come [Preprocessor], [ScorerValidator],
    [LLMClient], [DecisionEngine], [CandidateGenerator] and
    [PDFExtractor], one per source file.  What the code calls and does
    not own (the PDF parsers, the embedding model, numpy, the reasoning
    service) is a record of functions, [collaborators]; computations that
    may raise, ask the reasoning service or touch the label cache live in
    the monad [M].  The statements about the code come after the
    definitions. *)

From Stdlib Require Import List ZArith NArith Bool Lia String Ascii.
From Stdlib Require Import PrimFloat FloatOps FloatAxioms SpecFloat.
Set Warnings "-inexact-float,-register-all".
From Stdlib Require Import Permutation Sorted.
Import ListNotations.

Set Implicit Arguments.

(* ================================================================== *)
(** * The Python runtime: [str] and its methods *)
(* ================================================================== *)

Module Py.

(** A Python [str] is a sequence of Unicode code points. *)
Definition char := N.
Definition str := list char.

(** String literals are written [py "..."]: the UTF-8 bytes of the Rocq
    literal are decoded to code points, so that [py "endereço"] has eight
    characters, the sixth being U+00E7. *)
Fixpoint utf8_decode (bs : list N) : str :=
  match bs with
  | [] => []
  | b :: t =>
      if (b <? 128)%N then b :: utf8_decode t
      else match t with
           | [] => [b]
           | c :: t1 =>
               if (b <? 224)%N
               then ((b - 192) * 64 + (c - 128))%N :: utf8_decode t1
               else match t1 with
                    | [] => [b; c]
                    | d :: t2 =>
                        if (b <? 240)%N
                        then ((b - 224) * 4096 + (c - 128) * 64 + (d - 128))%N
                               :: utf8_decode t2
                        else match t2 with
                             | [] => [b; c; d]
                             | e :: t3 =>
                                 ((b - 240) * 262144 + (c - 128) * 4096
                                  + (d - 128) * 64 + (e - 128))%N
                                   :: utf8_decode t3
                             end
                    end
           end
  end.

Definition py (s : string) : str :=
  utf8_decode (map N_of_ascii (list_ascii_of_string s)).

Definition str_eqb (a b : str) : bool :=
  if list_eq_dec N.eq_dec a b then true else false.

(** ** Character tables

    [isspace] is CPython's whitespace table and is complete.  The other
    tables are CPython's on U+0000..U+00FF; a code point above U+00FF is
    classified as a caseless symbol (neither digit nor word character),
    so every evaluation below is on text within U+0000..U+00FF. *)

Definition between (lo hi c : N) : bool := ((lo <=? c) && (c <=? hi))%N.

Definition isspace (c : char) : bool :=
  between 9 13 c || between 28 32 c || (c =? 133)%N || (c =? 160)%N
  || (c =? 5760)%N || between 8192 8202 c || (c =? 8232)%N
  || (c =? 8233)%N || (c =? 8239)%N || (c =? 8287)%N || (c =? 12288)%N.

(** [\d] of [re]: the decimal digits (category Nd). *)
Definition isdecimal (c : char) : bool := between 48 57 c.

(** [str.isdigit]: the decimal digits and the superscripts
    U+00B2, U+00B3 and U+00B9. *)
Definition isdigit (c : char) : bool :=
  isdecimal c || (c =? 178)%N || (c =? 179)%N || (c =? 185)%N.

Definition isalpha (c : char) : bool :=
  between 65 90 c || between 97 122 c
  || (c =? 170)%N || (c =? 181)%N || (c =? 186)%N
  || between 192 214 c || between 216 246 c || between 248 255 c.

(** [str.isalnum]: alphabetic or numeric (the fractions U+00BC..U+00BE
    are numeric). *)
Definition isalnum (c : char) : bool :=
  isalpha c || isdigit c || between 188 190 c.

(** [\w] of [re]: alphanumeric or underscore. *)
Definition isword (c : char) : bool := isalnum c || (c =? 95)%N.

Definition lower_char (c : char) : char :=
  if between 65 90 c || between 192 214 c || between 216 222 c
  then (c + 32)%N else c.

(** Upper-casing may leave U+0000..U+00FF and may lengthen the text. *)
Definition upper_char (c : char) : str :=
  if between 97 122 c || between 224 246 c || between 248 254 c
  then [(c - 32)%N]
  else if (c =? 181)%N then [924%N]
  else if (c =? 223)%N then [83%N; 83%N]
  else if (c =? 255)%N then [376%N]
  else [c].

(** The simple (one-to-one) upper-case mapping, which [re] uses. *)
Definition upper_simple (c : char) : char :=
  if between 97 122 c || between 224 246 c || between 248 254 c
  then (c - 32)%N
  else if (c =? 181)%N then 924%N
  else if (c =? 255)%N then 376%N
  else c.

(** ** Methods of [str] *)

Definition lower (s : str) : str := map lower_char s.
Definition upper (s : str) : str := flat_map upper_char s.

Fixpoint lstrip (s : str) : str :=
  match s with
  | c :: t => if isspace c then lstrip t else s
  | [] => []
  end.

Definition rstrip (s : str) : str := rev (lstrip (rev s)).

(** [s.strip()] *)
Definition strip (s : str) : str := rstrip (lstrip s).

(** [s.split()]: the maximal runs of non-whitespace characters. *)
Fixpoint split_acc (cur : str) (s : str) : list str :=
  match s with
  | [] => match cur with [] => [] | _ => [rev cur] end
  | c :: t =>
      if isspace c
      then match cur with
           | [] => split_acc [] t
           | _ => rev cur :: split_acc [] t
           end
      else split_acc (c :: cur) t
  end.

Definition split (s : str) : list str := split_acc [] s.

(** [sep.join(parts)] *)
Fixpoint join (sep : str) (parts : list str) : str :=
  match parts with
  | [] => []
  | [p] => p
  | p :: rest => p ++ sep ++ join sep rest
  end.

Fixpoint starts_with (p s : str) : bool :=
  match p, s with
  | [], _ => true
  | _ :: _, [] => false
  | a :: p', b :: s' => (a =? b)%N && starts_with p' s'
  end.

(** [p in s] *)
Fixpoint contains (p s : str) : bool :=
  starts_with p s
  || match s with
     | [] => false
     | _ :: t => contains p t
     end.

(** [s.replace(old, new)] for a one-character [old]. *)
Definition replace_char (old : char) (new : str) (s : str) : str :=
  flat_map (fun c => if (c =? old)%N then new else [c]) s.

(** [s.zfill(width)] on text without a sign. *)
Definition zfill (width : nat) (s : str) : str :=
  repeat 48%N (width - List.length s) ++ s.

(** [s[:n]] and [s[n:]] for [n >= 0] *)
Definition slice_to (n : nat) (s : str) : str := firstn n s.
Definition slice_from (n : nat) (s : str) : str := skipn n s.
Definition slice (a b : nat) (s : str) : str := firstn (b - a) (skipn a s).

(** [int(s)] on a run of ASCII decimal digits. *)
Definition int_of_digits (s : str) : N :=
  fold_left (fun acc c => (acc * 10 + (c - 48))%N) s 0%N.

(** [''.join(filter(str.isdigit, s))] *)
Definition filter_isdigit (s : str) : str := filter isdigit s.

End Py.

(* ================================================================== *)
(** * The [re] module: patterns and the backtracking matcher *)
(* ================================================================== *)

Module Re.
Import Py.

(** An item of a bracketed class: a character, a range, or one of the
    escapes [\d], [\w], [\s]. *)
Inductive cset : Type :=
| CsChar (c : char)
| CsRange (lo hi : char)
| CsDigit
| CsWord
| CsSpace.

(** The patterns the sources write.  [RSet true items] is [[^...]];
    [RRep greedy lo hi r] is [r{lo,hi}] ([hi = None] for no upper bound),
    lazy when [greedy = false]; [RGroup i r] is the capturing group
    number [i]. *)
Inductive regex : Type :=
| REmpty
| RChar (c : char)
| RAny
| RSet (neg : bool) (items : list cset)
| RBol
| REol
| RWordB
| RSeq (r1 r2 : regex)
| RAlt (r1 r2 : regex)
| RRep (greedy : bool) (lo : nat) (hi : option nat) (r : regex)
| RGroup (i : nat) (r : regex).

(** A position of the matcher in the subject: the character before it,
    its index, the text from it on, and the spans of the groups closed
    so far. *)
Record mstate : Type := MState {
  prev : option char;
  pos : nat;
  rest : str;
  caps : list (nat * (nat * nat))
}.

Definition advance (st : mstate) (x : char) (t : str) : mstate :=
  MState (Some x) (S (pos st)) t (caps st).

Definition set_cap (st : mstate) (i a b : nat) : mstate :=
  MState (prev st) (pos st) (rest st) ((i, (a, b)) :: caps st).

(** Character tests; [ic] is the [re.IGNORECASE] flag. *)
Definition char_matches (ic : bool) (c x : char) : bool :=
  if ic then (lower_char c =? lower_char x)%N else (c =? x)%N.

(** Under [re.IGNORECASE] a range is tested on the lower-cased character
    and on its simple upper case. *)
Definition in_range (ic : bool) (lo hi x : char) : bool :=
  if ic
  then between lo hi (lower_char x)
       || between lo hi (upper_simple (lower_char x))
  else between lo hi x.

Definition cset_matches (ic : bool) (it : cset) (x : char) : bool :=
  match it with
  | CsChar c => char_matches ic c x
  | CsRange lo hi => in_range ic lo hi x
  | CsDigit => isdecimal x
  | CsWord => isword x
  | CsSpace => isspace x
  end.

Definition set_matches (ic neg : bool) (items : list cset) (x : char) : bool :=
  xorb neg (existsb (fun it => cset_matches ic it x) items).

Definition opt_isword (o : option char) : bool :=
  match o with Some c => isword c | None => false end.

Definition at_word_boundary (st : mstate) : bool :=
  xorb (opt_isword (prev st)) (opt_isword (hd_error (rest st))).

(** [$] without [re.MULTILINE]: at the end, or before a final newline. *)
Definition at_eol (st : mstate) : bool :=
  match rest st with
  | [] => true
  | [c] => (c =? 10)%N
  | _ => false
  end.

Section Matcher.
Variable R : Type.
Variable ic : bool.

Definition step_fn := mstate -> (mstate -> option R) -> option R.

(** The repetition loop: [n] more iterations are allowed, [lo] of them
    are still required; an iteration that consumes nothing is cut. *)
Fixpoint rep (step : step_fn) (greedy : bool) (lo n : nat)
         (st : mstate) (k : mstate -> option R) {struct n} : option R :=
  match n with
  | 0 => if Nat.eqb lo 0 then k st else None
  | S n' =>
      let more (_ : unit) :=
        step st (fun st' =>
                   if Nat.eqb (pos st') (pos st) then None
                   else rep step greedy (Nat.pred lo) n' st' k) in
      if negb (Nat.eqb lo 0) then more tt
      else if greedy
           then match more tt with
                | Some x => Some x
                | None => k st
                end
           else match k st with
                | Some x => Some x
                | None => more tt
                end
  end.

(** [m r st k]: the ways [r] matches from [st], tried in the order of a
    backtracking matcher, each continued by [k]. *)
Fixpoint m (r : regex) (st : mstate) (k : mstate -> option R) : option R :=
  match r with
  | REmpty => k st
  | RChar c =>
      match rest st with
      | x :: t => if char_matches ic c x then k (advance st x t) else None
      | [] => None
      end
  | RAny =>
      match rest st with
      | x :: t => if (x =? 10)%N then None else k (advance st x t)
      | [] => None
      end
  | RSet neg items =>
      match rest st with
      | x :: t => if set_matches ic neg items x then k (advance st x t) else None
      | [] => None
      end
  | RBol => if Nat.eqb (pos st) 0 then k st else None
  | REol => if at_eol st then k st else None
  | RWordB => if at_word_boundary st then k st else None
  | RSeq r1 r2 => m r1 st (fun st' => m r2 st' k)
  | RAlt r1 r2 =>
      match m r1 st k with
      | Some x => Some x
      | None => m r2 st k
      end
  | RRep greedy lo hi r1 =>
      rep (m r1) greedy lo
          (match hi with Some h => h | None => List.length (rest st) end)
          st k
  | RGroup i r1 =>
      m r1 st (fun st' => k (set_cap st' i (pos st) (pos st')))
  end.

End Matcher.

(** A match object: its span and the spans of its groups. *)
Record match_obj : Type := Match {
  m_start : nat;
  m_end : nat;
  m_caps : list (nat * (nat * nat))
}.

Definition match_at (ic : bool) (r : regex) (st : mstate) : option match_obj :=
  m ic r (MState (prev st) (pos st) (rest st) [])
    (fun st' => Some (Match (pos st) (pos st') (caps st'))).

Definition start_state (s : str) : mstate := MState None 0 s [].

(** [re.match(r, s)] *)
Definition re_match (ic : bool) (r : regex) (s : str) : option match_obj :=
  match_at ic r (start_state s).

(** The first match at or after [st], scanning left to right. *)
Fixpoint search_from (ic : bool) (r : regex) (n : nat) (st : mstate)
  : option match_obj :=
  match match_at ic r st with
  | Some mo => Some mo
  | None =>
      match n, rest st with
      | S n', x :: t => search_from ic r n' (advance st x t)
      | _, _ => None
      end
  end.

(** [re.search(r, s)] *)
Definition re_search (ic : bool) (r : regex) (s : str) : option match_obj :=
  search_from ic r (List.length s) (start_state s).

Fixpoint lookup_cap (i : nat) (cs : list (nat * (nat * nat)))
  : option (nat * nat) :=
  match cs with
  | [] => None
  | (j, span) :: t => if Nat.eqb i j then Some span else lookup_cap i t
  end.

(** [mo.group(i)] on the subject [s] (group 0 is the whole match); a group
    that did not take part gives [None]. *)
Definition group (s : str) (mo : match_obj) (i : nat) : option str :=
  match i with
  | 0 => Some (slice (m_start mo) (m_end mo) s)
  | _ => match lookup_cap i (m_caps mo) with
         | Some (a, b) => Some (slice a b s)
         | None => None
         end
  end.

(** [n] characters of [st] are skipped. *)
Fixpoint skip_to (n : nat) (st : mstate) : mstate :=
  match n, rest st with
  | S n', x :: t => skip_to n' (advance st x t)
  | _, _ => st
  end.

(** [re.sub(r, repl, s)] for a literal replacement: every non-overlapping
    match, left to right, is replaced; an empty match is replaced and the
    scan moves on by one character. *)
Fixpoint sub_from (ic : bool) (r : regex) (repl : str) (n : nat)
         (st : mstate) : str :=
  match n with
  | 0 => rest st
  | S n' =>
      match match_at ic r st with
      | Some mo =>
          if Nat.ltb (m_start mo) (m_end mo)
          then repl ++ sub_from ic r repl n'
                         (skip_to (m_end mo - m_start mo) st)
          else match rest st with
               | x :: t => repl ++ x :: sub_from ic r repl n' (advance st x t)
               | [] => repl
               end
      | None =>
          match rest st with
          | x :: t => x :: sub_from ic r repl n' (advance st x t)
          | [] => []
          end
      end
  end.

Definition re_sub (ic : bool) (r : regex) (repl : str) (s : str) : str :=
  sub_from ic r repl (S (List.length s)) (start_state s).

(** [re.finditer(r, s)]: the successive non-overlapping matches. *)
Fixpoint finditer_from (ic : bool) (r : regex) (n : nat) (st : mstate)
  : list match_obj :=
  match n with
  | 0 => []
  | S n' =>
      match match_at ic r st with
      | Some mo =>
          if Nat.ltb (m_start mo) (m_end mo)
          then mo :: finditer_from ic r n' (skip_to (m_end mo - m_start mo) st)
          else mo :: match rest st with
                     | x :: t => finditer_from ic r n' (advance st x t)
                     | [] => []
                     end
      | None =>
          match rest st with
          | x :: t => finditer_from ic r n' (advance st x t)
          | [] => []
          end
      end
  end.

Definition re_finditer (ic : bool) (r : regex) (s : str) : list match_obj :=
  finditer_from ic r (S (List.length s)) (start_state s).

(** ** Pattern notation helpers *)

Definition digit : regex := RSet false [CsDigit].
Definition lit (s : str) : regex :=
  fold_right (fun c r => RSeq (RChar c) r) REmpty s.
Definition seq (rs : list regex) : regex := fold_right RSeq REmpty rs.
Definition alt (rs : list regex) : regex :=
  match rs with
  | [] => REmpty
  | r :: t => fold_left RAlt t r
  end.
Definition opt (r : regex) : regex := RRep true 0 (Some 1) r.
Definition star (r : regex) : regex := RRep true 0 None r.
Definition plus (r : regex) : regex := RRep true 1 None r.
Definition times (lo hi : nat) (r : regex) : regex := RRep true lo (Some hi) r.
Definition exactly (n : nat) (r : regex) : regex := RRep true n (Some n) r.
Definition ch (s : string) : char := hd 0%N (py s).
Definition c (s : string) : regex := RChar (ch s).
Definition rng (lo hi : string) : cset := CsRange (ch lo) (ch hi).
Definition one (s : string) : cset := CsChar (ch s).
Definition cls (items : list cset) : regex := RSet false items.
Definition at_least (n : nat) (r : regex) : regex := RRep true n None r.
Definition space : regex := RSet false [CsSpace].

End Re.

(* ================================================================== *)
(** * text_extractor.py: text blocks *)
(* ================================================================== *)

(** Coordinates, sizes and scores are Python floats: binary64, with the
    operations of IEEE 754 (a difference of coordinates is rounded before
    it is compared). *)
Definition float : Set := PrimFloat.float.
Bind Scope float_scope with float.

(** [bbox = (x0, y0, x1, y1)] *)
Record BBox : Type := mkBBox { x0 : float; y0 : float; x1 : float; y1 : float }.

Record TextBlock : Type := mkTextBlock {
  text : Py.str;
  bbox : BBox;
  font : option Py.str;
  size : option float
}.

(* ================================================================== *)
(** * preprocessor.py *)
(* ================================================================== *)

Module Preprocessor.
Import Py Re.

(** [normalization_patterns]: [\s+] to one space, then
    [[^\w\s\.\-\/\(\)]] to nothing. *)
Definition normalization_patterns : list (regex * str) :=
  [ (plus (RSet false [CsSpace]), py " ");
    (RSet true [CsWord; CsSpace; CsChar (ch "."); CsChar (ch "-");
                CsChar (ch "/"); CsChar (ch "("); CsChar (ch ")")], py "") ].

Definition normalize_text (text : str) : str :=
  let normalized := strip text in
  let normalized :=
    fold_left (fun acc pr => re_sub false (fst pr) (snd pr) acc)
              normalization_patterns normalized in
  lower normalized.

Definition tokenize (text : str) : list str :=
  let normalized := normalize_text text in
  filter (fun token => negb (str_eqb token [])) (split normalized).

(** [sorted(blocks, key=lambda b: (b.bbox[1], b.bbox[0]))]: the keys are
    tuples, which [<] compares on the first component where they differ
    by [==]; equal tuples are not below each other.  The sort is
    stable; on coordinates that are numbers (not NaN) the keys are
    totally preordered and the result is that of the stable insertion
    below. *)
Definition key_lt (a b : TextBlock) : bool :=
  if (y0 (bbox a) =? y0 (bbox b))%float
  then (x0 (bbox a) <? x0 (bbox b))%float
  else (y0 (bbox a) <? y0 (bbox b))%float.

Fixpoint insert_sorted (b : TextBlock) (l : list TextBlock) : list TextBlock :=
  match l with
  | [] => [b]
  | c :: t => if key_lt c b then c :: insert_sorted b t else b :: c :: t
  end.

Fixpoint sorted (blocks : list TextBlock) : list TextBlock :=
  match blocks with
  | [] => []
  | b :: t => insert_sorted b (sorted t)
  end.

(** The loop of [group_blocks] over [sorted_blocks[1:]]; [current_group]
    is never empty, so [current_group[-1]] is its last element. *)
Fixpoint group_loop (max_distance : float) (blocks : list TextBlock)
         (groups : list (list TextBlock)) (current_group : list TextBlock)
  : list (list TextBlock) :=
  match blocks with
  | [] => groups ++ [current_group]
  | block :: rest =>
      let last_block := last current_group block in
      let vertical_dist :=
        abs (y0 (bbox block) - y0 (bbox last_block))%float in
      if (vertical_dist <? max_distance)%float
         && (x0 (bbox block) - x1 (bbox last_block) <? max_distance * 2)%float
      then group_loop max_distance rest groups (current_group ++ [block])
      else group_loop max_distance rest (groups ++ [current_group]) [block]
  end.

Definition group_blocks (blocks : list TextBlock) (max_distance : float)
  : list (list TextBlock) :=
  match blocks with
  | [] => []
  | _ :: _ =>
      match sorted blocks with
      | [] => []
      | first :: others => group_loop max_distance others [] [first]
      end
  end.

Definition default_max_distance : float := 20.0.

(** One entry of [processed_blocks]. *)
Record processed_block : Type := mkProcessed {
  pb_original : TextBlock;
  pb_normalized : str;
  pb_tokens : list str;
  pb_hash : str;
  pb_bbox : BBox;
  pb_font : option str;
  pb_size : option float
}.

(** The dictionary returned by [extract_features]. *)
Record features : Type := mkFeatures {
  processed_blocks : list processed_block;
  groups : list (list TextBlock);
  group_texts : list str;
  full_text : str;
  normalized_full_text : str
}.

Section Features.
(** [create_block_hash]: the MD5 digest of the block's printed form, which
    [hashlib] computes. *)
Variable create_block_hash : TextBlock -> str.

Definition extract_features (blocks : list TextBlock) : features :=
  let processed :=
    map (fun block =>
           mkProcessed block (normalize_text (text block))
                       (tokenize (text block)) (create_block_hash block)
                       (bbox block) (font block) (size block))
        blocks in
  let gs := group_blocks blocks default_max_distance in
  mkFeatures processed gs
             (map (fun g => join (py " ") (map text g)) gs)
             (join (py " ") (map text blocks))
             (normalize_text (join (py " ") (map text blocks))).
End Features.

End Preprocessor.

(* ================================================================== *)
(** * Candidates *)
(* ================================================================== *)

Inductive method : Type := MRegex | MSemantic.

(** A candidate dictionary.  The keys [pattern], [match_type] and
    [similarity] are optional: the first two are set by the regex source,
    the last by the semantic source. *)
Record candidate : Type := mkCandidate {
  c_text : Py.str;
  c_normalized : Py.str;
  c_bbox : BBox;
  c_score : float;
  c_method : method;
  c_pattern : option Py.str;
  c_match_type : option Py.str;
  c_similarity : option float
}.

(** The copy of a candidate that [select_best_candidate] annotates with
    [final_score]. *)
Record scored_candidate : Type := mkScored {
  sc_candidate : candidate;
  final_score : float
}.

(** Equality of candidate dictionaries ([==]): key by key. *)
Definition opt_eqb {A} (eqb : A -> A -> bool) (a b : option A) : bool :=
  match a, b with
  | Some x, Some y => eqb x y
  | None, None => true
  | _, _ => false
  end.

Definition bbox_eqb (a b : BBox) : bool :=
  PrimFloat.eqb (x0 a) (x0 b) && PrimFloat.eqb (y0 a) (y0 b)
  && PrimFloat.eqb (x1 a) (x1 b) && PrimFloat.eqb (y1 a) (y1 b).

Definition method_eqb (a b : method) : bool :=
  match a, b with
  | MRegex, MRegex | MSemantic, MSemantic => true
  | _, _ => false
  end.

Definition candidate_eqb (a b : candidate) : bool :=
  Py.str_eqb (c_text a) (c_text b)
  && Py.str_eqb (c_normalized a) (c_normalized b)
  && bbox_eqb (c_bbox a) (c_bbox b)
  && PrimFloat.eqb (c_score a) (c_score b)
  && method_eqb (c_method a) (c_method b)
  && opt_eqb Py.str_eqb (c_pattern a) (c_pattern b)
  && opt_eqb Py.str_eqb (c_match_type a) (c_match_type b)
  && opt_eqb PrimFloat.eqb (c_similarity a) (c_similarity b).

(** The closed set of region codes, written out twice in the sources. *)
Definition uf_codes : list Py.str :=
  map Py.py
      ["AC";"AL";"AP";"AM";"BA";"CE";"DF";"ES";"GO";"MA";"MT";"MS";"MG";"PA";
       "PB";"PR";"PE";"PI";"RJ";"RN";"RS";"RO";"RR";"SC";"SP";"SE";"TO"]%string.

Definition str_in (s : Py.str) (l : list Py.str) : bool :=
  existsb (Py.str_eqb s) l.

(** The street-type alternation of the address checks; [optional_dot] tells
    whether the abbreviations read [av\.?] and [rod\.?] (scorer) or [av\.]
    and [rod\.] (decision engine). *)
Definition street_types (optional_dot : bool) : Re.regex :=
  let dot := if optional_dot then Re.opt (Re.c ".") else Re.c "." in
  Re.alt [Re.lit (Py.py "rua"); Re.lit (Py.py "avenida");
          Re.RSeq (Re.lit (Py.py "av")) dot;
          Re.lit (Py.py "travessa"); Re.lit (Py.py "alameda");
          Re.lit (Py.py "rodovia"); Re.RSeq (Re.lit (Py.py "rod")) dot;
          Re.lit (Py.py "estrada"); Re.lit (Py.py "praça");
          Re.lit (Py.py "praca"); Re.lit (Py.py "largo")].

(** [\b\d+[\w\-\/]*\b] *)
Definition house_number : Re.regex :=
  Re.seq [Re.RWordB; Re.plus Re.digit;
          Re.star (Re.cls [Re.CsWord; Re.one "-"; Re.one "/"]); Re.RWordB].

(** [\b\d{5}-?\d{3}\b], with the token as group 1 *)
Definition cep_token : Re.regex :=
  Re.seq [Re.RWordB;
          Re.RGroup 1 (Re.seq [Re.exactly 5 Re.digit; Re.opt (Re.c "-");
                               Re.exactly 3 Re.digit]);
          Re.RWordB].

Definition is_some {A} (o : option A) : bool :=
  match o with Some _ => true | None => false end.

(* ================================================================== *)
(** * scorer_validator.py *)
(* ================================================================== *)

Module ScorerValidator.
Import Py Re.

(** [validation_patterns], in the order of the dictionary. *)
Definition validation_patterns : list (str * regex) :=
  [ (py "cpf",
     seq [RBol; exactly 3 digit; opt (c "."); exactly 3 digit; opt (c ".");
          exactly 3 digit; opt (c "-"); exactly 2 digit; REol]);
    (py "cnpj",
     seq [RBol; exactly 2 digit; opt (c "."); exactly 3 digit; opt (c ".");
          exactly 3 digit; opt (c "/"); exactly 4 digit; opt (c "-");
          exactly 2 digit; REol]);
    (py "email",
     seq [RBol;
          plus (cls [rng "A" "Z"; rng "a" "z"; rng "0" "9"; one "."; one "_";
                     one "%"; one "+"; one "-"]);
          c "@";
          plus (cls [rng "A" "Z"; rng "a" "z"; rng "0" "9"; one "."; one "-"]);
          c ".";
          at_least 2 (cls [rng "A" "Z"; one "|"; rng "a" "z"]);
          REol]);
    (py "phone",
     seq [RBol; opt (c "("); exactly 2 digit; opt (c ")"); opt space;
          times 4 5 digit; opt (c "-"); exactly 4 digit; REol]);
    (py "date",
     seq [RBol; times 1 2 digit; cls [one "/"; one "-"]; times 1 2 digit;
          cls [one "/"; one "-"]; times 2 4 digit; REol]);
    (py "cep",
     seq [RBol; exactly 5 digit; opt (c "-"); exactly 3 digit; REol]) ].

Definition uf_set : list str := uf_codes.

Definition _regex_validation (candidate0 : candidate)
           (field_name field_description : str) : float :=
  let text := c_normalized candidate0 in
  let field_lower := lower field_name in
  let desc_lower := lower field_description in
  if existsb (fun pr =>
                (contains (fst pr) field_lower || contains (fst pr) desc_lower)
                && is_some (re_match true (snd pr) text))
             validation_patterns
  then 1.0%float
  else match c_method candidate0 with
       | MRegex => 0.8%float
       | MSemantic => 0.5%float
       end.

Definition _positional_score (candidate0 : candidate)
           (all_candidates : list candidate) : float :=
  match all_candidates with
  | first :: _ =>
      if candidate_eqb candidate0 first then 0.7%float else 0.5%float
  | [] => 0.5%float
  end.

(** [text.split('@')[-1]]: what follows the last [@]. *)
Fixpoint after_last (sep : char) (s : str) (acc : str) : str :=
  match s with
  | [] => rev acc
  | x :: t => if (x =? sep)%N then after_last sep t [] else after_last sep t (x :: acc)
  end.

Definition letters : regex :=
  plus (cls [rng "A" "Z"; rng "a" "z"; rng "À" "ÿ"]).

(** [^[A-Za-zÀ-ÿ]+(?:\s+[A-Za-zÀ-ÿ]+)*$] *)
Definition city_shape : regex :=
  seq [RBol; letters; star (RSeq (plus space) letters); REol].

(** [\d{1,2}[/-]\d{1,2}[/-]\d{2,4}], not anchored at the end *)
Definition date_prefix : regex :=
  seq [times 1 2 digit; cls [one "/"; one "-"]; times 1 2 digit;
       cls [one "/"; one "-"]; times 2 4 digit].

Definition _validate_value (text field_name field_description : str) : float :=
  let text_lower := strip (lower text) in
  match text_lower with
  | [] => 0.0%float
  | _ :: _ =>
      let field_lower := lower field_name in
      if contains (py "cpf") field_lower then
        let cleaned := re_sub false (RSet true [CsDigit]) [] text in
        if Nat.eqb (List.length cleaned) 11 then 1.0%float else 0.3%float
      else if contains (py "cnpj") field_lower then
        let cleaned := re_sub false (RSet true [CsDigit]) [] text in
        if Nat.eqb (List.length cleaned) 14 then 1.0%float else 0.3%float
      else if contains (py "cep") field_lower then
        if is_some (re_search false cep_token text) then 1.0%float else 0.3%float
      else if contains (py "estado") field_lower
              || contains (py "uf") field_lower
              || contains (py "state") field_lower then
        let val := upper (strip text) in
        if str_in val uf_set then 1.0%float else 0.3%float
      else if contains (py "cidade") field_lower
              || contains (py "city") field_lower then
        if is_some (re_match false city_shape (strip text))
           && Nat.leb 3 (List.length (strip text))
        then 0.9%float else 0.3%float
      else if contains (py "endereco") field_lower
              || contains (py "endereço") field_lower
              || contains (py "address") field_lower then
        if is_some (re_search false
                      (seq [RWordB; RGroup 1 (street_types true); RWordB])
                      text_lower)
           && is_some (re_search false house_number text_lower)
        then 0.9%float else 0.3%float
      else if contains (py "email") field_lower
              || contains (py "e-mail") field_lower then
        if contains (py "@") text
           && contains (py ".") (after_last (ch "@") text [])
        then 1.0%float else 0.3%float
      else if contains (py "data") field_lower
              || contains (py "date") field_lower then
        if is_some (re_match false date_prefix text)
        then 1.0%float else 0.3%float
      else 0.6%float
  end.

(** [max(a, b)] and [min(a, b)] of Python: the first argument is kept
    unless the second is strictly beyond it. *)
Definition py_max (a b : float) : float := if (a <? b)%float then b else a.
Definition py_min (a b : float) : float := if (b <? a)%float then b else a.

(** The semantic sub-score of [score_candidate]. *)
Definition semantic_component (candidate0 : candidate) : float :=
  let semantic_score :=
    match c_similarity candidate0 with Some s => s | None => 0.0%float end in
  if (0 <? semantic_score)%float
  then py_max 0%float (py_min 1%float ((semantic_score + 1) / 2)%float)
  else semantic_score.

(** The five weighted sub-scores, in the order the code appends them. *)
Definition score_terms (candidate0 : candidate)
           (field_name field_description : str)
           (all_candidates : list candidate) : list (float * float) :=
  [ (c_score candidate0, 0.2%float);
    (_regex_validation candidate0 field_name field_description, 0.25%float);
    (semantic_component candidate0, 0.25%float);
    (_positional_score candidate0 all_candidates, 0.15%float);
    (_validate_value (c_text candidate0) field_name field_description,
     0.15%float) ].

(** [sum(...)] starts from the integer 0 and adds from the left. *)
Definition py_sum (xs : list float) : float :=
  fold_left (fun acc x => (acc + x)%float) xs 0%float.

Definition score_candidate (candidate0 : candidate)
           (field_name field_description : str)
           (all_candidates : list candidate) : float :=
  let scores :=
    score_terms candidate0 field_name field_description all_candidates in
  let total_score :=
    py_sum (map (fun sw => (snd sw * fst sw)%float) scores) in
  py_min 1.0%float (py_max 0.0%float total_score).

(** [max(scored_candidates, key=...)]: the first maximal element. *)
Fixpoint max_by_score (best : scored_candidate) (l : list scored_candidate)
  : scored_candidate :=
  match l with
  | [] => best
  | x :: t =>
      if (final_score best <? final_score x)%float
      then max_by_score x t else max_by_score best t
  end.

Definition select_best_candidate (candidates : list candidate)
           (field_name field_description : str) : option scored_candidate :=
  match candidates with
  | [] => None
  | _ :: _ =>
      let scored_candidates :=
        map (fun cand =>
               mkScored cand
                 (score_candidate cand field_name field_description candidates))
            candidates in
      match scored_candidates with
      | [] => None
      | first :: others => Some (max_by_score first others)
      end
  end.

End ScorerValidator.

(* ================================================================== *)
(** * Dictionaries, JSON values, exceptions and effects *)
(* ================================================================== *)

(** A Python [dict] keeps its keys in insertion order; the prompt sent to
    the reasoning service and the order of the outcome depend on it. *)
Module Dict.
Import Py.

Definition dict (V : Type) : Type := list (str * V).

Section Ops.
Variable V : Type.

(** [d.get(k)] *)
Fixpoint get (k : str) (d : dict V) : option V :=
  match d with
  | [] => None
  | (k', v) :: t => if str_eqb k k' then Some v else get k t
  end.

(** [k in d] *)
Definition mem (k : str) (d : dict V) : bool := is_some (get k d).

(** [d[k] = v]: the value of a present key is replaced in place, a fresh
    key goes to the end. *)
Fixpoint set (k : str) (v : V) (d : dict V) : dict V :=
  match d with
  | [] => [(k, v)]
  | (k', v') :: t =>
      if str_eqb k k' then (k', v) :: t else (k', v') :: set k v t
  end.

(** [d.update(e)] *)
Definition update (d e : dict V) : dict V :=
  fold_left (fun acc kv => set (fst kv) (snd kv) acc) e d.

(** [d.keys()] *)
Definition keys (d : dict V) : list str := map fst d.

(** [d.get(k, default)] *)
Definition get_default (k : str) (default : V) (d : dict V) : V :=
  match get k d with Some v => v | None => default end.

End Ops.
End Dict.

(** What [json.loads] produces. *)
Inductive json : Type :=
| JNull
| JBool (b : bool)
| JInt (z : Z)
| JFloat (f : float)
| JStr (s : Py.str)
| JArr (l : list json)
| JObj (o : list (Py.str * json)).

(** The exceptions that leave a function of the pipeline. *)
Inductive exn : Type :=
| KeyError (key : Py.str)
| IndexError
| ParsingFailure
| EmbeddingFailure.

(** One request to the reasoning service: the four arguments of
    [extract_fields], from which the prompt is built. *)
Record llm_request : Type := mkRequest {
  rq_label : Py.str;
  rq_fields : Dict.dict Py.str;
  rq_document_text : Py.str;
  rq_extracted_context : Dict.dict json
}.

(** The outcome of the [try] block of [extract_fields] up to
    [json.loads]: an exception (of the API call or of the JSON decoder),
    or the decoded reply, which [response_format={"type": "json_object"}]
    makes a JSON object. *)
Inductive llm_outcome : Type :=
| ServiceError
| Reply (results : Dict.dict json).

(** An embedding vector; its float32 components are binary64 values. *)
Definition vec : Type := list float.

(** The observable state an extraction acts on: the requests made to the
    reasoning service so far, the flag of the decision engine, and the
    label cache of the candidate generator. *)
Record world : Type := mkWorld {
  llm_calls : list llm_request;
  used_llm_last_call : bool;
  label_cache : Dict.dict vec
}.

(** Computations that read and write the [world] and may raise. *)
Definition M (A : Type) : Type := world -> (exn + A) * world.

Definition ret {A} (a : A) : M A := fun w => (inr a, w).
Definition raise {A} (e : exn) : M A := fun w => (inl e, w).
Definition bind {A B} (x : M A) (f : A -> M B) : M B :=
  fun w => match x w with
           | (inl e, w') => (inl e, w')
           | (inr a, w') => f a w'
           end.
Definition lift {A} (r : exn + A) : M A := fun w => (r, w).
Definition set_flag (b : bool) : M unit :=
  fun w => (inr tt, mkWorld (llm_calls w) b (label_cache w)).
Definition record_call (rq : llm_request) : M unit :=
  fun w => (inr tt, mkWorld (llm_calls w ++ [rq]) (used_llm_last_call w)
                            (label_cache w)).
Definition get_cache : M (Dict.dict vec) :=
  fun w => (inr (label_cache w), w).
Definition put_cache (k : Py.str) (v : vec) : M unit :=
  fun w => (inr tt, mkWorld (llm_calls w) (used_llm_last_call w)
                            (Dict.set k v (label_cache w))).

Declare Scope monad_scope.
Delimit Scope monad_scope with monad.
Notation "x <- m1 ;; m2" := (bind m1 (fun x => m2))
  (at level 61, m1 at next level, right associativity) : monad_scope.
Notation "m1 ;;; m2" := (bind m1 (fun _ => m2))
  (at level 61, right associativity) : monad_scope.

Definition initial_world : world := mkWorld [] false [].

(* ================================================================== *)
(** * llm_client.py *)
(* ================================================================== *)

Module LLMClient.
Import Py Dict.
Local Open Scope monad_scope.

Section Client.
(** [self.client.chat.completions.create] followed by [json.loads]. *)
Variable service : llm_request -> llm_outcome.

(** The loop "Ensure all fields are present". *)
Definition ensure_fields (fields : dict str) (results : dict json) : dict json :=
  fold_left (fun results field_name =>
               if mem field_name results then results
               else set field_name (JStr (py "")) results)
            (keys fields) results.

(** [{field_name: "" for field_name in fields.keys()}] *)
Definition empty_values (fields : dict str) : dict json :=
  fold_left (fun d field_name => set field_name (JStr (py "")) d)
            (keys fields) [].

Definition extract_fields (label : str) (fields : dict str)
           (document_text : str) (extracted_context : dict json)
  : M (dict json) :=
  let rq := mkRequest label fields document_text extracted_context in
  record_call rq ;;;
  match service rq with
  | Reply results => ret (ensure_fields fields results)
  | ServiceError => ret (empty_values fields)
  end.

End Client.
End LLMClient.

(* ================================================================== *)
(** * config.py *)
(* ================================================================== *)

Definition T_HIGH : float := 0.85%float.
Definition T_LOW : float := 0.60%float.
Definition TOP_K_CANDIDATES : nat := 5.

(* ================================================================== *)
(** * decision_engine.py *)
(* ================================================================== *)

Module DecisionEngine.
Import Py Re Dict.
Local Open Scope monad_scope.

(** [^\d{1,2}[/-]\d{1,2}[/-]\d{2,4}$] *)
Definition date_shape : regex :=
  seq [RBol; times 1 2 digit; cls [one "/"; one "-"]; times 1 2 digit;
       cls [one "/"; one "-"]; times 2 4 digit; REol].

Definition _deterministic_accept (field_name value : str) : bool :=
  let field_lower := lower field_name in
  if contains (py "cpf") field_lower then
    let digits := filter_isdigit value in
    Nat.eqb (List.length digits) 11
  else if (contains (py "data") field_lower || contains (py "date") field_lower)
          && is_some (re_match false date_shape (strip value))
  then true
  else if contains (py "cep") field_lower then
    is_some (re_search false cep_token (strip value))
  else if (contains (py "estado") field_lower
           || contains (py "uf") field_lower
           || contains (py "state") field_lower)
          && str_in (upper (strip value)) uf_codes
  then true
  else if (contains (py "endereco") field_lower
           || contains (py "endereço") field_lower
           || contains (py "address") field_lower)
          && (is_some (re_search false
                         (seq [RWordB; RGroup 1 (street_types false); RWordB])
                         (lower value))
              && is_some (re_search false house_number (lower value)))
  then true
  else false.

(** [^(?:nascimento|data(?:\s+de\s+nascimento)?|date)\s*:\s*] *)
Definition date_label : regex :=
  seq [RBol;
       alt [lit (py "nascimento");
            RSeq (lit (py "data"))
                 (opt (seq [plus space; lit (py "de"); plus space;
                            lit (py "nascimento")]));
            lit (py "date")];
       star space; c ":"; star space].

(** [^[A-Za-zÀ-ÿ]+\s*:\s*] *)
Definition word_label : regex :=
  seq [RBol; plus (cls [rng "A" "Z"; rng "a" "z"; rng "À" "ÿ"]);
       star space; c ":"; star space].

(** [^(\d{1,2})/(\d{1,2})/(\d{2,4})$] *)
Definition date_groups : regex :=
  seq [RBol; RGroup 1 (times 1 2 digit); c "/"; RGroup 2 (times 1 2 digit);
       c "/"; RGroup 3 (times 2 4 digit); REol].

Definition group_or_empty (s : str) (mo : match_obj) (i : nat) : str :=
  match group s mo i with Some g => g | None => [] end.

(** The date branch of [_normalize_value]; [None] when the text is not a
    date after the labels are stripped. *)
Definition normalize_date (normalized : str) : option str :=
  let text := strip (replace_char (ch "-") (py "/") normalized) in
  let text := re_sub true date_label [] text in
  let text := re_sub false word_label [] text in
  match re_match false date_groups text with
  | Some mo =>
      let d := group_or_empty text mo 1 in
      let mth := group_or_empty text mo 2 in
      let y := group_or_empty text mo 3 in
      let day := zfill 2 d in
      let month := zfill 2 mth in
      let year :=
        if Nat.eqb (List.length y) 4 then y
        else if (int_of_digits y <=? 50)%N then py "20" ++ y
             else py "19" ++ y in
      Some (day ++ py "/" ++ month ++ py "/" ++ year)
  | None => None
  end.

(** The postal-code branch; [None] when neither an embedded token nor
    eight digits are found. *)
Definition normalize_cep (normalized : str) : option str :=
  match re_search false cep_token normalized with
  | Some mo =>
      let digits := filter_isdigit (group_or_empty normalized mo 1) in
      Some (slice_to 5 digits ++ py "-" ++ slice_from 5 digits)
  | None =>
      let digits := filter_isdigit normalized in
      if Nat.eqb (List.length digits) 8
      then Some (slice_to 5 digits ++ py "-" ++ slice_from 5 digits)
      else None
  end.

Definition format_cpf (digits : str) : str :=
  slice_to 3 digits ++ py "." ++ slice 3 6 digits ++ py "."
  ++ slice 6 9 digits ++ py "-" ++ slice_from 9 digits.

Definition format_cnpj (digits : str) : str :=
  slice_to 2 digits ++ py "." ++ slice 2 5 digits ++ py "."
  ++ slice 5 8 digits ++ py "/" ++ slice 8 12 digits ++ py "-"
  ++ slice_from 12 digits.

(** The chain of [if] statements of [_normalize_value]: a branch whose
    inner test fails falls through to the next one. *)
Definition _normalize_value (value field_name : str) : str :=
  let normalized := join (py " ") (split value) in
  let field_lower := lower field_name in
  let digits := filter_isdigit normalized in
  if contains (py "cpf") field_lower && Nat.eqb (List.length digits) 11
  then format_cpf digits
  else if contains (py "cnpj") field_lower && Nat.eqb (List.length digits) 14
  then format_cnpj digits
  else
    match (if contains (py "data") field_lower
              || contains (py "date") field_lower
              || contains (py "data_nascimento") field_lower
              || contains (py "nascimento") field_lower
           then normalize_date normalized else None) with
    | Some date => date
    | None =>
        match (if contains (py "cep") field_lower
               then normalize_cep normalized else None) with
        | Some cep => cep
        | None =>
            if contains (py "estado") field_lower
               || contains (py "uf") field_lower
               || contains (py "state") field_lower
            then slice_to 2 (upper normalized)
            else normalized
        end
    end.

Definition _normalize_with_mini_model (value field_name field_description : str)
  : str :=
  _normalize_value value field_name.

(** The field results handed over by the scorer: the best candidate of
    each field, or [None]. *)
Definition field_results : Type := dict (option scored_candidate).

(** The state of the loop over [field_results.items()]. *)
Record loop_state : Type := mkLoop {
  final_values : dict json;
  pending_fields : list str
}.

Definition accept (st : loop_state) (field_name : str) (v : str) : loop_state :=
  mkLoop (set field_name (JStr v) (final_values st)) (pending_fields st).

Definition defer (st : loop_state) (field_name : str) : loop_state :=
  mkLoop (final_values st) (pending_fields st ++ [field_name]).

(** One iteration of the loop. *)
Definition process_field (extraction_schema : dict str) (st : loop_state)
           (item : str * option scored_candidate) : loop_state :=
  let field_name := fst item in
  match snd item with
  | None => defer st field_name
  | Some candidate_result =>
      let score := final_score candidate_result in
      let text := c_text (sc_candidate candidate_result) in
      if (T_HIGH <=? score)%float then
        accept st field_name (_normalize_value text field_name)
      else if (T_LOW <=? score)%float then
        accept st field_name
               (_normalize_with_mini_model text field_name
                  (get_default field_name (py "") extraction_schema))
      else if _deterministic_accept field_name text then
        accept st field_name (_normalize_value text field_name)
      else defer st field_name
  end.

Definition process_fields (extraction_schema : dict str) (results : field_results)
  : loop_state :=
  fold_left (process_field extraction_schema) results (mkLoop [] []).

(** [{field: extraction_schema[field] for field in pending_fields}] *)
Fixpoint pending_schema_of (extraction_schema : dict str)
         (pending : list str) (acc : dict str) : exn + dict str :=
  match pending with
  | [] => inr acc
  | field :: t =>
      match get field extraction_schema with
      | Some description =>
          pending_schema_of extraction_schema t (set field description acc)
      | None => inl (KeyError field)
      end
  end.

Section Engine.
Variable service : llm_request -> llm_outcome.

Definition _call_llm (pending : list str) (extraction_schema : dict str)
           (label : str) (document_full_text : str)
           (extracted_so_far : dict json) : M (dict json) :=
  pending_schema <- lift (pending_schema_of extraction_schema pending []) ;;
  let text_snippet :=
    if Nat.ltb 3000 (List.length document_full_text)
    then slice_to 3000 document_full_text else document_full_text in
  LLMClient.extract_fields service label pending_schema text_snippet
                           extracted_so_far.

Definition process_extraction (results : field_results) (label : str)
           (extraction_schema : dict str) (document_full_text : str)
  : M (dict json) :=
  set_flag false ;;;
  let st := process_fields extraction_schema results in
  match pending_fields st with
  | [] => ret (final_values st)
  | _ :: _ =>
      llm_results <- _call_llm (pending_fields st) extraction_schema label
                               document_full_text (final_values st) ;;
      set_flag true ;;;
      ret (update (final_values st) llm_results)
  end.

End Engine.
End DecisionEngine.

(* ================================================================== *)
(** * The external collaborators *)
(* ================================================================== *)

(** What the pipeline calls and does not own: the two PDF parsers (a
    result of [None] is a raised exception), [hashlib.md5], the sentence
    embedding model, the numpy kernels of the semantic search, and the
    reasoning service. *)
Record collaborators : Type := mkCollaborators {
  _extract_pymupdf : list N -> option (list TextBlock);
  _extract_pdfplumber : list N -> option (list TextBlock);
  create_block_hash : TextBlock -> Py.str;
  encode : list Py.str -> option (list vec);
  cosine_similarities : list vec -> vec -> list float;
  weighted_scores : list float -> list float -> list float;
  argsort : list float -> list nat;
  service : llm_request -> llm_outcome
}.

Fixpoint foldM {A B} (f : B -> A -> M B) (l : list A) (b : B) : M B :=
  match l with
  | [] => ret b
  | a :: t => bind (f b a) (fun b' => foldM f t b')
  end.

(* ================================================================== *)
(** * candidate_generator.py *)
(* ================================================================== *)

Module CandidateGenerator.
Import Py Re Dict Preprocessor.
Local Open Scope monad_scope.
Local Open Scope string_scope.
Local Open Scope list_scope.

(** A pattern of the catalogue: its source text (kept in the candidate),
    the pattern itself, and the numbers of its named groups. *)
Record pattern : Type := mkPattern {
  p_source : str;
  p_regex : regex;
  p_groupindex : list (str * nat)
}.

Definition plain (source : string) (r : regex) : pattern :=
  mkPattern (py source) r [].

Definition uf_codes_re : regex := alt (map lit uf_codes).

Definition az_latin : cset := rng "À" "ÿ".

Definition address_core : regex :=
  RGroup 1
    (seq [RWordB; street_types true; plus space;
          RRep false 1 None
               (cls [CsWord; az_latin; one "."; one "-"; one " "]);
          star space; opt (c ","); star space; plus digit;
          RRep false 0 None (cls [CsWord; one "-"; one "/"])]).

Definition _get_regex_patterns (field_name field_description : str)
  : list (pattern * str) :=
  let field_lower := lower field_name in
  let desc_lower := lower field_description in
  let has (s : string) := contains (py s) field_lower in
  let desc_has (s : string) := contains (py s) desc_lower in
  let when (b : bool) (l : list (pattern * str)) := if b then l else [] in
  when (has "cpf" || desc_has "cpf")
    [ (plain "\d{3}\.?\d{3}\.?\d{3}-?\d{2}"
         (seq [exactly 3 digit; opt (c "."); exactly 3 digit; opt (c ".");
               exactly 3 digit; opt (c "-"); exactly 2 digit]),
       py "cpf") ]
  ++ when (has "cnpj")
    [ (plain "\d{2}\.?\d{3}\.?\d{3}/?\d{4}-?\d{2}"
         (seq [exactly 2 digit; opt (c "."); exactly 3 digit; opt (c ".");
               exactly 3 digit; opt (c "/"); exactly 4 digit; opt (c "-");
               exactly 2 digit]),
       py "cnpj") ]
  ++ when (has "email" || desc_has "e-mail")
    [ (plain "\b[A-Za-z0-9._%+-]+@[A-Za-z0-9.-]+\.[A-Z|a-z]{2,}\b"
         (seq [RWordB;
               plus (cls [rng "A" "Z"; rng "a" "z"; rng "0" "9"; one ".";
                          one "_"; one "%"; one "+"; one "-"]);
               c "@";
               plus (cls [rng "A" "Z"; rng "a" "z"; rng "0" "9"; one ".";
                          one "-"]);
               c ".";
               at_least 2 (cls [rng "A" "Z"; one "|"; rng "a" "z"]);
               RWordB]),
       py "email") ]
  ++ when (has "telefone" || has "phone" || has "celular")
    [ (plain "\(?\d{2}\)?\s?\d{4,5}-?\d{4}"
         (seq [opt (c "("); exactly 2 digit; opt (c ")"); opt space;
               times 4 5 digit; opt (c "-"); exactly 4 digit]),
       py "phone") ]
  ++ when (has "cep" || desc_has "cep" || desc_has "postal")
    [ (plain "\b\d{5}-?\d{3}\b"
         (seq [RWordB; exactly 5 digit; opt (c "-"); exactly 3 digit; RWordB]),
       py "cep") ]
  ++ when (has "estado" || has "uf" || has "state")
    [ (plain "\b(?:AC|AL|AP|AM|BA|CE|DF|ES|GO|MA|MT|MS|MG|PA|PB|PR|PE|PI|RJ|RN|RS|RO|RR|SC|SP|SE|TO)\b"
         (seq [RWordB; uf_codes_re; RWordB]),
       py "state") ]
  ++ when (has "cidade" || has "city")
    [ (mkPattern
         (py "(?P<city>[A-Za-zÀ-ÿ]+(?:\s+[A-Za-zÀ-ÿ]+)*)\s*[,\-]\s*(?P<state>(?:AC|AL|AP|AM|BA|CE|DF|ES|GO|MA|MT|MS|MG|PA|PB|PR|PE|PI|RJ|RN|RS|RO|RR|SC|SP|SE|TO))")
         (seq [RGroup 1
                 (RSeq (plus (cls [rng "A" "Z"; rng "a" "z"; az_latin]))
                       (star (RSeq (plus space)
                                   (plus (cls [rng "A" "Z"; rng "a" "z";
                                               az_latin])))));
               star space; cls [one ","; one "-"]; star space;
               RGroup 2 uf_codes_re])
         [(py "city", 1); (py "state", 2)],
       py "city_state") ]
  ++ when (has "endereco" || has "endereço" || has "address")
    [ (mkPattern
         (py "(?P<address>\b(?:rua|avenida|av\.?|travessa|alameda|rodovia|rod\.?|estrada|praça|praca|largo)\s+[\wÀ-ÿ\.\- ]+?\s*,?\s*\d+[\w\-\/]*?)")
         address_core [(py "address", 1)],
       py "address");
      (mkPattern
         (py "(?P<address>\b(?:rua|avenida|av\.?|travessa|alameda|rodovia|rod\.?|estrada|praça|praca|largo)\s+[\wÀ-ÿ\.\- ]+?\s*,?\s*\d+[\w\-\/]*?).*?\b\d{5}-?\d{3}\b")
         (seq [address_core; RRep false 0 None RAny; RWordB; exactly 5 digit;
               opt (c "-"); exactly 3 digit; RWordB])
         [(py "address", 1)],
       py "address") ]
  ++ when (has "data" || has "date" || has "nascimento")
    [ (plain "\d{1,2}/\d{1,2}/\d{2,4}"
         (seq [times 1 2 digit; c "/"; times 1 2 digit; c "/"; times 2 4 digit]),
       py "date");
      (plain "\d{1,2}-\d{1,2}-\d{2,4}"
         (seq [times 1 2 digit; c "-"; times 1 2 digit; c "-"; times 2 4 digit]),
       py "date") ]
  ++ when (has "valor" || has "preço" || has "money")
    [ (plain "R\$\s?\d+[.,]\d{2}"
         (seq [c "R"; c "$"; opt space; plus digit; cls [one "."; one ","];
               exactly 2 digit]),
       py "currency");
      (plain "\d+[.,]\d{2}"
         (seq [plus digit; cls [one "."; one ","]; exactly 2 digit]),
       py "number") ]
  ++ when (has "numero" || has "número" || has "number")
    [ (plain "\d+" (plus digit), py "number") ].

(** The text a match contributes: the named group the field asks for,
    when the pattern has it, and the whole match otherwise. *)
Definition select_matched_text (field_name : str) (p : pattern)
           (subject : str) (mo : match_obj) : str :=
  let field_lower := lower field_name in
  let has (s : string) := contains (py s) field_lower in
  let in_groupindex (s : string) := mem (py s) (p_groupindex p) in
  let whole := slice (m_start mo) (m_end mo) subject in
  let named (s : string) :=
    match get (py s) (p_groupindex p) with
    | Some i => match group subject mo i with Some g => g | None => whole end
    | None => whole
    end in
  if in_groupindex "city" && (has "cidade" || has "city")
  then named "city"
  else if in_groupindex "state" && (has "estado" || has "uf" || has "state")
  then named "state"
  else if in_groupindex "address"
          && (has "endereco" || has "endereço" || has "address")
  then named "address"
  else whole.

(** The first processed block whose normalized text contains [needle]. *)
Definition containing_block (needle : str) (blocks : list processed_block)
  : option processed_block :=
  find (fun block_info => contains needle (pb_normalized block_info)) blocks.

Definition _regex_candidates (processed_data : features)
           (field_name field_description : str) : list candidate :=
  let subject := normalized_full_text processed_data in
  flat_map
    (fun pm : pattern * str =>
       let (p, match_type) := pm in
       flat_map
         (fun mo =>
            let matched_text := select_matched_text field_name p subject mo in
            match containing_block (lower matched_text)
                                   (processed_blocks processed_data) with
            | Some block_info =>
                [ mkCandidate matched_text (normalize_text matched_text)
                              (pb_bbox block_info) 0.4%float MRegex
                              (Some (p_source p)) (Some match_type) None ]
            | None => []
            end)
         (re_finditer true (p_regex p) subject))
    (_get_regex_patterns field_name field_description).

(** [_deduplicate_candidates]: one candidate per normalized text, the
    first position kept, the higher score winning. *)
Definition _deduplicate_candidates (candidates : list candidate)
  : list candidate :=
  map snd
      (fold_left
         (fun (seen : dict candidate) cand =>
            let key := c_normalized cand in
            match get key seen with
            | None => set key cand seen
            | Some old =>
                if (c_score old <? c_score cand)%float
                then set key cand seen else seen
            end)
         candidates []).

(** [sorted(..., key=score, reverse=True)]: stable, highest score first. *)
Fixpoint insert_by_score (x : candidate) (l : list candidate) : list candidate :=
  match l with
  | [] => [x]
  | y :: t =>
      if (c_score x <? c_score y)%float
      then y :: insert_by_score x t else x :: y :: t
  end.

Fixpoint sort_by_score (l : list candidate) : list candidate :=
  match l with
  | [] => []
  | x :: t => insert_by_score x (sort_by_score t)
  end.

(** The default of the parameter [top_k]. *)
Definition default_top_k : nat := 5.

Section Generator.
Variable E : collaborators.

Definition encode_one (s : str) : M vec :=
  match encode E [s] with
  | None => raise EmbeddingFailure
  | Some [] => raise IndexError
  | Some (v :: _) => ret v
  end.

Definition nth_or_raise {A} (l : list A) (i : nat) : M A :=
  match nth_error l i with
  | Some a => ret a
  | None => raise IndexError
  end.

Definition _semantic_search (processed_data : features)
           (field_name field_description : str) (label_embedding : vec)
           (top_k : nat) : M (list candidate) :=
  let query_text := field_name ++ py " " ++ field_description in
  query_embedding <- encode_one query_text ;;
  match processed_blocks processed_data with
  | [] => ret []
  | _ :: _ =>
      let blocks := processed_blocks processed_data in
      match encode E (map pb_normalized blocks) with
      | None => raise EmbeddingFailure
      | Some block_embeddings =>
          let similarities :=
            cosine_similarities E block_embeddings query_embedding in
          let label_similarities :=
            cosine_similarities E block_embeddings label_embedding in
          let combined_scores :=
            weighted_scores E similarities label_similarities in
          let top_indices := firstn top_k (rev (argsort E combined_scores)) in
          foldM (fun acc idx =>
                   block_info <- nth_or_raise blocks idx ;;
                   score <- nth_or_raise combined_scores idx ;;
                   similarity <- nth_or_raise similarities idx ;;
                   ret (acc ++ [ mkCandidate (text (pb_original block_info))
                                             (pb_normalized block_info)
                                             (pb_bbox block_info) score
                                             MSemantic None None
                                             (Some similarity) ]))
                top_indices []
      end
  end.

Definition label_embedding_of (label : str) : M vec :=
  cache <- get_cache ;;
  match get label cache with
  | Some v => ret v
  | None =>
      v <- encode_one label ;;
      put_cache label v ;;;
      ret v
  end.

Definition generate_candidates (processed_data : features) (label : str)
           (extraction_schema : dict str) (top_k : nat)
  : M (dict (list candidate)) :=
  label_embedding <- label_embedding_of label ;;
  foldM (fun candidates (item : str * str) =>
           let (field_name, field_description) := item in
           let regex_candidates :=
             _regex_candidates processed_data field_name field_description in
           semantic_candidates <-
             _semantic_search processed_data field_name field_description
                              label_embedding top_k ;;
           let field_candidates := regex_candidates ++ semantic_candidates in
           let field_candidates := _deduplicate_candidates field_candidates in
           let field_candidates := sort_by_score field_candidates in
           ret (set field_name (firstn top_k field_candidates) candidates))
        extraction_schema [].

End Generator.
End CandidateGenerator.

(* ================================================================== *)
(** * text_extractor.py and extractor.py *)
(* ================================================================== *)

Module PDFExtractor.
Import Py Dict Preprocessor.
Local Open Scope monad_scope.

Section Extractor.
Variable E : collaborators.

(** [TextExtractor.extract] with [use_pymupdf = True]: the second parser
    is tried when the first raises; when both raise, the call raises. *)
Definition text_extractor_extract (pdf_bytes : list N) : M (list TextBlock) :=
  match _extract_pymupdf E pdf_bytes with
  | Some blocks => ret blocks
  | None =>
      match _extract_pdfplumber E pdf_bytes with
      | Some blocks => ret blocks
      | None => raise ParsingFailure
      end
  end.

(** Step 4 of [extract]: the best candidate of every field. *)
Definition score_fields (extraction_schema : dict str)
           (candidates : dict (list candidate))
  : M DecisionEngine.field_results :=
  foldM (fun (acc : DecisionEngine.field_results)
             (item : str * list candidate) =>
           let (field_name, field_candidates) := item in
           match get field_name extraction_schema with
           | None => raise (KeyError field_name)
           | Some description =>
               ret (set field_name
                        (ScorerValidator.select_best_candidate
                           field_candidates field_name description)
                        acc)
           end)
        candidates [].

(** Steps 2 to 4 of [extract]: from the parsed text blocks to the field
    results. *)
Definition field_results_of (label : str) (extraction_schema : dict str)
           (text_blocks : list TextBlock) : M DecisionEngine.field_results :=
  let processed_data := extract_features (create_block_hash E) text_blocks in
  candidates <- CandidateGenerator.generate_candidates
                  E processed_data label extraction_schema
                  CandidateGenerator.default_top_k ;;
  score_fields extraction_schema candidates.

(** Steps 2 to 5 of [extract]; [processed_data['full_text']] is the join
    of the block texts. *)
Definition extract_blocks (label : str) (extraction_schema : dict str)
           (text_blocks : list TextBlock) : M (dict json) :=
  let document_full_text := join (py " ") (map text text_blocks) in
  field_results <- field_results_of label extraction_schema text_blocks ;;
  DecisionEngine.process_extraction (service E) field_results label
                                    extraction_schema document_full_text.

Definition extract (label : str) (extraction_schema : dict str)
           (pdf_bytes : list N) : M (dict json) :=
  text_blocks <- text_extractor_extract pdf_bytes ;;
  extract_blocks label extraction_schema text_blocks.

End Extractor.
End PDFExtractor.

(* ================================================================== *)
(** * Auxiliary definitions and sample data of the statements *)
(* ================================================================== *)

Import Py Re Dict.

(** The loop body of [ensure_fields]. *)
Definition fill_missing (results : dict json) (field_name : str) : dict json :=
  if mem field_name results then results
  else set field_name (JStr (py "")) results.

(** A field is settled in a loop state when it has a final value or is
    pending. *)
Definition settled (st : DecisionEngine.loop_state) (k : str) : Prop :=
  mem k (DecisionEngine.final_values st) = true
  \/ In k (DecisionEngine.pending_fields st).

(** The excerpt of the document sent to the reasoning service. *)
Definition text_snippet (document_full_text : str) : str :=
  if Nat.ltb 3000 (List.length document_full_text)
  then slice_to 3000 document_full_text else document_full_text.

(** A semantic candidate with a given raw similarity. *)
Definition semantic_sample (similarity : option float) : candidate :=
  mkCandidate (py "fatura 2024") (py "fatura 2024") (mkBBox 0 0 1 1)
              0.3%float MSemantic None None similarity.

(** Field results whose keys are all fields of the schema, as a test. *)
Definition keyed_by (extraction_schema : dict str)
           (results : DecisionEngine.field_results) : bool :=
  forallb (fun k => mem k extraction_schema) (keys results).

(** A candidate of the semantic source and its scored copy. *)
Definition sample_candidate (s : string) : candidate :=
  mkCandidate (py s) (Preprocessor.normalize_text (py s)) (mkBBox 0 0 1 1)
              0.3%float MSemantic None None (Some 0.3%float).

Definition sample_scored (s : string) (score : float) : scored_candidate :=
  mkScored (sample_candidate s) score.

(** A schema of three fields and results in which two are absent. *)
Definition sample_schema : dict str :=
  [ (py "cpf", py "número do CPF");
    (py "cidade", py "cidade do destinatário");
    (py "uf", py "estado") ].

Definition sample_results : DecisionEngine.field_results :=
  [ (py "cpf", Some (sample_scored "123.456.789-09" 0.5%float));
    (py "cidade", None);
    (py "uf", None) ].

(** A reasoning service that always fails, and one that answers
    [null] for the field [cidade]. *)
Definition failing_service : llm_request -> llm_outcome :=
  fun _ => ServiceError.

Definition null_service : llm_request -> llm_outcome :=
  fun _ => Reply [(py "cidade", JNull)].

(** Stub collaborators for the closed examples: the first parser returns
    [blocks], the second raises; every text is embedded to the same
    vector and every similarity is 0.3; the reasoning service is given. *)
Definition sample_collaborators (blocks : list TextBlock)
           (svc : llm_request -> llm_outcome) : collaborators :=
  mkCollaborators (fun _ => Some blocks) (fun _ => None) (fun _ => [])
                  (fun l => Some (map (fun _ => [1%float]) l))
                  (fun bs _ => map (fun _ => 0.3%float) bs)
                  (fun a _ => a)
                  (fun l => List.seq 0 (List.length l))
                  svc.

(** Collaborators whose parsers both raise, and collaborators whose
    embedding model raises. *)
Definition unparsable (svc : llm_request -> llm_outcome) : collaborators :=
  mkCollaborators (fun _ => None) (fun _ => None) (fun _ => [])
                  (fun l => Some (map (fun _ => [1%float]) l))
                  (fun bs _ => map (fun _ => 0.3%float) bs)
                  (fun a _ => a)
                  (fun l => List.seq 0 (List.length l))
                  svc.

Definition no_embeddings (blocks : list TextBlock)
           (svc : llm_request -> llm_outcome) : collaborators :=
  mkCollaborators (fun _ => Some blocks) (fun _ => None) (fun _ => [])
                  (fun _ => None)
                  (fun bs _ => map (fun _ => 0.3%float) bs)
                  (fun a _ => a)
                  (fun l => List.seq 0 (List.length l))
                  svc.

(** A computation is quiet when it makes no request to the reasoning
    service and leaves the flag of the decision engine alone. *)
Definition quiet {A} (x : M A) : Prop :=
  forall w, llm_calls (snd (x w)) = llm_calls w
            /\ used_llm_last_call (snd (x w)) = used_llm_last_call w.

(** The document of the end-to-end scenario. *)
Definition cpf_document : list TextBlock :=
  [ mkTextBlock (py "CPF: 123.456.789-09") (mkBBox 72 100 200 112) None None ].

(** The embedding model answers every single text. *)
Definition embeds_all (E : collaborators) : Prop :=
  forall s, exists v rest, encode E [s] = Some (v :: rest).

(** All the values of a dictionary satisfy [P]. *)
Definition all_values {V} (P : V -> Prop) (d : dict V) : Prop :=
  Forall (fun kv => P (snd kv)) d.

(** A block of height 10 with the given text, left, top and right. *)
Definition sample_block (s : string) (left top right : float) : TextBlock :=
  mkTextBlock (py s) (mkBBox left top right (top + 10)%float) None None.

Definition sample_page : list TextBlock :=
  [ sample_block "c" 200 100 210; sample_block "a" 10 100 50;
    sample_block "b" 55 105 80; sample_block "d" 10 300 20 ].

(** A computation is stateless when it leaves the whole [world] as it
    found it, whether it returns or raises. *)
Definition stateless {A} (x : M A) : Prop := forall w, snd (x w) = w.

(** A candidate of the semantic source built from a processed block of
    [pd]. *)
Definition semantic_candidate_of (pd : Preprocessor.features)
           (cand : candidate) : Prop :=
  c_method cand = MSemantic
  /\ c_pattern cand = None
  /\ c_match_type cand = None
  /\ (exists similarity, c_similarity cand = Some similarity)
  /\ exists block,
       In block (Preprocessor.processed_blocks pd)
       /\ c_text cand = text (Preprocessor.pb_original block)
       /\ c_normalized cand = Preprocessor.pb_normalized block
       /\ c_bbox cand = Preprocessor.pb_bbox block.

(** Text within U+0000..U+00FF, on which the character tables are those
    of CPython. *)
Definition latin1 (s : str) : Prop := Forall (fun c => (c <= 255)%N) s.

(** The characters that [normalize_text] leaves: a lower-case word
    character, the space, or one of [. - / ( )]. *)
Definition normalized_char (c : char) : bool :=
  (isword c && (lower_char c =? c)%N)
  || (c =? 32)%N || (c =? 46)%N || (c =? 45)%N || (c =? 47)%N
  || (c =? 40)%N || (c =? 41)%N.

(** The test of [group_blocks]: [block] continues the group that ends
    with [last_block]. *)
Definition continues (max_distance : float) (last_block block : TextBlock)
  : bool :=
  (abs (y0 (bbox block) - y0 (bbox last_block)) <? max_distance)%float
  && (x0 (bbox block) - x1 (bbox last_block) <? max_distance * 2)%float.

(** [next] does not continue [group]. *)
Definition breaks_before (max_distance : float) (group next : list TextBlock)
  : Prop :=
  forall b, hd_error next = Some b ->
            continues max_distance (last group b) b = false.


(** A field name with none of the markers that [_normalize_value] looks
    for. *)
Definition unmarked_field (field_name : str) : bool :=
  negb (existsb (fun marker => contains (py marker) (lower field_name))
                ["cpf"; "cnpj"; "data"; "date"; "data_nascimento";
                 "nascimento"; "cep"; "estado"; "uf"; "state"]%string).

(** A binary64 value other than NaN: it is equal to itself. *)
Definition is_number (x : float) : bool := PrimFloat.eqb x x.

(** [a] is listed before [b] in descending order of score. *)
Definition not_below (a b : candidate) : Prop :=
  (c_score b <=? c_score a)%float = true.

(** A field name with none of the markers that [_deterministic_accept]
    looks for. *)
Definition override_free (field_name : str) : bool :=
  negb (existsb (fun marker => contains (py marker) (lower field_name))
                ["cpf"; "data"; "date"; "cep"; "estado"; "uf"; "state";
                 "endereco"; "endereço"; "address"]%string).

(** [needs ch r]: every match of [r] consumes the pattern character [ch];
    a sufficient test on the syntax of [r]. *)
Fixpoint needs (ch : char) (r : regex) : bool :=
  match r with
  | RChar c => (c =? ch)%N
  | RSeq r1 r2 => needs ch r1 || needs ch r2
  | RAlt r1 r2 => needs ch r1 && needs ch r2
  | RRep _ lo _ r1 => negb (Nat.eqb lo 0) && needs ch r1
  | RGroup _ r1 => needs ch r1
  | _ => false
  end.

(** No character of [s] is matched by the pattern character [ch]. *)
Definition lacks (ic : bool) (ch : char) (s : str) : Prop :=
  forall x, In x s -> char_matches ic ch x = false.

(** The pending fields in the words of the specification: a field is
    pending when its result is absent, or when its best candidate has a
    low score and its text fails the deterministic override.  A low score
    is one that reaches neither [T_HIGH] (the High band) nor [T_LOW] (the
    Medium band, which is accepted). *)
Definition spec_pending (item : str * option scored_candidate) : bool :=
  match snd item with
  | None => true
  | Some cr =>
      negb (T_HIGH <=? final_score cr)%float
      && negb (T_LOW <=? final_score cr)%float
      && negb (DecisionEngine._deterministic_accept
                 (fst item) (c_text (sc_candidate cr)))
  end.

(** A pending field has a description in the schema. *)
Definition described (extraction_schema : dict str)
           (item : str * option scored_candidate) : bool :=
  implb (spec_pending item) (mem (fst item) extraction_schema).

(** The document, the candidates and the best candidate of the field
    [telefone] in the sample of a telephone number. *)
Definition phone_document : list TextBlock :=
  [ mkTextBlock (py "Tel: (11) 91234-5678") (mkBBox 72 100 300 112)
                None None ].

Definition phone_candidates : list candidate :=
  CandidateGenerator._regex_candidates
    (Preprocessor.extract_features (fun _ => []) phone_document)
    (py "telefone") (py "telefone de contato").

Definition phone_best : scored_candidate :=
  match ScorerValidator.select_best_candidate
          phone_candidates (py "telefone") (py "telefone de contato") with
  | Some best => best
  | None => sample_scored "" 0%float
  end.

(** The two blocks of a line whose gap is 40 after rounding: 40.3 - 0.3
    is 40.0 in binary64. *)
Definition rounded_gap_page : list TextBlock :=
  [ mkTextBlock (py "a") (mkBBox 0 0 0.3 10) None None;
    mkTextBlock (py "b") (mkBBox 40.3 0 50 10) None None ].

(** Reading order on the sort key (top, left) = [(bbox[1], bbox[0])]:
    [a] is higher on the page than [b], or at the same height and not to
    its right. *)
Definition reading_order (a b : TextBlock) : Prop :=
  (y0 (bbox a) <? y0 (bbox b))%float = true
  \/ ((y0 (bbox a) =? y0 (bbox b))%float = true
      /\ (x0 (bbox a) <=? x0 (bbox b))%float = true).

(** [b] has the top and left of [a]. *)
Definition same_place (a b : TextBlock) : bool :=
  (y0 (bbox b) =? y0 (bbox a))%float && (x0 (bbox b) =? x0 (bbox a))%float.

(** The top and left of a block are numbers: no NaN, on which neither
    the order of the keys nor the result of [sorted] is defined. *)
Definition placed (b : TextBlock) : Prop :=
  is_number (y0 (bbox b)) = true /\ is_number (x0 (bbox b)) = true.

(** A candidate of the semantic source for the block of the telephone
    sample, with similarity and combined score 0.9. *)
Definition phone_semantic : candidate :=
  mkCandidate (py "Tel: (11) 91234-5678")
              (Preprocessor.normalize_text (py "Tel: (11) 91234-5678"))
              (mkBBox 72 100 300 112) 0.9%float MSemantic None None
              (Some 0.9%float).


(* ================================================================== *)
(** * Properties *)
(* ================================================================== *)

(** ** Floats: the two thresholds *)

(** On the specification of binary64: below a positive finite value
    [lo] means not at or above [lo], nor at or above any [hi >= lo] of the
    same exponent. *)
Lemma SF_below_chain (lo hi : positive) (e0 : Z) (x : spec_float) :
  (lo <= hi)%positive ->
  SFltb x (S754_finite false lo e0) = true ->
  SFleb (S754_finite false lo e0) x = false
  /\ SFleb (S754_finite false hi e0) x = false.
Proof.
  intros Hle. unfold SFltb, SFleb.
  destruct x as [sg | sg | | sg mant e]; unfold SFcompare.
  - destruct sg; intros; try discriminate; split; reflexivity.
  - destruct sg; intros; try discriminate; split; reflexivity.
  - discriminate.
  - destruct sg; [intros _; split; reflexivity|].
    rewrite (Z.compare_antisym e e0).
    destruct (e ?= e0)%Z; cbn [CompOpp];
      [ | intros _; split; reflexivity | discriminate ].
    change (PosDef.Pos.compare_cont Eq) with Pos.compare.
    rewrite (Pos.compare_antisym mant lo), (Pos.compare_antisym mant hi).
    destruct (Pos.compare_spec mant lo) as [E|L|G]; try discriminate.
    intros _.
    destruct (Pos.compare_spec mant hi) as [E|L'|G];
      cbn [CompOpp]; [exfalso | split; reflexivity | exfalso]; lia.
Qed.

(** A score strictly below [T_LOW] fails both threshold tests of
    [process_extraction]. *)
Lemma below_T_LOW (s : float) :
  (s <? T_LOW)%float = true ->
  (T_LOW <=? s)%float = false /\ (T_HIGH <=? s)%float = false.
Proof.
  rewrite ltb_spec, !leb_spec.
  replace (Prim2SF T_LOW) with (S754_finite false 5404319552844595 (-53))
    by (vm_compute; reflexivity).
  replace (Prim2SF T_HIGH) with (S754_finite false 7656119366529843 (-53))
    by (vm_compute; reflexivity).
  apply SF_below_chain. vm_compute. discriminate.
Qed.

(** ** Text normalization *)

(** C4. [normalize_text] is not idempotent: on ["a @ b"] the special
    character is removed after the whitespace runs were collapsed, which
    leaves a run of two spaces that a second pass collapses. *)
Theorem normalize_text_second_pass_differs :
  Preprocessor.normalize_text (py "a @ b") = py "a  b"
  /\ Preprocessor.normalize_text (Preprocessor.normalize_text (py "a @ b"))
     = py "a b"
  /\ Preprocessor.normalize_text (Preprocessor.normalize_text (py "a @ b"))
     <> Preprocessor.normalize_text (py "a @ b").
Proof.
  repeat split; try (vm_compute; reflexivity).
  vm_compute. discriminate.
Qed.

(** The same ordering leaves a leading space when the text starts with a
    special character. *)
Example normalize_text_leading_space :
  Preprocessor.normalize_text (py "# a") = py " a"
  /\ Preprocessor.normalize_text (py " a") = py "a".
Proof. split; vm_compute; reflexivity. Qed.

(** On a sample in mixed case the result does not depend on the case. *)
Example normalize_text_upper_sample :
  Preprocessor.normalize_text (upper (py "Rua das Flores, 12 - SP"))
  = Preprocessor.normalize_text (py "Rua das Flores, 12 - SP").
Proof. vm_compute; reflexivity. Qed.

(** Upper-casing is not always undone by lower-casing: the sharp s
    becomes two letters. *)
Example normalize_text_sharp_s :
  upper (py "ß") = py "SS"
  /\ Preprocessor.normalize_text (upper (py "ß")) = py "ss"
  /\ Preprocessor.normalize_text (py "ß") = py "ß".
Proof. repeat split; vm_compute; reflexivity. Qed.

(** ** The semantic sub-score *)

(** Without a similarity the sub-score is 0. *)
Lemma semantic_component_not_computed (cand : candidate) :
  c_similarity cand = None ->
  ScorerValidator.semantic_component cand = 0%float.
Proof.
  intro H. unfold ScorerValidator.semantic_component. rewrite H.
  reflexivity.
Qed.

(** A similarity that is not positive is used as it is. *)
Lemma semantic_component_not_rescaled (cand : candidate) (s : float) :
  c_similarity cand = Some s ->
  (0 <? s)%float = false ->
  ScorerValidator.semantic_component cand = s.
Proof.
  intros H Hs. unfold ScorerValidator.semantic_component. rewrite H, Hs.
  reflexivity.
Qed.

(** C5. For the raw similarity -0.5 the semantic sub-score is -0.5, the
    raw value, where the rescaling gives 0.25; for 0.5 it is the rescaled
    0.75. *)
Theorem semantic_component_negative_similarity :
  ScorerValidator.semantic_component (semantic_sample (Some (-0.5)%float))
  = (-0.5)%float
  /\ ((-0.5 + 1) / 2 = 0.25)%float
  /\ ScorerValidator.semantic_component (semantic_sample (Some (-0.5)%float))
     <> ((-0.5 + 1) / 2)%float
  /\ ScorerValidator.semantic_component (semantic_sample (Some 0.5%float))
     = ((0.5 + 1) / 2)%float
  /\ ScorerValidator.semantic_component (semantic_sample None) = 0%float.
Proof.
  repeat split; try (vm_compute; reflexivity).
  intro H.
  apply (f_equal (fun x => PrimFloat.eqb x 0.25%float)) in H.
  vm_compute in H. discriminate.
Qed.

(** ** National-ID fields *)

(** C6. With the field [cpf] and the text ["12345678901²"] (eleven
    decimal digits and a superscript two): removing what [\d] does not
    match leaves eleven digits and the value-shape score is 1.0, while
    [str.isdigit] keeps the superscript, so that the accepted value is
    returned unformatted. *)
Theorem cpf_superscript_digit_not_formatted :
  let text := py "12345678901²" in
  re_sub false (RSet true [CsDigit]) [] text = py "12345678901"
  /\ ScorerValidator._validate_value text (py "cpf") (py "número do CPF")
     = 1.0%float
  /\ filter_isdigit text = text
  /\ DecisionEngine._normalize_value text (py "cpf") = text
  /\ DecisionEngine._normalize_value text (py "cpf")
     <> py "123.456.789-01".
Proof.
  repeat split; try (vm_compute; reflexivity).
  vm_compute. discriminate.
Qed.

(** On plain digits the same field is scored 1.0 and formatted. *)
Example cpf_plain_digits :
  ScorerValidator._validate_value (py "12345678901") (py "cpf") (py "")
  = 1.0%float
  /\ DecisionEngine._normalize_value (py "12345678901") (py "cpf")
     = py "123.456.789-01"
  /\ DecisionEngine._normalize_value (py "CPF: 123.456.789-09") (py "CPF")
     = py "123.456.789-09".
Proof. repeat split; vm_compute; reflexivity. Qed.

(** ** Postal codes *)

(** When the field name has the postal-code marker, a value that is
    neither an eleven- nor a fourteen-digit number nor a date is
    normalized by the postal-code branch. *)
Lemma normalize_value_cep (value field_name out : str) :
  contains (py "cep") (lower field_name) = true ->
  Nat.eqb (List.length (filter_isdigit (join (py " ") (split value)))) 11
  = false ->
  Nat.eqb (List.length (filter_isdigit (join (py " ") (split value)))) 14
  = false ->
  DecisionEngine.normalize_date (join (py " ") (split value)) = None ->
  DecisionEngine.normalize_cep (join (py " ") (split value)) = Some out ->
  DecisionEngine._normalize_value value field_name = out.
Proof.
  intros Hcep H11 H14 Hdate Hc.
  unfold DecisionEngine._normalize_value.
  rewrite H11, H14, Hdate, Hc, Hcep, !andb_false_r.
  destruct (_ || _); reflexivity.
Qed.

(** C7. For every field name carrying the postal-code marker, both
    ["01310-100"] and ["01310100"] normalize to ["01310-100"]. *)
Theorem cep_round_trip (field_name : str) :
  contains (py "cep") (lower field_name) = true ->
  DecisionEngine._normalize_value (py "01310-100") field_name = py "01310-100"
  /\ DecisionEngine._normalize_value (py "01310100") field_name
     = py "01310-100".
Proof.
  intro H; split; apply normalize_value_cep; auto; vm_compute; reflexivity.
Qed.

Lemma cep_round_trip_witness :
  DecisionEngine._normalize_value (py "01310-100") (py "CEP do cliente")
  = py "01310-100"
  /\ DecisionEngine._normalize_value (py "01310100") (py "CEP do cliente")
     = py "01310-100".
Proof. apply (cep_round_trip (py "CEP do cliente")). vm_compute. reflexivity. Defined.

(** ** Dictionaries *)

Lemma str_eqb_eq (a b : str) : str_eqb a b = true <-> a = b.
Proof.
  unfold str_eqb. destruct (list_eq_dec N.eq_dec a b); split; intros;
    congruence.
Qed.

Lemma str_eqb_refl (a : str) : str_eqb a a = true.
Proof. apply str_eqb_eq. reflexivity. Qed.

Lemma str_eqb_neq (a b : str) : a <> b -> str_eqb a b = false.
Proof.
  intro H. destruct (str_eqb a b) eqn:E; [|reflexivity].
  apply str_eqb_eq in E. contradiction.
Qed.

Section DictFacts.
Variable V : Type.
Implicit Types (d e : dict V) (k : str) (v : V).

Lemma get_set_eq k v d : get k (set k v d) = Some v.
Proof.
  induction d as [|[k' v'] t IH]; simpl.
  - rewrite str_eqb_refl. reflexivity.
  - destruct (str_eqb k k') eqn:E; simpl; rewrite E; auto.
Qed.

Lemma get_set_neq k k' v d : k <> k' -> get k' (set k v d) = get k' d.
Proof.
  intro Hne. induction d as [|[k0 v0] t IH]; simpl.
  - rewrite str_eqb_neq; auto.
  - destruct (str_eqb k k0) eqn:E; simpl.
    + apply str_eqb_eq in E. subst k0.
      rewrite str_eqb_neq; auto.
    + rewrite IH. reflexivity.
Qed.

Lemma get_set k k' v d :
  get k' (set k v d) = if str_eqb k k' then Some v else get k' d.
Proof.
  destruct (str_eqb k k') eqn:E.
  - apply str_eqb_eq in E. subst. apply get_set_eq.
  - apply get_set_neq. intro; subst. rewrite str_eqb_refl in E. discriminate.
Qed.

Lemma mem_set k k' v d :
  mem k' (set k v d) = str_eqb k k' || mem k' d.
Proof.
  unfold mem. rewrite get_set. destruct (str_eqb k k'); reflexivity.
Qed.

Lemma mem_keys k d : mem k d = true <-> In k (keys d).
Proof.
  unfold mem, keys. induction d as [|[k' v'] t IH]; simpl.
  - split; [discriminate | tauto].
  - destruct (str_eqb k k') eqn:E.
    + apply str_eqb_eq in E. subst. simpl. tauto.
    + rewrite IH. split; [tauto|].
      intros [H|H]; [|exact H]. subst. rewrite str_eqb_refl in E.
      discriminate.
Qed.

Lemma get_none_not_mem k d : get k d = None <-> mem k d = false.
Proof. unfold mem. destruct (get k d); simpl; split; congruence. Qed.

(** [update]: the keys of [e] take their (last) value in [e], the other
    keys keep theirs. *)
Lemma get_update_not_in k d e :
  mem k e = false -> get k (update d e) = get k d.
Proof.
  unfold update. revert d.
  induction e as [|[k' v'] t IH]; intros d H; simpl in *.
  - reflexivity.
  - unfold mem in H. simpl in H.
    destruct (str_eqb k k') eqn:E; [discriminate|].
    rewrite IH by exact H. apply get_set_neq.
    intro; subst. rewrite str_eqb_refl in E. discriminate.
Qed.

Lemma mem_update k d e :
  mem k (update d e) = mem k d || mem k e.
Proof.
  unfold update. revert d.
  induction e as [|[k' v'] t IH]; intros d; simpl.
  - unfold mem at 3. simpl. rewrite orb_false_r. reflexivity.
  - rewrite IH, mem_set. unfold mem at 4. simpl.
    destruct (str_eqb k' k) eqn:E.
    + apply str_eqb_eq in E. subst. rewrite str_eqb_refl. simpl.
      rewrite orb_true_r. reflexivity.
    + destruct (str_eqb k k') eqn:E'.
      * apply str_eqb_eq in E'. subst. rewrite str_eqb_refl in E.
        discriminate.
      * simpl. reflexivity.
Qed.

End DictFacts.

Section UpdateFacts.
Variable V : Type.
Implicit Types (d e : dict V) (k : str) (v : V).

Lemma keys_set k v d :
  keys (set k v d) = if mem k d then keys d else keys d ++ [k].
Proof.
  unfold mem, keys. induction d as [|[k' v'] t IH]; simpl.
  - reflexivity.
  - destruct (str_eqb k k') eqn:E; simpl.
    + reflexivity.
    + rewrite IH. destruct (get k t); reflexivity.
Qed.

Lemma NoDup_keys_set k v d : NoDup (keys d) -> NoDup (keys (set k v d)).
Proof.
  intro H. rewrite keys_set. destruct (mem k d) eqn:E; [exact H|].
  apply NoDup_app; [exact H | repeat constructor; simpl; tauto |].
  intros x Hx [Hk|[]]. subst x.
  apply mem_keys in Hx. congruence.
Qed.

(** On a dictionary without repeated keys, [update] gives each key of
    [e] its value in [e]. *)
Lemma get_update k d e :
  NoDup (keys e) ->
  get k (update d e)
  = match get k e with Some v => Some v | None => get k d end.
Proof.
  unfold update. revert d.
  induction e as [|[k' v'] t IH]; intros d Hnd; simpl.
  - reflexivity.
  - inversion Hnd as [|? ? Hk Hnd']; subst.
    rewrite IH by exact Hnd'.
    destruct (str_eqb k k') eqn:E.
    + apply str_eqb_eq in E. subst k'.
      assert (Hg : get k t = None).
      { apply get_none_not_mem. destruct (mem k t) eqn:Em; [|reflexivity].
        apply mem_keys in Em. contradiction. }
      rewrite Hg. apply get_set_eq.
    + destruct (get k t); [reflexivity|].
      apply get_set_neq. intro; subst. rewrite str_eqb_refl in E.
      discriminate.
Qed.

End UpdateFacts.

Lemma NoDup_empty_values fields : NoDup (keys (LLMClient.empty_values fields)).
Proof.
  unfold LLMClient.empty_values.
  assert (H : forall ks (acc : dict json),
             NoDup (keys acc) ->
             NoDup (keys (fold_left (fun d f => set f (JStr (py "")) d)
                                    ks acc))).
  { induction ks as [|f t IH]; intros acc Ha; simpl; [exact Ha|].
    apply IH, NoDup_keys_set, Ha. }
  apply H. constructor.
Qed.

Lemma NoDup_ensure_fields fields results :
  NoDup (keys results) ->
  NoDup (keys (LLMClient.ensure_fields fields results)).
Proof.
  unfold LLMClient.ensure_fields. generalize (keys fields) as ks.
  intros ks. revert results.
  induction ks as [|f t IH]; intros results Hr; simpl; [exact Hr|].
  apply IH. destruct (mem f results); [exact Hr|].
  apply NoDup_keys_set, Hr.
Qed.

(** ** The reasoning-service client *)

Section ClientFacts.
Variable service : llm_request -> llm_outcome.

Lemma fill_missing_get results field_name k :
  get k (fill_missing results field_name)
  = match get k results with
    | Some v => Some v
    | None => if str_eqb field_name k then Some (JStr (py "")) else None
    end.
Proof.
  unfold fill_missing, mem.
  destruct (get field_name results) eqn:E; simpl.
  - destruct (get k results) eqn:E'; [reflexivity|].
    destruct (str_eqb field_name k) eqn:Ek; [|reflexivity].
    apply str_eqb_eq in Ek. subst. congruence.
  - rewrite get_set. destruct (str_eqb field_name k) eqn:Ek.
    + apply str_eqb_eq in Ek. subst. rewrite E. reflexivity.
    + destruct (get k results); reflexivity.
Qed.

Lemma ensure_get_gen (ks : list str) (results : dict json) (k : str) :
  get k (fold_left fill_missing ks results)
  = match get k results with
    | Some v => Some v
    | None => if existsb (fun f => str_eqb f k) ks
              then Some (JStr (py "")) else None
    end.
Proof.
  revert results. induction ks as [|f t IH]; intro results; simpl.
  - destruct (get k results); reflexivity.
  - rewrite IH, fill_missing_get.
    destruct (get k results); [reflexivity|].
    destruct (str_eqb f k); simpl; [|reflexivity].
    destruct (existsb _ t); reflexivity.
Qed.

Lemma existsb_keys_mem {V} (fields : dict V) (k : str) :
  existsb (fun f => str_eqb f k) (keys fields) = mem k fields.
Proof.
  unfold mem, keys. induction fields as [|[k' v'] t IH]; simpl.
  - reflexivity.
  - destruct (str_eqb k k') eqn:E.
    + apply str_eqb_eq in E. subst. rewrite str_eqb_refl. reflexivity.
    + destruct (str_eqb k' k) eqn:E'.
      * apply str_eqb_eq in E'. subst. rewrite str_eqb_refl in E.
        discriminate.
      * exact IH.
Qed.

(** After the loop "Ensure all fields are present" a key of the reply
    keeps its value, and a requested key that the reply lacks holds the
    empty string. *)
Lemma ensure_fields_get (fields : dict str) (results : dict json) (k : str) :
  get k (LLMClient.ensure_fields fields results)
  = match get k results with
    | Some v => Some v
    | None => if mem k fields then Some (JStr (py "")) else None
    end.
Proof.
  unfold LLMClient.ensure_fields.
  change (fun results0 field_name =>
            if mem field_name results0 then results0
            else set field_name (JStr (py "")) results0) with fill_missing.
  rewrite ensure_get_gen, existsb_keys_mem. reflexivity.
Qed.

Lemma empty_values_get_gen (ks : list str) (acc : dict json) (k : str) :
  get k (fold_left (fun d f => set f (JStr (py "")) d) ks acc)
  = if existsb (fun f => str_eqb f k) ks then Some (JStr (py ""))
    else get k acc.
Proof.
  revert acc. induction ks as [|f t IH]; intro acc; simpl.
  - reflexivity.
  - rewrite IH, get_set.
    destruct (existsb _ t); simpl; [rewrite orb_true_r; reflexivity|].
    rewrite orb_false_r. reflexivity.
Qed.

(** The dictionary of the [except] branch holds the empty string for the
    requested keys and nothing else. *)
Lemma empty_values_get (fields : dict str) (k : str) :
  get k (LLMClient.empty_values fields)
  = if mem k fields then Some (JStr (py "")) else None.
Proof.
  unfold LLMClient.empty_values.
  rewrite empty_values_get_gen, existsb_keys_mem. reflexivity.
Qed.

(** [extract_fields] never raises, makes exactly one request, and answers
    every requested field. *)
Lemma extract_fields_spec label fields doc ctx w :
  let rq := mkRequest label fields doc ctx in
  exists d,
    LLMClient.extract_fields service label fields doc ctx w
    = (inr d, mkWorld (llm_calls w ++ [rq]) (used_llm_last_call w)
                      (label_cache w))
    /\ (forall k, mem k fields = true -> mem k d = true)
    /\ match service rq with
       | ServiceError =>
           NoDup (keys d)
           /\ forall k, get k d
                        = if mem k fields then Some (JStr (py "")) else None
       | Reply results =>
           (NoDup (keys results) -> NoDup (keys d))
           /\ forall k, get k d
                        = match get k results with
                          | Some v => Some v
                          | None => if mem k fields then Some (JStr (py ""))
                                    else None
                          end
       end.
Proof.
  intro rq. unfold LLMClient.extract_fields, bind, record_call, ret.
  fold rq. destruct (service rq) as [|results] eqn:Es.
  - exists (LLMClient.empty_values fields). split; [reflexivity|]. split.
    + intros k Hk. unfold mem. rewrite empty_values_get.
      fold (mem k fields). rewrite Hk. reflexivity.
    + split; [apply NoDup_empty_values|]. intro k. apply empty_values_get.
  - exists (LLMClient.ensure_fields fields results).
    split; [reflexivity|]. split.
    + intros k Hk. unfold mem at 1. rewrite ensure_fields_get.
      destruct (get k results); [reflexivity|]. rewrite Hk. reflexivity.
    + split; [apply NoDup_ensure_fields|]. intro k. apply ensure_fields_get.
Qed.

End ClientFacts.

(** ** The decision engine *)

Section EngineFacts.
Import DecisionEngine.
Variable service : llm_request -> llm_outcome.
Variable extraction_schema : dict str.

(** An iteration either accepts its field with some value or defers it. *)
Lemma process_field_cases st k o :
  (exists v, process_field extraction_schema st (k, o) = accept st k v)
  \/ process_field extraction_schema st (k, o) = defer st k.
Proof.
  unfold process_field. simpl. destruct o as [cr|]; [|right; reflexivity].
  destruct (T_HIGH <=? final_score cr)%float; [left; eexists; reflexivity|].
  destruct (T_LOW <=? final_score cr)%float; [left; eexists; reflexivity|].
  destruct (_deterministic_accept k _); [left; eexists|right]; reflexivity.
Qed.

Lemma settled_step st item k :
  settled st k -> settled (process_field extraction_schema st item) k.
Proof.
  destruct item as [k' o]. unfold settled.
  destruct (process_field_cases st k' o) as [[v ->] | ->]; simpl;
    intros [H|H].
  - left. rewrite mem_set, H. apply orb_true_r.
  - right. exact H.
  - left. exact H.
  - right. apply in_or_app. left. exact H.
Qed.

Lemma settled_own st k o :
  settled (process_field extraction_schema st (k, o)) k.
Proof.
  unfold settled.
  destruct (process_field_cases st k o) as [[v ->] | ->]; simpl.
  - left. rewrite mem_set, str_eqb_refl. reflexivity.
  - right. apply in_or_app. right. left. reflexivity.
Qed.

Lemma settled_fold results st k :
  settled st k ->
  settled (fold_left (process_field extraction_schema) results st) k.
Proof.
  revert st. induction results as [|item t IH]; intros st H; simpl.
  - exact H.
  - apply IH, settled_step, H.
Qed.

(** Every field of the results is settled by the loop. *)
Lemma process_fields_settles results st k :
  In k (keys results) ->
  settled (fold_left (process_field extraction_schema) results st) k.
Proof.
  revert st. induction results as [|[k' o] t IH]; intros st H; simpl in *.
  - contradiction.
  - destruct H as [H|H].
    + subst. apply settled_fold, settled_own.
    + apply IH, H.
Qed.

(** The pending fields come from the results. *)
Lemma pending_from_results results st k :
  In k (pending_fields
          (fold_left (process_field extraction_schema) results st)) ->
  In k (pending_fields st) \/ In k (keys results).
Proof.
  revert st. induction results as [|[k' o] t IH]; intros st H; simpl in *.
  - left. exact H.
  - apply IH in H. destruct H as [H|H]; [|right; right; exact H].
    destruct (process_field_cases st k' o) as [[v E] | E];
      rewrite E in H; simpl in H.
    + left. exact H.
    + apply in_app_or in H. destruct H as [H|[H|[]]].
      * left. exact H.
      * right. left. exact H.
Qed.

(** The final values come from the results too. *)
Lemma final_values_from_results results st k :
  mem k (final_values
           (fold_left (process_field extraction_schema) results st)) = true ->
  mem k (final_values st) = true \/ In k (keys results).
Proof.
  revert st. induction results as [|[k' o] t IH]; intros st H; simpl in *.
  - left. exact H.
  - apply IH in H. destruct H as [H|H]; [|right; right; exact H].
    destruct (process_field_cases st k' o) as [[v E] | E];
      rewrite E in H; simpl in H.
    + rewrite mem_set in H. apply orb_true_iff in H.
      destruct H as [H|H].
      * apply str_eqb_eq in H. right. left. exact H.
      * left. exact H.
    + left. exact H.
Qed.

(** The dictionary comprehension of [_call_llm] succeeds when the
    pending fields are fields of the schema, and then has them all. *)
Lemma pending_schema_of_ok pending acc :
  (forall k, In k pending -> mem k extraction_schema = true) ->
  exists ps,
    pending_schema_of extraction_schema pending acc = inr ps
    /\ forall k, mem k ps = mem k acc || existsb (fun f => str_eqb f k) pending.
Proof.
  revert acc. induction pending as [|f t IH]; intros acc H; simpl.
  - exists acc. split; [reflexivity|]. intro k. rewrite orb_false_r.
    reflexivity.
  - assert (Hf : mem f extraction_schema = true) by (apply H; left; reflexivity).
    unfold mem in Hf. destruct (get f extraction_schema) as [description|];
      [|discriminate].
    destruct (IH (set f description acc)) as [ps [E Hps]].
    { intros k Hk. apply H. right. exact Hk. }
    exists ps. split; [exact E|]. intro k. rewrite Hps, mem_set.
    destruct (str_eqb f k), (mem k acc); reflexivity.
Qed.

(** The first pending field that the schema lacks makes it raise. *)
Lemma pending_schema_of_raises pending acc :
  (exists k, In k pending /\ mem k extraction_schema = false) ->
  exists k, pending_schema_of extraction_schema pending acc = inl (KeyError k).
Proof.
  revert acc. induction pending as [|f t IH]; intros acc [k [Hin Hk]].
  - contradiction.
  - simpl. destruct (get f extraction_schema) as [description|] eqn:E.
    + apply IH. exists k. split; [|exact Hk].
      destruct Hin as [->|Hin]; [|exact Hin].
      unfold mem in Hk. rewrite E in Hk. discriminate.
    + exists f. reflexivity.
Qed.

End EngineFacts.

Section ExtractionFacts.
Import DecisionEngine.
Variable service : llm_request -> llm_outcome.

(** What [process_extraction] does when the results are keyed by fields
    of the schema: without pending fields it returns the accepted values
    and asks nothing; otherwise it sends one request for all the pending
    fields and merges the answer. *)
Lemma process_extraction_spec results label extraction_schema text w :
  (forall k, In k (keys results) -> mem k extraction_schema = true) ->
  let st := process_fields extraction_schema results in
  match pending_fields st with
  | [] =>
      process_extraction service results label extraction_schema text w
      = (inr (final_values st), mkWorld (llm_calls w) false (label_cache w))
  | _ :: _ =>
      exists ps d,
        let rq := mkRequest label ps (text_snippet text) (final_values st) in
        process_extraction service results label extraction_schema text w
        = (inr (update (final_values st) d),
           mkWorld (llm_calls w ++ [rq]) true (label_cache w))
        /\ pending_schema_of extraction_schema (pending_fields st) []
           = inr ps
        /\ (forall k, mem k ps
                      = existsb (fun f => str_eqb f k) (pending_fields st))
        /\ (forall k, mem k ps = true -> mem k d = true)
        /\ match service rq with
           | ServiceError =>
               NoDup (keys d)
               /\ forall k, get k d
                            = if mem k ps then Some (JStr (py "")) else None
           | Reply reply =>
               (NoDup (keys reply) -> NoDup (keys d))
               /\ forall k, get k d
                            = match get k reply with
                              | Some v => Some v
                              | None => if mem k ps then Some (JStr (py ""))
                                        else None
                              end
           end
  end.
Proof.
  intros Hkeys st. unfold process_extraction. fold st.
  destruct (pending_fields st) as [|p0 pt] eqn:Ep.
  - reflexivity.
  - destruct (pending_schema_of_ok extraction_schema (p0 :: pt) [])
      as [ps [Eps Hps]].
    { intros k Hk. apply Hkeys.
      assert (H : In k (pending_fields st)) by (rewrite Ep; exact Hk).
      unfold st, process_fields in H.
      apply pending_from_results in H. destruct H as [[]|H]. exact H. }
    set (w0 := mkWorld (llm_calls w) false (label_cache w)).
    destruct (extract_fields_spec service label ps (text_snippet text)
                                  (final_values st) w0) as [d [Ed [Hd Hs]]].
    exists ps, d. cbv zeta. split; [|split; [|split; [|split]]].
    + unfold bind, set_flag, _call_llm, lift, ret. fold w0.
      rewrite Eps. unfold bind. fold (text_snippet text).
      rewrite Ed. simpl. reflexivity.
    + exact Eps.
    + intro k. rewrite Hps. reflexivity.
    + exact Hd.
    + exact Hs.
Qed.

End ExtractionFacts.

(** ** The fallback is called at most once *)

Lemma keyed_by_spec extraction_schema results :
  keyed_by extraction_schema results = true ->
  forall k, In k (keys results) -> mem k extraction_schema = true.
Proof.
  unfold keyed_by. intros H k Hk.
  rewrite forallb_forall in H. apply H, Hk.
Qed.

(** The requests recorded by one call of [process_extraction]. *)
Lemma process_extraction_calls
      (service : llm_request -> llm_outcome)
      (results : DecisionEngine.field_results) (label : str)
      (extraction_schema : dict str) (text : str) (w : world) :
  (forall k, In k (keys results) -> mem k extraction_schema = true) ->
  let st := DecisionEngine.process_fields extraction_schema results in
  let w' := snd (DecisionEngine.process_extraction
                   service results label extraction_schema text w) in
  exists new_calls,
    llm_calls w' = llm_calls w ++ new_calls
    /\ List.length new_calls
       = match DecisionEngine.pending_fields st with [] => 0 | _ :: _ => 1 end
    /\ used_llm_last_call w'
       = match DecisionEngine.pending_fields st with
         | [] => false
         | _ :: _ => true
         end.
Proof.
  intros Hkeys st w'.
  pose proof (@process_extraction_spec service results label
                extraction_schema text w Hkeys) as H.
  cbv zeta in H. fold st in H. unfold w'.
  destruct (DecisionEngine.pending_fields st) as [|p0 pt].
  - rewrite H. exists []. simpl. rewrite app_nil_r. auto.
  - destruct H as [ps [d [E _]]]. rewrite E. simpl.
    eexists. split; [reflexivity|]. split; reflexivity.
Qed.

(** ** Failure of the reasoning service *)

(** [process_extraction] returns a mapping, whatever the service does,
    when the results are keyed by fields of the schema. *)
Lemma process_extraction_returns service results label extraction_schema
      text w :
  (forall k, In k (keys results) -> mem k extraction_schema = true) ->
  exists out,
    fst (DecisionEngine.process_extraction service results label
                                           extraction_schema text w)
    = inr out.
Proof.
  intro Hkeys.
  pose proof (@process_extraction_spec service results label
                extraction_schema text w Hkeys) as H.
  cbv zeta in H.
  destruct (DecisionEngine.pending_fields _) as [|p0 pt].
  - rewrite H. eexists. reflexivity.
  - destruct H as [ps [d [E _]]]. rewrite E. eexists. reflexivity.
Qed.

(** With the failing service, the two absent fields of the sample come
    back empty and the accepted one keeps its value. *)
Example failing_service_sample :
  fst (DecisionEngine.process_extraction
         failing_service sample_results (py "fatura") sample_schema
         (py "sem texto") initial_world)
  = inr [ (py "cpf", JStr (py "123.456.789-09"));
          (py "cidade", JStr (py ""));
          (py "uf", JStr (py "")) ].
Proof. vm_compute. reflexivity. Qed.

(** ** The three tiers *)

Section TierFacts.
Import DecisionEngine.
Variable extraction_schema : dict str.

Lemma process_field_other st k o field :
  k <> field ->
  get field (final_values (process_field extraction_schema st (k, o)))
  = get field (final_values st)
  /\ (In field (pending_fields (process_field extraction_schema st (k, o)))
      <-> In field (pending_fields st)).
Proof.
  intro Hne.
  destruct (process_field_cases extraction_schema st k o) as [[v ->] | ->];
    simpl.
  - split; [apply get_set_neq; exact Hne | tauto].
  - split; [reflexivity|]. rewrite in_app_iff. simpl. intuition congruence.
Qed.

(** The iterations on other fields leave a field as it is. *)
Lemma process_fields_other results st field :
  ~ In field (keys results) ->
  let st' := fold_left (process_field extraction_schema) results st in
  get field (final_values st') = get field (final_values st)
  /\ (In field (pending_fields st') <-> In field (pending_fields st)).
Proof.
  revert st. induction results as [|[k o] t IH]; intros st Hnot; simpl.
  - tauto.
  - simpl in Hnot.
    destruct (IH (process_field extraction_schema st (k, o))) as [E1 E2].
    { tauto. }
    destruct (@process_field_other st k o field) as [F1 F2]; [tauto|].
    simpl in E1, E2. rewrite E1, E2, F1, F2. tauto.
Qed.

(** The iteration on a present candidate below [T_LOW]. *)
Lemma process_field_low st field cr :
  (final_score cr <? T_LOW)%float = true ->
  process_field extraction_schema st (field, Some cr)
  = if _deterministic_accept field (c_text (sc_candidate cr))
    then accept st field
                (_normalize_value (c_text (sc_candidate cr)) field)
    else defer st field.
Proof.
  intro H. apply below_T_LOW in H. destruct H as [H1 H2].
  unfold process_field. simpl. rewrite H1, H2. reflexivity.
Qed.

(** The iteration on a present candidate at or above [T_LOW]: the value
    is accepted and normalized, and the override is not consulted. *)
Lemma process_field_medium_or_high st field cr :
  (T_LOW <=? final_score cr)%float = true ->
  process_field extraction_schema st (field, Some cr)
  = accept st field (_normalize_value (c_text (sc_candidate cr)) field).
Proof.
  intro H. unfold process_field. simpl. rewrite H.
  destruct (T_HIGH <=? final_score cr)%float; reflexivity.
Qed.


End TierFacts.

(** The five kinds of override, each on a value that passes and on one
    that does not. *)
Example override_samples :
  map (fun fv => DecisionEngine._deterministic_accept (py (fst fv))
                                                      (py (snd fv)))
      [ ("cpf", "123.456.789-09"); ("cpf", "123.456.789");
        ("data_emissao", " 1/2/99 "); ("data_emissao", "1 de maio");
        ("cep", "CEP 01310-100"); ("cep", "013101000");
        ("uf", " sp "); ("uf", "xx");
        ("endereço", "Rua das Flores, 12"); ("endereço", "Caixa postal") ]%string
  = [true; false; true; false; true; false; true; false; true; false].
Proof. vm_compute. reflexivity. Qed.




(** Below [T_LOW] the same candidate is pending. *)
Example low_score_without_override :
  DecisionEngine.pending_fields
    (DecisionEngine.process_fields
       sample_schema
       [(py "cidade", Some (sample_scored "Lorem ipsum" 0.5%float))])
  = [py "cidade"].
Proof. vm_compute. reflexivity. Qed.

(** ** Effects of the stages before the decision engine *)

Lemma quiet_ret {A} (a : A) : quiet (ret a).
Proof. intro w. split; reflexivity. Qed.

Lemma quiet_raise {A} (e : exn) : quiet (@raise A e).
Proof. intro w. split; reflexivity. Qed.

Lemma quiet_bind {A B} (x : M A) (f : A -> M B) :
  quiet x -> (forall a, quiet (f a)) -> quiet (bind x f).
Proof.
  intros Hx Hf w. unfold bind. specialize (Hx w).
  destruct (x w) as [[e|a] w1]; simpl in *.
  - exact Hx.
  - destruct (Hf a w1) as [H1 H2]. destruct Hx as [H3 H4].
    rewrite H1, H2. auto.
Qed.

Lemma quiet_foldM {A B} (f : B -> A -> M B) (l : list A) (b : B) :
  (forall b a, quiet (f b a)) -> quiet (foldM f l b).
Proof.
  intro Hf. revert b. induction l as [|a t IH]; intro b; simpl.
  - apply quiet_ret.
  - apply quiet_bind; [apply Hf | intro; apply IH].
Qed.

Lemma quiet_get_cache : quiet get_cache.
Proof. intro w. split; reflexivity. Qed.

Lemma quiet_put_cache k v : quiet (put_cache k v).
Proof. intro w. split; reflexivity. Qed.

Create HintDb quiet.
#[local] Hint Resolve quiet_ret quiet_raise quiet_get_cache quiet_put_cache
  : quiet.

Section StageFacts.
Variable E : collaborators.

Lemma quiet_encode_one s : quiet (CandidateGenerator.encode_one E s).
Proof.
  unfold CandidateGenerator.encode_one.
  destruct (encode E [s]) as [[|v l]|]; auto with quiet.
Qed.

Lemma quiet_nth_or_raise {A} (l : list A) i :
  quiet (CandidateGenerator.nth_or_raise l i).
Proof.
  unfold CandidateGenerator.nth_or_raise.
  destruct (nth_error l i); auto with quiet.
Qed.

Lemma quiet_semantic_search pd fn fd le top_k :
  quiet (CandidateGenerator._semantic_search E pd fn fd le top_k).
Proof.
  unfold CandidateGenerator._semantic_search.
  apply quiet_bind; [apply quiet_encode_one|]. intro q.
  destruct (Preprocessor.processed_blocks pd); [apply quiet_ret|].
  destruct (encode E _); [|apply quiet_raise].
  apply quiet_foldM. intros acc idx.
  repeat (apply quiet_bind; [apply quiet_nth_or_raise | intro]).
  apply quiet_ret.
Qed.

Lemma quiet_label_embedding label :
  quiet (CandidateGenerator.label_embedding_of E label).
Proof.
  unfold CandidateGenerator.label_embedding_of.
  apply quiet_bind; [apply quiet_get_cache|]. intro cache.
  destruct (get label cache); [apply quiet_ret|].
  apply quiet_bind; [apply quiet_encode_one|]. intro v.
  apply quiet_bind; [apply quiet_put_cache|]. intro. apply quiet_ret.
Qed.

Lemma quiet_generate_candidates pd label schema top_k :
  quiet (CandidateGenerator.generate_candidates E pd label schema top_k).
Proof.
  unfold CandidateGenerator.generate_candidates.
  apply quiet_bind; [apply quiet_label_embedding|]. intro le.
  apply quiet_foldM. intros acc [fn fd].
  apply quiet_bind; [apply quiet_semantic_search|]. intro. apply quiet_ret.
Qed.

Lemma quiet_text_extractor pdf_bytes :
  quiet (PDFExtractor.text_extractor_extract E pdf_bytes).
Proof.
  unfold PDFExtractor.text_extractor_extract.
  destruct (_extract_pymupdf E pdf_bytes); [apply quiet_ret|].
  destruct (_extract_pdfplumber E pdf_bytes); auto with quiet.
Qed.

End StageFacts.

(** A fold that stores one entry per item has the keys of its items. *)
Lemma foldM_keys {V X} (f : dict V -> str * X -> M (dict V))
      (l : list (str * X)) :
  (forall acc item w out w',
      f acc item w = (inr out, w') ->
      forall k, mem k out = str_eqb (fst item) k || mem k acc) ->
  forall acc w out w',
    foldM f l acc w = (inr out, w') ->
    forall k, mem k out = mem k acc || mem k l.
Proof.
  intro Hf. induction l as [|item t IH]; intros acc w out w' H k; simpl in H.
  - unfold ret in H. inversion H; subst. unfold mem at 3. simpl.
    rewrite orb_false_r. reflexivity.
  - unfold bind in H. destruct (f acc item w) as [[e|acc1] w1] eqn:E1;
      [discriminate|].
    rewrite (IH _ _ _ _ H k), (Hf _ _ _ _ _ E1 k).
    destruct item as [k0 x]. unfold mem at 4. simpl.
    destruct (str_eqb k0 k) eqn:E0.
    + apply str_eqb_eq in E0. subst. rewrite str_eqb_refl.
      rewrite orb_true_r. reflexivity.
    + destruct (str_eqb k k0) eqn:E0'.
      * apply str_eqb_eq in E0'. subst. rewrite str_eqb_refl in E0.
        discriminate.
      * simpl. fold (mem k t). reflexivity.
Qed.

Section KeyFacts.
Variable E : collaborators.

(** [generate_candidates] has an entry for each field of the schema. *)
Lemma generate_candidates_keys pd label schema top_k w out w' :
  CandidateGenerator.generate_candidates E pd label schema top_k w
  = (inr out, w') ->
  forall k, mem k out = mem k schema.
Proof.
  unfold CandidateGenerator.generate_candidates, bind at 1.
  destruct (CandidateGenerator.label_embedding_of E label w)
    as [[e|le] w1]; [discriminate|].
  intros H k. eapply foldM_keys with (k := k) in H.
  - rewrite H. reflexivity.
  - clear. intros acc [fn fd] w out w' Hstep k. unfold bind in Hstep.
    destruct (CandidateGenerator._semantic_search _ _ _ _ _ _ _)
      as [[e|sc] w1]; [discriminate|].
    unfold ret in Hstep. inversion Hstep; subst. simpl. apply mem_set.
Qed.

(** The scoring loop of [extract] keeps the keys. *)
Lemma score_fields_keys (schema : dict str)
      (candidates : dict (list candidate)) w out w' :
  PDFExtractor.score_fields schema candidates w = (inr out, w') ->
  forall k, mem k out = mem k candidates.
Proof.
  unfold PDFExtractor.score_fields.
  intros H k. eapply foldM_keys with (k := k) in H.
  - rewrite H. reflexivity.
  - clear. intros acc [fn fc] w out w' Hstep k.
    destruct (get fn schema); [|discriminate].
    unfold ret in Hstep. inversion Hstep; subst. simpl. apply mem_set.
Qed.

Lemma quiet_score_fields (schema : dict str)
      (candidates : dict (list candidate)) :
  quiet (PDFExtractor.score_fields schema candidates).
Proof.
  unfold PDFExtractor.score_fields. apply quiet_foldM.
  intros acc [fn fc]. destruct (get fn schema); auto with quiet.
Qed.

(** The field results of [extract] are keyed by the fields of the schema. *)
Lemma field_results_of_keys label schema blocks w out w' :
  PDFExtractor.field_results_of E label schema blocks w = (inr out, w') ->
  forall k, mem k out = mem k schema.
Proof.
  unfold PDFExtractor.field_results_of, bind.
  destruct (CandidateGenerator.generate_candidates _ _ _ _ _ _)
    as [[e|cands] w1] eqn:Eg; [discriminate|].
  intros H k.
  rewrite (score_fields_keys _ _ _ H k).
  apply (generate_candidates_keys _ _ _ _ _ Eg).
Qed.

Lemma quiet_field_results_of label schema blocks :
  quiet (PDFExtractor.field_results_of E label schema blocks).
Proof.
  unfold PDFExtractor.field_results_of.
  apply quiet_bind; [apply quiet_generate_candidates|].
  intro. apply quiet_score_fields.
Qed.

End KeyFacts.

(** ** The outcome of an extraction *)

Section OutcomeFacts.
Import DecisionEngine.
Variable service : llm_request -> llm_outcome.

(** Every field of the results has a key in the outcome. *)
Lemma outcome_covers_results results label extraction_schema text w out w' :
  (forall k, In k (keys results) -> mem k extraction_schema = true) ->
  process_extraction service results label extraction_schema text w
  = (inr out, w') ->
  forall k, In k (keys results) -> mem k out = true.
Proof.
  intros Hkeys Hrun k Hk.
  pose proof (@process_extraction_spec service results label
                extraction_schema text w Hkeys) as H.
  cbv zeta in H.
  pose proof (@process_fields_settles extraction_schema results
                (mkLoop [] []) k Hk) as Hs.
  fold (process_fields extraction_schema results) in Hs.
  unfold settled in Hs. revert H Hs.
  destruct (pending_fields (process_fields extraction_schema results))
    as [|p0 pt] eqn:Ep; intros H Hs.
  - rewrite H in Hrun. inversion Hrun; subst.
    destruct Hs as [Hs|Hs]; [exact Hs | contradiction].
  - destruct H as [ps [d [E [_ [Hps [Hd _]]]]]]. rewrite E in Hrun.
    inversion Hrun; subst. rewrite mem_update.
    destruct Hs as [Hs|Hs]; [rewrite Hs; reflexivity|].
    rewrite Hd; [apply orb_true_r|]. rewrite Hps.
    apply existsb_exists. exists k. split; [exact Hs|apply str_eqb_refl].
Qed.

(** When the service fails, every pending field is mapped to the empty
    string and every accepted field keeps its value. *)
Lemma outcome_on_service_failure results label extraction_schema text w :
  (forall k, In k (keys results) -> mem k extraction_schema = true) ->
  (forall rq, service rq = ServiceError) ->
  let st := process_fields extraction_schema results in
  exists out,
    fst (process_extraction service results label extraction_schema text w)
    = inr out
    /\ forall k,
        get k out
        = if existsb (fun f => str_eqb f k) (pending_fields st)
          then Some (JStr (py "")) else get k (final_values st).
Proof.
  intros Hkeys Hfail st.
  pose proof (@process_extraction_spec service results label
                extraction_schema text w Hkeys) as H.
  cbv zeta in H. fold st in H. revert H.
  destruct (pending_fields st) as [|p0 pt] eqn:Ep; intro H.
  - rewrite H. eexists. split; [reflexivity|]. intro k. reflexivity.
  - destruct H as [ps [d [E [_ [Hps [Hd Hs]]]]]]. rewrite E.
    eexists. split; [reflexivity|]. intro k. simpl fst.
    rewrite Hfail in Hs. destruct Hs as [Hnd Hget].
    rewrite get_update by exact Hnd.
    rewrite Hget, Hps. destruct (existsb _ _); reflexivity.
Qed.

(** When the service answers, a pending field takes the value of the
    reply, or the empty string when the reply lacks it. *)
Lemma outcome_on_reply results label extraction_schema text w k :
  (forall k, In k (keys results) -> mem k extraction_schema = true) ->
  let st := process_fields extraction_schema results in
  In k (pending_fields st) ->
  exists ps,
    pending_schema_of extraction_schema (pending_fields st) [] = inr ps
    /\ forall reply,
        service (mkRequest label ps (text_snippet text) (final_values st))
        = Reply reply ->
        NoDup (keys reply) ->
        exists out,
          fst (process_extraction service results label extraction_schema
                                  text w) = inr out
          /\ get k out
             = match get k reply with
               | Some v => Some v
               | None => Some (JStr (py ""))
               end.
Proof.
  intros Hkeys st Hk.
  pose proof (@process_extraction_spec service results label
                extraction_schema text w Hkeys) as H.
  cbv zeta in H. fold st in H. revert H Hk.
  destruct (pending_fields st) as [|p0 pt] eqn:Ep; intros H Hk;
    [contradiction|].
  destruct H as [ps [d [E [Eps [Hps [Hd Hs]]]]]].
  exists ps. split; [exact Eps|]. intros reply Hr Hnd.
  rewrite E. eexists. split; [reflexivity|].
  rewrite Hr in Hs. destruct Hs as [Hnd' Hget].
  rewrite get_update by (apply Hnd'; exact Hnd).
  rewrite Hget.
  assert (Hm : mem k ps = true).
  { rewrite Hps. apply existsb_exists. exists k.
    split; [exact Hk | apply str_eqb_refl]. }
  rewrite Hm. destruct (get k reply); reflexivity.
Qed.

End OutcomeFacts.

(** ** The whole extraction *)

Section ExtractFacts.
Variable E : collaborators.

(** The requests of one call of [extract]: none when a stage before the
    decision engine raises, and otherwise none or one, as the decision
    engine has no or some pending field. *)
Lemma extract_calls label extraction_schema pdf_bytes w :
  exists new_calls,
    llm_calls (snd (PDFExtractor.extract E label extraction_schema
                                         pdf_bytes w))
    = llm_calls w ++ new_calls
    /\ List.length new_calls <= 1
    /\ match PDFExtractor.text_extractor_extract E pdf_bytes w with
       | (inl _, _) => new_calls = []
       | (inr blocks, w1) =>
           match PDFExtractor.field_results_of E label extraction_schema
                                               blocks w1 with
           | (inl _, _) => new_calls = []
           | (inr fr, _) =>
               List.length new_calls
               = match DecisionEngine.pending_fields
                         (DecisionEngine.process_fields extraction_schema fr)
                 with
                 | [] => 0
                 | _ :: _ => 1
                 end
           end
       end.
Proof.
  unfold PDFExtractor.extract, bind at 1.
  destruct (quiet_text_extractor E pdf_bytes w) as [Hq _].
  destruct (PDFExtractor.text_extractor_extract E pdf_bytes w)
    as [[e|blocks] w1]; simpl in Hq.
  - exists []. simpl. rewrite app_nil_r. auto.
  - unfold PDFExtractor.extract_blocks, bind at 1.
    destruct (quiet_field_results_of E label extraction_schema blocks w1)
      as [Hq1 _].
    destruct (PDFExtractor.field_results_of E label extraction_schema
                                            blocks w1)
      as [[e|fr] w2] eqn:Efr; simpl in Hq1.
    + exists []. simpl. rewrite app_nil_r.
      split; [congruence | auto].
    + destruct (@process_extraction_calls
                  (service E) fr label extraction_schema
                  (join (py " ") (map text blocks)) w2)
        as [calls [H1 [H2 _]]].
      { intros k Hk. apply mem_keys in Hk.
        rewrite <- (field_results_of_keys _ _ _ _ _ Efr k). exact Hk. }
      exists calls. split; [congruence|]. split; [|exact H2].
      rewrite H2. destruct (DecisionEngine.pending_fields _); auto.
Qed.

(** A returned outcome has a key for every field of the schema. *)
Lemma extract_outcome_covers_schema label extraction_schema pdf_bytes w
      out w' :
  PDFExtractor.extract E label extraction_schema pdf_bytes w = (inr out, w') ->
  forall k, mem k extraction_schema = true -> mem k out = true.
Proof.
  unfold PDFExtractor.extract, bind at 1.
  destruct (PDFExtractor.text_extractor_extract E pdf_bytes w)
    as [[e|blocks] w1]; [discriminate|].
  unfold PDFExtractor.extract_blocks, bind at 1.
  destruct (PDFExtractor.field_results_of E label extraction_schema blocks w1)
    as [[e|fr] w2] eqn:Efr; [discriminate|].
  intros H k Hk.
  pose proof (field_results_of_keys _ _ _ _ _ Efr) as Hfr.
  eapply outcome_covers_results; [|exact H|].
  - intros k' Hk'. apply mem_keys in Hk'. rewrite <- Hfr. exact Hk'.
  - apply mem_keys. rewrite Hfr. exact Hk.
Qed.

End ExtractFacts.

(** The sample results have two pending fields and give one request. *)
Example two_pending_fields_one_request :
  let run := DecisionEngine.process_extraction
               failing_service sample_results (py "fatura") sample_schema
               (py "sem texto") initial_world in
  DecisionEngine.pending_fields
    (DecisionEngine.process_fields sample_schema sample_results)
  = [py "cidade"; py "uf"]
  /\ List.length (llm_calls (snd run)) = 1
  /\ used_llm_last_call (snd run) = true.
Proof. repeat split; vm_compute; reflexivity. Qed.

(** C2. With the schema [{"cidade": ...}], a document without fragments
    and a reasoning service that answers [{"cidade": null}], the outcome
    of [extract] maps [cidade] to [null], not to the empty string: the
    loop of [extract_fields] fills in only the keys that the reply
    lacks. *)
Theorem null_answer_reaches_outcome :
  let schema := [(py "cidade", py "cidade do destinatário")] in
  let run := PDFExtractor.extract (sample_collaborators [] null_service)
                                  (py "fatura") schema [] initial_world in
  fst run = inr [(py "cidade", JNull)]
  /\ List.length (llm_calls (snd run)) = 1
  /\ (forall out, fst run = inr out ->
                  get (py "cidade") out <> Some (JStr (py ""))).
Proof.
  repeat split; try (vm_compute; reflexivity).
  intros out H. vm_compute in H. inversion H; subst.
  vm_compute. discriminate.
Qed.

(** The same document with a service that fails, or that leaves the
    field out, gives the empty string. *)
Example unanswered_field_is_empty :
  fst (PDFExtractor.extract (sample_collaborators [] failing_service)
                            (py "fatura")
                            [(py "cidade", py "cidade do destinatário")]
                            [] initial_world)
  = inr [(py "cidade", JStr (py ""))]
  /\ fst (PDFExtractor.extract
            (sample_collaborators [] (fun _ => Reply [(py "uf", JStr (py "SP"))]))
            (py "fatura")
            [(py "cidade", py "cidade do destinatário")]
            [] initial_world)
     = inr [(py "uf", JStr (py "SP")); (py "cidade", JStr (py ""))].
Proof. split; vm_compute; reflexivity. Qed.

(** The end-to-end scenario of the national ID: the value is found by
    the pattern source, scored 0.585, accepted by the override, and the
    reasoning service is not asked. *)
Example cpf_scenario :
  PDFExtractor.extract (sample_collaborators cpf_document failing_service)
                       (py "fatura") [(py "cpf", py "número do CPF")]
                       [] initial_world
  = (inr [(py "cpf", JStr (py "123.456.789-09"))],
     mkWorld [] false [(py "fatura", [1%float])]).
Proof. vm_compute. reflexivity. Qed.

(** ** Fatal and local failures *)

Lemma flat_map_nil {A B} (f : A -> list B) (l : list A) :
  (forall a, f a = []) -> flat_map f l = [].
Proof.
  intro H. induction l as [|a t IH]; simpl; [reflexivity|].
  rewrite H, IH. reflexivity.
Qed.

(** Without processed blocks the pattern source proposes nothing. *)
Lemma regex_candidates_no_blocks pd field_name field_description :
  Preprocessor.processed_blocks pd = [] ->
  CandidateGenerator._regex_candidates pd field_name field_description = [].
Proof.
  intro H. unfold CandidateGenerator._regex_candidates.
  apply flat_map_nil. intros [p match_type].
  apply flat_map_nil. intro mo. rewrite H. reflexivity.
Qed.

Section NoFragments.
Variable E : collaborators.

Hypothesis Hencode : embeds_all E.

Lemma encode_one_ok s w :
  exists v, CandidateGenerator.encode_one E s w = (inr v, w).
Proof.
  unfold CandidateGenerator.encode_one.
  destruct (Hencode s) as [v [rest ->]]. exists v. reflexivity.
Qed.

Lemma label_embedding_ok label w :
  exists v w',
    CandidateGenerator.label_embedding_of E label w = (inr v, w').
Proof.
  unfold CandidateGenerator.label_embedding_of, bind, get_cache.
  destruct (get label (label_cache w)) as [v|].
  - exists v, w. reflexivity.
  - destruct (encode_one_ok label w) as [v ->].
    unfold put_cache, ret. eexists. eexists. reflexivity.
Qed.

Lemma semantic_search_no_blocks pd fn fd le top_k w :
  Preprocessor.processed_blocks pd = [] ->
  CandidateGenerator._semantic_search E pd fn fd le top_k w = (inr [], w).
Proof.
  intro H. unfold CandidateGenerator._semantic_search, bind.
  destruct (encode_one_ok (fn ++ py " " ++ fd) w) as [v ->].
  rewrite H. reflexivity.
Qed.

Lemma all_values_set {V} (P : V -> Prop) k v (d : dict V) :
  P v -> all_values P d -> all_values P (set k v d).
Proof.
  intros Hv. unfold all_values.
  induction d as [|[k' v'] t IH]; intro H; simpl.
  - constructor; [exact Hv | constructor].
  - inversion H; subst. destruct (str_eqb k k').
    + constructor; [exact Hv | assumption].
    + constructor; [assumption | apply IH; assumption].
Qed.

Lemma generate_candidates_no_blocks pd label schema top_k w :
  Preprocessor.processed_blocks pd = [] ->
  exists out w',
    CandidateGenerator.generate_candidates E pd label schema top_k w
    = (inr out, w')
    /\ all_values (fun cands => cands = []) out.
Proof.
  intro Hpd. unfold CandidateGenerator.generate_candidates, bind at 1.
  destruct (label_embedding_ok label w) as [le [w1 ->]].
  assert (H : forall (acc : dict (list candidate)),
             all_values (fun cands => cands = []) acc ->
             exists out,
               foldM (fun candidates (item : str * str) =>
                        let (field_name, field_description) := item in
                        bind (CandidateGenerator._semantic_search
                                E pd field_name field_description le top_k)
                             (fun semantic_candidates =>
                                ret (set field_name
                                         (firstn top_k
                                            (CandidateGenerator.sort_by_score
                                               (CandidateGenerator._deduplicate_candidates
                                                  (CandidateGenerator._regex_candidates
                                                     pd field_name
                                                     field_description
                                                   ++ semantic_candidates))))
                                         candidates)))
                     schema acc w1
               = (inr out, w1)
               /\ all_values (fun cands => cands = []) out).
  { induction schema as [|[fn fd] t IH]; intros acc Hacc; simpl.
    - exists acc. split; [reflexivity | exact Hacc].
    - unfold bind at 1. unfold bind at 1.
      rewrite semantic_search_no_blocks by exact Hpd.
      rewrite regex_candidates_no_blocks by exact Hpd.
      unfold ret at 1. simpl app.
      change (CandidateGenerator._deduplicate_candidates []) with
        (@nil candidate).
      simpl CandidateGenerator.sort_by_score. rewrite firstn_nil.
      apply IH. apply all_values_set; [reflexivity | exact Hacc]. }
  destruct (H [] (Forall_nil _)) as [out [Eo Ho]].
  exists out, w1. split; [exact Eo | exact Ho].
Qed.

End NoFragments.

(** Fields without candidates have no best candidate. *)
Lemma score_fields_no_candidates schema (cands : dict (list candidate)) w :
  Forall (fun kv => mem (fst kv) schema = true) cands ->
  all_values (fun c => c = []) cands ->
  exists fr,
    PDFExtractor.score_fields schema cands w = (inr fr, w)
    /\ all_values (fun r => r = None) fr.
Proof.
  unfold PDFExtractor.score_fields.
  generalize (@nil (str * option scored_candidate)) (Forall_nil
    (fun kv : str * option scored_candidate => snd kv = None)).
  induction cands as [|[k v] t IH]; intros acc Hacc Hk Hv; simpl.
  - exists acc. split; [reflexivity | exact Hacc].
  - inversion Hk as [|? ? Hk1 Hk2]; subst.
    inversion Hv as [|? ? Hv1 Hv2]; subst. simpl in Hk1, Hv1. subst v.
    unfold mem in Hk1. destruct (get k schema) as [description|];
      [|discriminate].
    unfold bind, ret at 1. simpl ScorerValidator.select_best_candidate.
    apply IH; [|exact Hk2|exact Hv2].
    apply (@all_values_set _ (fun r : option scored_candidate => r = None));
      [reflexivity | exact Hacc].
Qed.

(** When every result is absent, every field is pending, in order. *)
Lemma process_fields_all_absent schema results st :
  all_values (fun r => r = None) results ->
  fold_left (DecisionEngine.process_field schema) results st
  = DecisionEngine.mkLoop (DecisionEngine.final_values st)
                          (DecisionEngine.pending_fields st ++ keys results).
Proof.
  revert st. induction results as [|[k o] t IH]; intros st H; simpl.
  - rewrite app_nil_r. destruct st; reflexivity.
  - inversion H as [|? ? Ho Ht]; subst. simpl in Ho. subst o.
    rewrite IH by exact Ht. unfold DecisionEngine.process_field. simpl.
    rewrite <- app_assoc. reflexivity.
Qed.

Section FatalFacts.
Variable E : collaborators.

(** When both parsers raise, the extraction raises and nothing else
    happens. *)
Lemma extract_parsing_failure label schema pdf_bytes w :
  _extract_pymupdf E pdf_bytes = None ->
  _extract_pdfplumber E pdf_bytes = None ->
  PDFExtractor.extract E label schema pdf_bytes w = (inl ParsingFailure, w).
Proof.
  intros H1 H2.
  unfold PDFExtractor.extract, bind, PDFExtractor.text_extractor_extract.
  rewrite H1, H2. reflexivity.
Qed.

(** Without fragments, and with an embedding model that answers, every
    field is absent. *)
Lemma field_results_no_fragments label schema w :
  embeds_all E ->
  exists fr w',
    PDFExtractor.field_results_of E label schema [] w = (inr fr, w')
    /\ all_values (fun r => r = None) fr
    /\ forall k, mem k fr = mem k schema.
Proof.
  intro He. unfold PDFExtractor.field_results_of, bind.
  destruct (@generate_candidates_no_blocks
              E He (Preprocessor.extract_features (create_block_hash E) [])
              label schema CandidateGenerator.default_top_k w eq_refl)
    as [cands [w1 [Eg Hc]]].
  rewrite Eg.
  pose proof (generate_candidates_keys _ _ _ _ _ _ Eg) as Hkeys.
  destruct (@score_fields_no_candidates schema cands w1) as [fr [Es Hfr]].
  - apply Forall_forall. intros [k v] Hin. simpl.
    rewrite <- Hkeys. apply mem_keys. apply (in_map fst) in Hin. exact Hin.
  - exact Hc.
  - exists fr, w1. split; [exact Es|]. split; [exact Hfr|].
    intro k. rewrite (score_fields_keys _ _ _ Es k). apply Hkeys.
Qed.

(** The extraction of a document without fragments returns: every field
    of the schema is pending and gets its value from the one request to
    the reasoning service, which is made when the schema has a field. *)
Lemma extract_no_fragments label schema pdf_bytes w :
  PDFExtractor.text_extractor_extract E pdf_bytes w = (inr [], w) ->
  embeds_all E ->
  exists out w',
    PDFExtractor.extract E label schema pdf_bytes w = (inr out, w')
    /\ (forall k, mem k schema = true -> mem k out = true)
    /\ List.length (llm_calls w')
       = List.length (llm_calls w)
         + match schema with [] => 0 | _ :: _ => 1 end.
Proof.
  intros Hp He.
  destruct (field_results_no_fragments label schema w He)
    as [fr [w1 [Efr [Hnone Hmem]]]].
  assert (Hkeys : forall k, In k (keys fr) -> mem k schema = true).
  { intros k Hk. rewrite <- Hmem. apply mem_keys. exact Hk. }
  destruct (quiet_field_results_of E label schema [] w) as [Hq _].
  rewrite Efr in Hq. simpl in Hq.
  pose proof (@process_extraction_calls
                (service E) fr label schema
                (join (py " ") (map text [])) w1 Hkeys) as Hc.
  cbv zeta in Hc. destruct Hc as [calls [Hc1 [Hc2 _]]].
  unfold DecisionEngine.process_fields in Hc2.
  rewrite process_fields_all_absent in Hc2 by exact Hnone.
  simpl in Hc2.
  destruct (DecisionEngine.process_extraction
              (service E) fr label schema (join (py " ") (map text [])) w1)
    as [[e|out] w2] eqn:Erun.
  - destruct (@process_extraction_returns
                (service E) fr label schema (join (py " ") (map text []))
                w1 Hkeys) as [out Ho].
    rewrite Erun in Ho. discriminate.
  - exists out, w2. split; [|split].
    + unfold PDFExtractor.extract, bind at 1. rewrite Hp.
      unfold PDFExtractor.extract_blocks, bind. rewrite Efr. exact Erun.
    + intros k Hk. eapply outcome_covers_results; [exact Hkeys|exact Erun|].
      apply mem_keys. rewrite Hmem. exact Hk.
    + simpl in Hc1. rewrite Hc1, length_app, Hc2, Hq. f_equal.
      destruct schema as [|[k0 d0] t].
      * destruct fr as [|[k r] fr']; [reflexivity|].
        specialize (Hmem k). unfold mem in Hmem. simpl in Hmem.
        rewrite str_eqb_refl in Hmem. discriminate.
      * destruct fr as [|[k r] fr']; [|reflexivity].
        specialize (Hmem k0). unfold mem in Hmem. simpl in Hmem.
        rewrite str_eqb_refl in Hmem. discriminate.
Qed.

(** A failure of the reasoning service is not a failure of the
    extraction: once the field results are there, the extraction
    returns, whatever the service does. *)
Lemma extract_returns_after_scoring label schema pdf_bytes w blocks w1 fr w2 :
  PDFExtractor.text_extractor_extract E pdf_bytes w = (inr blocks, w1) ->
  PDFExtractor.field_results_of E label schema blocks w1 = (inr fr, w2) ->
  exists out,
    fst (PDFExtractor.extract E label schema pdf_bytes w) = inr out.
Proof.
  intros Hp Hfr.
  unfold PDFExtractor.extract, bind at 1. rewrite Hp.
  unfold PDFExtractor.extract_blocks, bind. rewrite Hfr.
  apply process_extraction_returns.
  intros k Hk. rewrite <- (field_results_of_keys _ _ _ _ _ Hfr k).
  apply mem_keys. exact Hk.
Qed.

(** A failure of the embedding model is a failure of the extraction. *)
Lemma extract_embedding_failure label schema pdf_bytes w blocks :
  PDFExtractor.text_extractor_extract E pdf_bytes w = (inr blocks, w) ->
  (forall texts, encode E texts = None) ->
  get label (label_cache w) = None \/ schema <> [] ->
  PDFExtractor.extract E label schema pdf_bytes w
  = (inl EmbeddingFailure, w).
Proof.
  intros Hp Hnone Hor.
  unfold PDFExtractor.extract, bind at 1. rewrite Hp.
  unfold PDFExtractor.extract_blocks, bind at 1.
  unfold PDFExtractor.field_results_of, bind at 1.
  unfold CandidateGenerator.generate_candidates, bind at 1.
  unfold CandidateGenerator.label_embedding_of, bind at 1, get_cache.
  destruct (get label (label_cache w)) as [v|] eqn:Ec.
  - destruct Hor as [Hor|Hor]; [discriminate|].
    destruct schema as [|[fn fd] t]; [contradiction|].
    unfold ret at 1. simpl foldM. unfold bind at 1. unfold bind at 1.
    unfold CandidateGenerator._semantic_search, bind at 1.
    unfold CandidateGenerator.encode_one. rewrite Hnone.
    reflexivity.
  - unfold bind at 1. unfold CandidateGenerator.encode_one.
    rewrite Hnone. reflexivity.
Qed.

End FatalFacts.

(** C8. One fallback invocation: [extract_fields] makes its request and
    returns a mapping in every case.  When the service call fails the
    mapping holds the empty string for every requested field and nothing
    else; when it succeeds the reply is returned with the empty string
    added for every requested field it lacks.  The enclosing
    [process_extraction] and [extract] return a mapping as well. *)
Theorem fallback_failure_degrades_to_empty
        (E : collaborators) (label : str)
        (fields : dict str) (document_text : str)
        (extracted_context : dict json) (w : world) :
  let rq := mkRequest label fields document_text extracted_context in
  (exists d,
     LLMClient.extract_fields (service E) label fields document_text
                              extracted_context w
     = (inr d, mkWorld (llm_calls w ++ [rq]) (used_llm_last_call w)
                       (label_cache w))
     /\ (forall k, mem k fields = true -> mem k d = true)
     /\ match service E rq with
        | ServiceError =>
            forall k, get k d
                      = if mem k fields then Some (JStr (py "")) else None
        | Reply results =>
            forall k, get k d
                      = match get k results with
                        | Some v => Some v
                        | None => if mem k fields then Some (JStr (py ""))
                                  else None
                        end
        end)
  /\ (forall results extraction_schema text,
        keyed_by extraction_schema results = true ->
        exists out,
          fst (DecisionEngine.process_extraction
                 (service E) results label extraction_schema text w)
          = inr out)
  /\ (forall extraction_schema pdf_bytes blocks w1 fr w2,
        PDFExtractor.text_extractor_extract E pdf_bytes w = (inr blocks, w1) ->
        PDFExtractor.field_results_of E label extraction_schema blocks w1
        = (inr fr, w2) ->
        exists out,
          fst (PDFExtractor.extract E label extraction_schema pdf_bytes w)
          = inr out).
Proof.
  intro rq. split; [|split].
  - destruct (extract_fields_spec (service E) label fields document_text
                                  extracted_context w) as [d [Ed [Hd Hs]]].
    exists d. split; [exact Ed|]. split; [exact Hd|]. fold rq in Hs.
    destruct (service E rq); apply Hs.
  - intros results extraction_schema text H.
    apply process_extraction_returns, keyed_by_spec, H.
  - intros extraction_schema pdf_bytes blocks w1 fr w2.
    apply extract_returns_after_scoring.
Qed.

(** ** Fatal conditions *)

(** C9, as the claim states it, fails on a document without fragments:
    the parser returns the empty list and the extraction returns a
    mapping, every field having gone to the reasoning service (which
    fails here, hence the empty strings).  It also fails on the
    embedding model, whose failure ends the extraction. *)
Lemma empty_fragment_list_does_not_abort :
  PDFExtractor.text_extractor_extract
    (sample_collaborators [] failing_service) [] initial_world
  = (inr [], initial_world)
  /\ fst (PDFExtractor.extract (sample_collaborators [] failing_service)
                               (py "fatura") sample_schema [] initial_world)
     = inr [ (py "cpf", JStr (py "")); (py "cidade", JStr (py ""));
             (py "uf", JStr (py "")) ]
  /\ List.length
       (llm_calls
          (snd (PDFExtractor.extract (sample_collaborators [] failing_service)
                                     (py "fatura") sample_schema []
                                     initial_world)))
     = 1
  /\ fst (PDFExtractor.extract (no_embeddings cpf_document failing_service)
                               (py "fatura") sample_schema [] initial_world)
     = inl EmbeddingFailure.
Proof. repeat split; vm_compute; reflexivity. Qed.

(** C9, as the code has it.  The extraction raises when both parsers
    raise, and when the embedding model raises.  A document without
    fragments is not fatal: with an embedding model that answers, the
    extraction returns a mapping that covers the schema, after one
    request to the reasoning service when the schema has a field.  A
    failure of the reasoning service is never fatal: once the field
    results are computed the extraction returns. *)
Theorem fatal_conditions (E : collaborators) (label : str)
        (schema : dict str) (pdf_bytes : list N) (w : world) :
  (_extract_pymupdf E pdf_bytes = None ->
   _extract_pdfplumber E pdf_bytes = None ->
   PDFExtractor.extract E label schema pdf_bytes w = (inl ParsingFailure, w))
  /\ (forall blocks,
        PDFExtractor.text_extractor_extract E pdf_bytes w = (inr blocks, w) ->
        (forall texts, encode E texts = None) ->
        get label (label_cache w) = None \/ schema <> [] ->
        PDFExtractor.extract E label schema pdf_bytes w
        = (inl EmbeddingFailure, w))
  /\ (PDFExtractor.text_extractor_extract E pdf_bytes w = (inr [], w) ->
      embeds_all E ->
      exists out w',
        PDFExtractor.extract E label schema pdf_bytes w = (inr out, w')
        /\ (forall k, mem k schema = true -> mem k out = true)
        /\ List.length (llm_calls w')
           = List.length (llm_calls w)
             + match schema with [] => 0 | _ :: _ => 1 end)
  /\ (forall blocks w1 fr w2,
        PDFExtractor.text_extractor_extract E pdf_bytes w = (inr blocks, w1) ->
        PDFExtractor.field_results_of E label schema blocks w1
        = (inr fr, w2) ->
        exists out,
          fst (PDFExtractor.extract E label schema pdf_bytes w) = inr out).
Proof.
  split; [|split; [|split]].
  - apply extract_parsing_failure.
  - intros blocks. apply extract_embedding_failure.
  - apply extract_no_fragments.
  - intros blocks w1 fr w2. apply extract_returns_after_scoring.
Qed.

Lemma fatal_conditions_witness :
  PDFExtractor.extract (unparsable failing_service) (py "fatura")
                       sample_schema [] initial_world
  = (inl ParsingFailure, initial_world)
  /\ exists out w',
      PDFExtractor.extract (sample_collaborators [] failing_service)
                           (py "fatura") sample_schema [] initial_world
      = (inr out, w')
      /\ (forall k, mem k sample_schema = true -> mem k out = true)
      /\ List.length (llm_calls w') = List.length (llm_calls initial_world) + 1.
Proof.
  split.
  - apply (proj1 (fatal_conditions (unparsable failing_service) (py "fatura")
                                   sample_schema [] initial_world));
      reflexivity.
  - apply (proj1 (proj2 (proj2
             (fatal_conditions (sample_collaborators [] failing_service)
                               (py "fatura") sample_schema []
                               initial_world)))).
    + reflexivity.
    + intro s. eexists. eexists. reflexivity.
Defined.

(** ** National-ID fields on text with decimal digits only *)

Section CpfFacts.

Lemma between_spec lo hi c :
  between lo hi c = true <-> (lo <= c <= hi)%N.
Proof.
  unfold between. rewrite andb_true_iff, !N.leb_le. tauto.
Qed.

Lemma between_out lo hi c :
  (c < lo \/ hi < c)%N -> between lo hi c = false.
Proof.
  intro H. destruct (between lo hi c) eqn:E; [|reflexivity].
  apply between_spec in E. lia.
Qed.

Lemma eqb_out (c k : N) : c <> k -> (c =? k)%N = false.
Proof. apply N.eqb_neq. Qed.

(** The digit characters, as numbers. *)
Lemma isdigit_spec c :
  isdigit c = true -> (48 <= c <= 57)%N \/ c = 178%N \/ c = 179%N \/ c = 185%N.
Proof.
  unfold isdigit, isdecimal. rewrite !orb_true_iff, between_spec, !N.eqb_eq.
  tauto.
Qed.

Ltac outside :=
  repeat (rewrite between_out by lia); repeat (rewrite eqb_out by lia);
  reflexivity.

Lemma isdigit_not_space' c : isdigit c = true -> isspace c = false.
Proof.
  intro H. apply isdigit_spec in H. unfold isspace.
  destruct H as [H|[H|[H|H]]]; outside.
Qed.

Lemma isdecimal_not_space c : isdecimal c = true -> isspace c = false.
Proof.
  intro H. apply isdigit_not_space'. unfold isdigit. rewrite H. reflexivity.
Qed.

Lemma isdigit_not_space c : isspace c = true -> isdigit c = false.
Proof.
  intro H. destruct (isdigit c) eqn:E; [|reflexivity].
  apply isdigit_not_space' in E. congruence.
Qed.

Lemma isdecimal_lower c : isdecimal c = true -> lower_char c = c.
Proof.
  unfold isdecimal. intro H. apply between_spec in H. unfold lower_char.
  repeat (rewrite between_out by lia). reflexivity.
Qed.

Lemma lstrip_keeps c s : In c s -> isspace c = false -> In c (lstrip s).
Proof.
  intros Hin Hc. induction s as [|x t IH]; simpl; [contradiction|].
  destruct (isspace x) eqn:E.
  - destruct Hin as [->|Hin]; [congruence | apply IH, Hin].
  - exact Hin.
Qed.

Lemma strip_keeps c s : In c s -> isspace c = false -> In c (strip s).
Proof.
  intros Hin Hc. unfold strip, rstrip.
  apply in_rev. rewrite rev_involutive.
  apply lstrip_keeps; [|exact Hc].
  apply in_rev. rewrite rev_involutive.
  apply lstrip_keeps; assumption.
Qed.

(** Splitting on whitespace and joining with a space keeps the
    characters that [p] selects, when [p] rejects whitespace. *)
Lemma filter_join (p : char -> bool) (sep : str) (parts : list str) :
  filter p sep = [] ->
  filter p (join sep parts) = flat_map (filter p) parts.
Proof.
  intro Hsep. induction parts as [|a [|b t] IH]; simpl.
  - reflexivity.
  - rewrite app_nil_r. reflexivity.
  - rewrite !filter_app, Hsep. simpl in IH. rewrite IH. reflexivity.
Qed.

Lemma filter_split_acc (p : char -> bool) (cur s : str) :
  (forall c, isspace c = true -> p c = false) ->
  flat_map (filter p) (split_acc cur s) = filter p (rev cur ++ s).
Proof.
  intro Hp. revert cur. induction s as [|c t IH]; intro cur; simpl.
  - destruct cur as [|x cur']; simpl; [reflexivity|].
    rewrite !app_nil_r. reflexivity.
  - destruct (isspace c) eqn:E.
    + rewrite filter_app. simpl. rewrite (Hp c E).
      destruct cur as [|x cur'].
      * rewrite IH. reflexivity.
      * simpl flat_map. rewrite IH. simpl. reflexivity.
    + rewrite IH. simpl. rewrite <- app_assoc. reflexivity.
Qed.

Lemma filter_isdigit_join_split (s : str) :
  filter_isdigit (join (py " ") (split s)) = filter_isdigit s.
Proof.
  unfold filter_isdigit, split.
  rewrite filter_join by reflexivity.
  rewrite filter_split_acc by apply isdigit_not_space.
  reflexivity.
Qed.

Lemma match_at_set ic neg items st :
  match_at ic (RSet neg items) st
  = match rest st with
    | x :: _ =>
        if set_matches ic neg items x
        then Some (Match (pos st) (S (pos st)) [])
        else None
    | [] => None
    end.
Proof.
  unfold match_at. cbn [m rest]. destruct (rest st) as [|x t]; [reflexivity|].
  destruct (set_matches ic neg items x); reflexivity.
Qed.

(** [re.sub] of a one-character class by nothing is a filter. *)
Lemma sub_from_set ic neg items n st :
  List.length (rest st) < n ->
  sub_from ic (RSet neg items) [] n st
  = filter (fun x => negb (set_matches ic neg items x)) (rest st).
Proof.
  revert st. induction n as [|n IH]; intros st Hn; [lia|].
  cbn [sub_from]. rewrite match_at_set.
  destruct (rest st) as [|x t] eqn:Er; [reflexivity|].
  cbn [filter List.length] in *.
  destruct (set_matches ic neg items x) eqn:E; cbn [negb m_start m_end].
  - replace (Nat.ltb (pos st) (S (pos st))) with true
      by (symmetry; apply Nat.ltb_lt; lia).
    replace (S (pos st) - pos st) with 1 by lia.
    cbn [skip_to]. rewrite Er. cbn [skip_to app].
    rewrite IH by (cbn [advance rest]; lia). reflexivity.
  - rewrite IH by (cbn [advance rest]; lia). reflexivity.
Qed.

Lemma non_digits_removed (s : str) :
  re_sub false (RSet true [CsDigit]) [] s = filter isdecimal s.
Proof.
  unfold re_sub. rewrite sub_from_set by (simpl; lia). simpl.
  apply filter_ext. intro x. unfold set_matches. simpl.
  rewrite orb_false_r. destruct (isdecimal x); reflexivity.
Qed.

(** The canonical punctuated form of eleven characters. *)
Lemma format_cpf_shape (digits : str) :
  List.length digits = 11 ->
  exists a b c d,
    digits = a ++ b ++ c ++ d
    /\ List.length a = 3 /\ List.length b = 3
    /\ List.length c = 3 /\ List.length d = 2
    /\ DecisionEngine.format_cpf digits
       = a ++ py "." ++ b ++ py "." ++ c ++ py "-" ++ d.
Proof.
  intro H.
  do 11 (destruct digits as [|? digits]; [discriminate|]).
  destruct digits; [|discriminate].
  eexists [_; _; _], [_; _; _], [_; _; _], [_; _].
  repeat split; reflexivity.
Qed.

(** On a field with the national-ID marker, a text with exactly eleven
    decimal digits and no other digit character has a value-shape score
    of 1.0, passes the override, and is formatted from its digits. *)
Lemma cpf_decimal_digits (field_name text field_description : str) :
  contains (py "cpf") (lower field_name) = true ->
  List.length (filter isdecimal text) = 11 ->
  (forall c, In c text -> isdigit c = isdecimal c) ->
  ScorerValidator._validate_value text field_name field_description
  = 1.0%float
  /\ DecisionEngine._deterministic_accept field_name text = true
  /\ DecisionEngine._normalize_value text field_name
     = DecisionEngine.format_cpf (filter isdecimal text).
Proof.
  intros Hcpf Hlen Hdig.
  assert (Hfd : filter_isdigit text = filter isdecimal text).
  { unfold filter_isdigit. apply filter_ext_in. exact Hdig. }
  split; [|split].
  - unfold ScorerValidator._validate_value.
    destruct (strip (lower text)) as [|x t] eqn:Es.
    + exfalso.
      destruct (filter isdecimal text) as [|c0 r] eqn:Ef; [discriminate|].
      assert (Hc : In c0 (filter isdecimal text)) by (rewrite Ef; left; reflexivity).
      apply filter_In in Hc. destruct Hc as [Hin Hc].
      assert (Hl : In c0 (lower text)).
      { unfold lower. rewrite <- (isdecimal_lower c0 Hc).
        apply in_map. exact Hin. }
      apply strip_keeps in Hl; [|apply isdecimal_not_space, Hc].
      rewrite Es in Hl. contradiction.
    + rewrite Hcpf, non_digits_removed, Hlen. reflexivity.
  - unfold DecisionEngine._deterministic_accept.
    rewrite Hcpf, Hfd, Hlen. reflexivity.
  - unfold DecisionEngine._normalize_value.
    rewrite Hcpf, filter_isdigit_join_split, Hfd, Hlen. reflexivity.
Qed.

End CpfFacts.

(* ================================================================== *)
(** * Further properties of the code *)
(* ================================================================== *)

(** ** Order of binary64 values *)

Section FloatOrder.

Ltac sf_cases :=
  repeat match goal with
         | x : spec_float |- _ => destruct x
         | b : bool |- _ => destruct b
         end;
  cbn [SFcompare]; try discriminate; try reflexivity.

Ltac lex_cases :=
  change (PosDef.Pos.compare_cont Eq) with Pos.compare;
  repeat match goal with
         | |- context [Z.compare ?a ?b] => destruct (Z.compare_spec a b)
         | |- context [Pos.compare ?a ?b] => destruct (Pos.compare_spec a b)
         end;
  cbn [CompOpp]; intros; subst; try discriminate; try reflexivity;
  try (exfalso; lia).

Lemma SFcompare_Lt_trans (x y z : spec_float) :
  SFcompare x y = Some Lt -> SFcompare y z = Some Lt ->
  SFcompare x z = Some Lt.
Proof. sf_cases; lex_cases. Qed.

Lemma SFcompare_Lt_asym (x y : spec_float) :
  SFcompare x y = Some Lt -> SFcompare y x = Some Gt.
Proof. sf_cases; lex_cases. Qed.

End FloatOrder.

Lemma ltb_Lt (x y : float) :
  (x <? y)%float = true <-> SFcompare (Prim2SF x) (Prim2SF y) = Some Lt.
Proof.
  rewrite ltb_spec. unfold SFltb.
  destruct (SFcompare _ _) as [[]|]; split; congruence.
Qed.

Lemma ltb_trans (x y z : float) :
  (x <? y)%float = true -> (y <? z)%float = true -> (x <? z)%float = true.
Proof. rewrite !ltb_Lt. apply SFcompare_Lt_trans. Qed.

Lemma ltb_asym (x y : float) :
  (x <? y)%float = true -> (y <? x)%float = false.
Proof.
  rewrite ltb_Lt. intro H. apply SFcompare_Lt_asym in H.
  rewrite ltb_spec. unfold SFltb. rewrite H. reflexivity.
Qed.

Lemma ltb_leb (x y : float) :
  (x <? y)%float = true -> (x <=? y)%float = true.
Proof.
  rewrite ltb_Lt, leb_spec. unfold SFleb. intros ->. reflexivity.
Qed.

Lemma SFcompare_Lt_le_trans (x y z : spec_float) :
  SFcompare x y = Some Lt -> SFleb y z = true -> SFcompare x z = Some Lt.
Proof.
  unfold SFleb.
  destruct x as [[]|[]| |[] ? ?], y as [[]|[]| |[] ? ?],
           z as [[]|[]| |[] ? ?];
    cbn [SFcompare]; try discriminate; try reflexivity;
    change (PosDef.Pos.compare_cont Eq) with Pos.compare;
    repeat match goal with
           | |- context [Z.compare ?a ?b] => destruct (Z.compare_spec a b)
           | |- context [Pos.compare ?a ?b] => destruct (Pos.compare_spec a b)
           end;
    cbn [CompOpp]; intros; subst; try discriminate; try reflexivity;
    try (exfalso; lia).
Qed.

Lemma ltb_leb_trans (x y z : float) :
  (x <? y)%float = true -> (y <=? z)%float = true -> (x <? z)%float = true.
Proof. rewrite !ltb_Lt, leb_spec. apply SFcompare_Lt_le_trans. Qed.

Lemma ltb_not_leb (x y : float) :
  (x <? y)%float = true -> (y <=? x)%float = false.
Proof.
  rewrite ltb_Lt. intro H. apply SFcompare_Lt_asym in H.
  rewrite leb_spec. unfold SFleb. rewrite H. reflexivity.
Qed.

(** ** The scorer *)

(** Clipping gives a value between 0 and 1, also on a NaN. *)
Lemma clip_unit (t : float) :
  let r := ScorerValidator.py_min 1.0%float
             (ScorerValidator.py_max 0.0%float t) in
  (0 <=? r)%float = true /\ (r <=? 1)%float = true.
Proof.
  unfold ScorerValidator.py_min, ScorerValidator.py_max. cbv zeta.
  destruct (0 <? t)%float eqn:E0.
  - destruct (t <? 1)%float eqn:E1.
    + split; apply ltb_leb; assumption.
    + split; reflexivity.
  - split; reflexivity.
Qed.

Lemma score_candidate_bounds
        (cand : candidate) (field_name field_description : str)
        (all_candidates : list candidate) :
  let s := ScorerValidator.score_candidate cand field_name field_description
                                           all_candidates in
  (0 <=? s)%float = true /\ (s <=? 1)%float = true.
Proof.
  unfold ScorerValidator.score_candidate. cbv zeta.
  apply (clip_unit
           (ScorerValidator.py_sum
              (map (fun sw => (snd sw * fst sw)%float)
                   (ScorerValidator.score_terms
                      cand field_name field_description all_candidates)))).
Qed.

(** X1. The combined score of a candidate lies between 0 and 1, whatever
    the generation score and the similarity are (a NaN total gives 0). *)
Theorem score_candidate_in_unit_interval
        (cand : candidate) (field_name field_description : str)
        (all_candidates : list candidate) :
  let s := ScorerValidator.score_candidate cand field_name field_description
                                           all_candidates in
  (0 <=? s)%float = true /\ (s <=? 1)%float = true.
Proof.
  exact (score_candidate_bounds cand field_name field_description
                                all_candidates).
Qed.

(** The values of the pattern, positional and value-shape sub-scores. *)
Lemma regex_validation_values cand field_name field_description :
  let v := ScorerValidator._regex_validation cand field_name
                                             field_description in
  v = 1.0%float
  \/ (c_method cand = MRegex /\ v = 0.8%float)
  \/ (c_method cand = MSemantic /\ v = 0.5%float).
Proof.
  unfold ScorerValidator._regex_validation. cbv zeta.
  destruct (existsb _ _); [left; reflexivity|].
  destruct (c_method cand); [right; left | right; right]; auto.
Qed.

Lemma positional_values cand all_candidates :
  ScorerValidator._positional_score cand all_candidates = 0.7%float
  \/ ScorerValidator._positional_score cand all_candidates = 0.5%float.
Proof.
  unfold ScorerValidator._positional_score.
  destruct all_candidates as [|first t]; [right; reflexivity|].
  destruct (candidate_eqb cand first); [left | right]; reflexivity.
Qed.

Lemma validate_value_values text field_name field_description :
  let v := ScorerValidator._validate_value text field_name
                                           field_description in
  (strip (lower text) = [] /\ v = 0.0%float)
  \/ (strip (lower text) <> []
      /\ (v = 0.3%float \/ v = 0.6%float \/ v = 0.9%float \/ v = 1.0%float)).
Proof.
  unfold ScorerValidator._validate_value. cbv zeta.
  destruct (strip (lower text)) as [|x t]; [left; auto|].
  right. split; [discriminate|].
  repeat match goal with
         | |- context [if ?b then _ else _] => destruct b
         end; tauto.
Qed.

(** A candidate of the pattern source scores below the lower threshold:
    at most 0.2 * 0.4 + 0.25 + 0.15 * 0.7 + 0.15. *)
Lemma pattern_candidate_score text normalized bbox pattern match_type
      (field_name field_description : str) (all_candidates : list candidate) :
  (ScorerValidator.score_candidate
     (mkCandidate text normalized bbox 0.4%float MRegex pattern match_type None)
     field_name field_description all_candidates <? T_LOW)%float = true.
Proof.
  set (cand := mkCandidate text normalized bbox 0.4%float MRegex pattern
                           match_type None).
  unfold ScorerValidator.score_candidate, ScorerValidator.score_terms.
  change (ScorerValidator.semantic_component cand) with 0.0%float.
  change (c_score cand) with 0.4%float.
  change (c_text cand) with text.
  destruct (regex_validation_values cand field_name field_description)
    as [Hr | [[_ Hr] | [Hm _]]]; [| | discriminate Hm];
    cbv zeta in Hr; rewrite Hr;
    (destruct (positional_values cand all_candidates) as [Hp | Hp];
     rewrite Hp);
    (destruct (validate_value_values text field_name field_description)
       as [[_ Hv] | [_ [Hv | [Hv | [Hv | Hv]]]]];
     cbv zeta in Hv; rewrite Hv);
    vm_compute; reflexivity.
Qed.

(** The first maximal element: no earlier element scores at least as much,
    no later element scores more. *)
Lemma max_by_score_first_maximal (l : list scored_candidate)
      (best : scored_candidate) (pre0 mid0 : list scored_candidate) :
  (forall p, In p pre0 -> (final_score best <=? final_score p)%float = false) ->
  (forall q, In q mid0 -> (final_score best <? final_score q)%float = false) ->
  exists pre post,
    pre0 ++ best :: mid0 ++ l
    = pre ++ ScorerValidator.max_by_score best l :: post
    /\ (forall p, In p pre ->
          (final_score (ScorerValidator.max_by_score best l)
             <=? final_score p)%float = false)
    /\ (forall q, In q post ->
          (final_score (ScorerValidator.max_by_score best l)
             <? final_score q)%float = false).
Proof.
  revert best pre0 mid0.
  induction l as [|x t IH]; intros best pre0 mid0 Hpre Hmid.
  - exists pre0, mid0. rewrite app_nil_r. auto.
  - cbn [ScorerValidator.max_by_score].
    destruct (final_score best <? final_score x)%float eqn:E.
    + destruct (IH x (pre0 ++ best :: mid0) []) as (pre & post & Heq & H1 & H2).
      * intros p Hp.
        destruct (final_score x <=? final_score p)%float eqn:Exp; [|reflexivity].
        pose proof (@ltb_leb_trans _ _ _ E Exp) as Hlt.
        apply in_app_or in Hp. destruct Hp as [Hp | [<- | Hp]].
        -- apply ltb_leb in Hlt. rewrite (Hpre p Hp) in Hlt. discriminate.
        -- rewrite (@ltb_not_leb _ _ E) in Exp. discriminate.
        -- rewrite (Hmid p Hp) in Hlt. discriminate.
      * intros q [].
      * exists pre, post. split; [|auto].
        rewrite <- Heq. cbn [app]. rewrite <- !app_assoc. reflexivity.
    + destruct (IH best pre0 (mid0 ++ [x])) as (pre & post & Heq & H1 & H2).
      * exact Hpre.
      * intros q Hq. apply in_app_or in Hq. destruct Hq as [Hq | [<- | []]].
        -- auto.
        -- exact E.
      * exists pre, post. split; [|auto].
        rewrite <- Heq. rewrite <- !app_assoc. reflexivity.
Qed.

Lemma map_eq_split {A B} (f : A -> B) (l : list A) (pre : list B) (y : B)
      (post : list B) :
  map f l = pre ++ y :: post ->
  exists l1 x l2, l = l1 ++ x :: l2 /\ map f l1 = pre /\ f x = y
                  /\ map f l2 = post.
Proof.
  revert l. induction pre as [|b pre IH]; intros [|a l] H; try discriminate.
  - injection H as H1 H2. exists [], a, l. auto.
  - injection H as H1 H2. destruct (IH l H2) as (l1 & x & l2 & -> & E1 & E2 & E3).
    exists (a :: l1), x, l2. cbn. rewrite E1, H1. auto.
Qed.

(** The best candidate is the first maximal one. *)
Lemma select_best_spec
      (candidates : list candidate) (field_name field_description : str) :
  let score c :=
    ScorerValidator.score_candidate c field_name field_description candidates in
  match ScorerValidator.select_best_candidate
          candidates field_name field_description with
  | None => candidates = []
  | Some best =>
      final_score best = score (sc_candidate best)
      /\ exists pre post,
           candidates = pre ++ sc_candidate best :: post
           /\ (forall p, In p pre ->
                 (final_score best <=? score p)%float = false)
           /\ (forall q, In q post ->
                 (final_score best <? score q)%float = false)
  end.
Proof.
  cbv zeta. unfold ScorerValidator.select_best_candidate.
  destruct candidates as [|c0 cs]; [reflexivity|].
  set (cands := c0 :: cs).
  set (f := fun cand =>
              mkScored cand
                (ScorerValidator.score_candidate cand field_name
                   field_description cands)).
  change (map f cands) with (f c0 :: map f cs).
  destruct (@max_by_score_first_maximal (map f cs) (f c0) [] [])
    as (pre & post & Heq & H1 & H2); [intros ? [] | intros ? [] |].
  cbn [app] in Heq.
  change (f c0 :: map f cs) with (map f cands) in Heq.
  destruct (@map_eq_split _ _ f cands _ _ _ Heq) as (l1 & x & l2 & Hc & E1 & E2 & E3).
  rewrite <- E2 in *. cbn [sc_candidate final_score f].
  split; [reflexivity|].
  exists l1, l2. split; [exact Hc|]. split.
  - intros p Hp. apply (H1 (f p)). rewrite <- E1. apply in_map. exact Hp.
  - intros q Hq. apply (H2 (f q)). rewrite <- E3. apply in_map. exact Hq.
Qed.

(** X2. The scorer returns no candidate exactly for an empty list;
    otherwise it returns one of the candidates, annotated with its own
    score, and that one is the first maximal candidate: no candidate before
    it scores at least as much, and none after it scores more. *)
Theorem select_best_candidate_first_maximal
        (candidates : list candidate) (field_name field_description : str) :
  let score c :=
    ScorerValidator.score_candidate c field_name field_description candidates in
  match ScorerValidator.select_best_candidate
          candidates field_name field_description with
  | None => candidates = []
  | Some best =>
      final_score best = score (sc_candidate best)
      /\ exists pre post,
           candidates = pre ++ sc_candidate best :: post
           /\ (forall p, In p pre ->
                 (final_score best <=? score p)%float = false)
           /\ (forall q, In q post ->
                 (final_score best <? score q)%float = false)
  end.
Proof. exact (select_best_spec candidates field_name field_description). Qed.

(** ** The pattern source *)

(** Where a candidate of the pattern source comes from. *)
Lemma regex_candidates_inv pd field_name field_description cand :
  In cand (CandidateGenerator._regex_candidates pd field_name
                                                field_description) ->
  exists p match_type mo block,
    In (p, match_type)
       (CandidateGenerator._get_regex_patterns field_name field_description)
    /\ In mo (re_finditer true (CandidateGenerator.p_regex p)
                          (Preprocessor.normalized_full_text pd))
    /\ CandidateGenerator.containing_block
         (lower (c_text cand)) (Preprocessor.processed_blocks pd) = Some block
    /\ cand = mkCandidate (c_text cand)
                          (Preprocessor.normalize_text (c_text cand))
                          (Preprocessor.pb_bbox block) 0.4%float MRegex
                          (Some (CandidateGenerator.p_source p))
                          (Some match_type) None.
Proof.
  unfold CandidateGenerator._regex_candidates. intro H.
  apply in_flat_map in H. destruct H as [[p match_type] [Hp H]].
  apply in_flat_map in H. destruct H as [mo [Hmo H]].
  destruct (CandidateGenerator.containing_block _ _) as [block|] eqn:Eb;
    [|contradiction].
  destruct H as [<- | []]. cbn [c_text].
  exists p, match_type, mo, block. auto.
Qed.

(** X3. Every candidate of the pattern source carries the fixed score 0.4,
    the method [regex], no similarity, the normalized form of its own text
    and the tag of a pattern selected for the field; its box is that of
    the first processed block whose normalized text contains the
    lower-cased candidate text. *)
Theorem pattern_candidates_anchored
        (pd : Preprocessor.features) (field_name field_description : str) :
  Forall
    (fun cand =>
       c_method cand = MRegex
       /\ c_score cand = 0.4%float
       /\ c_similarity cand = None
       /\ c_normalized cand = Preprocessor.normalize_text (c_text cand)
       /\ (exists p match_type,
             In (p, match_type)
                (CandidateGenerator._get_regex_patterns
                   field_name field_description)
             /\ c_pattern cand = Some (CandidateGenerator.p_source p)
             /\ c_match_type cand = Some match_type)
       /\ exists before block after,
            Preprocessor.processed_blocks pd = before ++ block :: after
            /\ c_bbox cand = Preprocessor.pb_bbox block
            /\ contains (lower (c_text cand))
                        (Preprocessor.pb_normalized block) = true
            /\ forall b, In b before ->
                 contains (lower (c_text cand))
                          (Preprocessor.pb_normalized b) = false)
    (CandidateGenerator._regex_candidates pd field_name field_description).
Proof.
  apply Forall_forall. intros cand Hin.
  destruct (regex_candidates_inv _ _ _ _ Hin)
    as (p & match_type & mo & block & Hp & _ & Hb & Hc).
  rewrite Hc. cbn [c_method c_score c_similarity c_normalized c_text c_bbox
                   c_pattern c_match_type].
  repeat (split; [reflexivity|]). split.
  - exists p, match_type. auto.
  - unfold CandidateGenerator.containing_block in Hb.
    revert Hb. generalize (Preprocessor.processed_blocks pd) as blocks.
    induction blocks as [|b t IH]; intro Hb; [discriminate|].
    cbn [find] in Hb.
    destruct (contains (lower (c_text cand)) (Preprocessor.pb_normalized b))
      eqn:Eb.
    + injection Hb as ->. exists [], block, t. cbn [app].
      repeat split; auto. intros ? [].
    + destruct (IH Hb) as (before & blk & after & -> & H1 & H2 & H3).
      exists (b :: before), blk, after. cbn [app].
      repeat split; auto. intros b' [<- | Hb']; auto.
Qed.

(** X4. A candidate of the pattern source never reaches the lower
    threshold, whatever the field and the other candidates are: its score
    is below 0.60, so that the decision engine accepts its value only
    through the deterministic override and otherwise defers the field to
    the fallback. *)
Theorem pattern_candidates_below_low_threshold
        (pd : Preprocessor.features) (field_name field_description : str) :
  Forall
    (fun cand =>
       forall (field description : str) (all_candidates : list candidate)
              (extraction_schema : dict str) (st : DecisionEngine.loop_state),
         let score :=
           ScorerValidator.score_candidate cand field description
                                           all_candidates in
         (score <? T_LOW)%float = true
         /\ DecisionEngine.process_field extraction_schema st
              (field, Some (mkScored cand score))
            = if DecisionEngine._deterministic_accept field (c_text cand)
              then DecisionEngine.accept st field
                     (DecisionEngine._normalize_value (c_text cand) field)
              else DecisionEngine.defer st field)
    (CandidateGenerator._regex_candidates pd field_name field_description).
Proof.
  apply Forall_forall. intros cand Hin field description all_candidates
                              extraction_schema st score.
  destruct (regex_candidates_inv _ _ _ _ Hin)
    as (p & match_type & mo & block & _ & _ & _ & Hc).
  assert (Hlow : (score <? T_LOW)%float = true).
  { unfold score. rewrite Hc. apply pattern_candidate_score. }
  split; [exact Hlow|].
  apply (@process_field_low extraction_schema st field (mkScored cand score)).
  exact Hlow.
Qed.

(** The pattern source does propose candidates: the sample document has
    one for the field [cpf]. *)
Example pattern_candidates_sample :
  map c_text
      (CandidateGenerator._regex_candidates
         (Preprocessor.extract_features (fun _ => []) cpf_document)
         (py "cpf") (py "número do CPF"))
  = [py "123.456.789-09"].
Proof. vm_compute. reflexivity. Qed.

(** ** Removal of duplicates *)

Lemma ltb_irrefl (x : float) : (x <? x)%float = false.
Proof.
  destruct (x <? x)%float eqn:E; [|reflexivity].
  rewrite (ltb_asym E) in E. discriminate.
Qed.

Lemma Forall_set {V} (P : str * V -> Prop) k v (d : dict V) :
  P (k, v) -> Forall P d -> Forall P (set k v d).
Proof.
  intros Hv. induction d as [|[k' v'] t IH]; intro H; cbn [set].
  - constructor; [exact Hv | constructor].
  - inversion H; subst. destruct (str_eqb k k') eqn:E.
    + apply str_eqb_eq in E. subst. constructor; assumption.
    + constructor; [assumption | apply IH; assumption].
Qed.

Lemma get_In {V} k (v : V) (d : dict V) : get k d = Some v -> In (k, v) d.
Proof.
  induction d as [|[k' v'] t IH]; cbn [get]; [discriminate|].
  destruct (str_eqb k k') eqn:E.
  - apply str_eqb_eq in E. subst. intro H. injection H as ->. left. reflexivity.
  - intro H. right. apply IH, H.
Qed.

(** The loop of [_deduplicate_candidates]: the entries of [seen] are keyed
    by their normalized text and come from the candidates seen so far, the
    keys are distinct, and each candidate seen so far has an entry that
    does not score less. *)
Lemma deduplicate_loop (candidates processed : list candidate)
      (seen : dict candidate) :
  let step (seen : dict candidate) cand :=
    match get (c_normalized cand) seen with
    | None => set (c_normalized cand) cand seen
    | Some old =>
        if (c_score old <? c_score cand)%float
        then set (c_normalized cand) cand seen else seen
    end in
  Forall (fun kv => c_normalized (snd kv) = fst kv /\ In (snd kv) processed)
         seen ->
  NoDup (keys seen) ->
  (forall x, In x processed ->
     exists v, get (c_normalized x) seen = Some v
               /\ (c_score v <? c_score x)%float = false) ->
  let seen' := fold_left step candidates seen in
  Forall (fun kv => c_normalized (snd kv) = fst kv
                    /\ In (snd kv) (processed ++ candidates)) seen'
  /\ NoDup (keys seen')
  /\ forall x, In x (processed ++ candidates) ->
       exists v, get (c_normalized x) seen' = Some v
                 /\ (c_score v <? c_score x)%float = false.
Proof.
  cbv zeta. revert processed seen.
  induction candidates as [|cand t IH]; intros processed seen H1 H2 H3.
  - rewrite app_nil_r. auto.
  - cbn [fold_left].
    replace (processed ++ cand :: t) with ((processed ++ [cand]) ++ t)
      by (rewrite <- app_assoc; reflexivity).
    assert (Hweak : Forall (fun kv : str * candidate =>
                              c_normalized (snd kv) = fst kv
                              /\ In (snd kv) (processed ++ [cand])) seen).
    { eapply Forall_impl; [|exact H1]. intros kv [Ha Hb].
      split; [exact Ha | apply in_or_app; left; exact Hb]. }
    assert (Hset : Forall (fun kv : str * candidate =>
                             c_normalized (snd kv) = fst kv
                             /\ In (snd kv) (processed ++ [cand]))
                          (set (c_normalized cand) cand seen)).
    { apply Forall_set; [|exact Hweak]. split; [reflexivity|].
      apply in_or_app. right. left. reflexivity. }
    assert (Hkeep : forall x, In x processed ->
                      c_normalized x <> c_normalized cand ->
                      exists v, get (c_normalized x)
                                    (set (c_normalized cand) cand seen) = Some v
                                /\ (c_score v <? c_score x)%float = false).
    { intros x Hx Hne. destruct (H3 x Hx) as [v [Hg Hv]].
      exists v. split; [|exact Hv]. rewrite get_set_neq; auto. }
    destruct (get (c_normalized cand) seen) as [old|] eqn:Eg.
    + destruct (c_score old <? c_score cand)%float eqn:El.
      * apply IH; [exact Hset | apply NoDup_keys_set; exact H2 |].
        intros x Hx. apply in_app_or in Hx. destruct Hx as [Hx | [<- | []]].
        -- destruct (list_eq_dec N.eq_dec (c_normalized x) (c_normalized cand))
             as [He | Hne]; [|apply Hkeep; assumption].
           exists cand. rewrite He, get_set_eq. split; [reflexivity|].
           destruct (H3 x Hx) as [v [Hg Hv]]. rewrite He, Eg in Hg.
           injection Hg as <-.
           destruct (c_score cand <? c_score x)%float eqn:Ec; [|reflexivity].
           rewrite (ltb_trans El Ec) in Hv. discriminate.
        -- exists cand. rewrite get_set_eq. split; [reflexivity|].
           apply ltb_irrefl.
      * apply IH; [exact Hweak | exact H2 |].
        intros x Hx. apply in_app_or in Hx. destruct Hx as [Hx | [<- | []]].
        -- apply H3, Hx.
        -- exists old. auto.
    + apply IH; [exact Hset | apply NoDup_keys_set; exact H2 |].
      intros x Hx. apply in_app_or in Hx. destruct Hx as [Hx | [<- | []]].
      * apply Hkeep; [exact Hx|]. intro He.
        destruct (H3 x Hx) as [v [Hg _]]. rewrite He, Eg in Hg. discriminate.
      * exists cand. rewrite get_set_eq. split; [reflexivity|].
        apply ltb_irrefl.
Qed.

Lemma deduplicate_spec (candidates : list candidate) :
  let result := CandidateGenerator._deduplicate_candidates candidates in
  NoDup (map c_normalized result)
  /\ incl result candidates
  /\ forall x, In x candidates ->
       exists r, In r result
                 /\ c_normalized r = c_normalized x
                 /\ (c_score r <? c_score x)%float = false.
Proof.
  cbv zeta. unfold CandidateGenerator._deduplicate_candidates.
  destruct (@deduplicate_loop candidates [] []) as (H1 & H2 & H3).
  { constructor. } { constructor. } { intros x []. }
  cbv zeta in H1, H2, H3. cbn [app] in H1, H3.
  match type of H2 with NoDup (keys ?s) => set (seen := s) in * end.
  assert (Hk : map c_normalized (map snd seen) = keys seen).
  { unfold keys. rewrite map_map. apply map_ext_in. intros kv Hkv.
    rewrite Forall_forall in H1. apply H1, Hkv. }
  split; [rewrite Hk; exact H2|]. split.
  - intros r Hr. apply in_map_iff in Hr. destruct Hr as [kv [<- Hkv]].
    rewrite Forall_forall in H1. apply H1, Hkv.
  - intros x Hx. destruct (H3 x Hx) as [v [Hg Hv]].
    exists v. split; [|split; [|exact Hv]].
    + apply get_In in Hg. apply (in_map snd) in Hg. exact Hg.
    + apply get_In in Hg. rewrite Forall_forall in H1.
      apply (H1 _ Hg).
Qed.

(** X5. Removing duplicates keeps candidates of the input only, no two of
    them with the same normalized text, and for every candidate of the
    input one with that normalized text that does not score less. *)
Theorem deduplicate_candidates_keeps_best (candidates : list candidate) :
  let result := CandidateGenerator._deduplicate_candidates candidates in
  NoDup (map c_normalized result)
  /\ (forall r, In r result -> In r candidates)
  /\ forall x, In x candidates ->
       exists r, In r result
                 /\ c_normalized r = c_normalized x
                 /\ (c_score r <? c_score x)%float = false.
Proof. exact (deduplicate_spec candidates). Qed.

(** ** The semantic source *)

Lemma stateless_ret {A} (a : A) : stateless (ret a).
Proof. intro w. reflexivity. Qed.

Lemma stateless_raise {A} (e : exn) : stateless (@raise A e).
Proof. intro w. reflexivity. Qed.

Lemma stateless_bind {A B} (x : M A) (f : A -> M B) :
  stateless x -> (forall a, stateless (f a)) -> stateless (bind x f).
Proof.
  intros Hx Hf w. unfold bind. specialize (Hx w).
  destruct (x w) as [[e|a] w1]; cbn [snd] in *.
  - exact Hx.
  - rewrite (Hf a w1). exact Hx.
Qed.

Lemma stateless_foldM {A B} (f : B -> A -> M B) (l : list A) (b : B) :
  (forall b a, stateless (f b a)) -> stateless (foldM f l b).
Proof.
  intro Hf. revert b. induction l as [|a t IH]; intro b; cbn [foldM].
  - apply stateless_ret.
  - apply stateless_bind; [apply Hf | intro; apply IH].
Qed.

Section SemanticFacts.
Variable E : collaborators.

Lemma stateless_encode_one s : stateless (CandidateGenerator.encode_one E s).
Proof.
  unfold CandidateGenerator.encode_one.
  destruct (encode E [s]) as [[|v l]|];
    auto using stateless_ret, stateless_raise.
Qed.

Lemma stateless_nth_or_raise {A} (l : list A) i :
  stateless (CandidateGenerator.nth_or_raise l i).
Proof.
  unfold CandidateGenerator.nth_or_raise.
  destruct (nth_error l i); auto using stateless_ret, stateless_raise.
Qed.

Lemma stateless_semantic_search pd fn fd le top_k :
  stateless (CandidateGenerator._semantic_search E pd fn fd le top_k).
Proof.
  unfold CandidateGenerator._semantic_search.
  apply stateless_bind; [apply stateless_encode_one|]. intro q.
  destruct (Preprocessor.processed_blocks pd); [apply stateless_ret|].
  destruct (encode E _); [|apply stateless_raise].
  apply stateless_foldM. intros acc idx.
  repeat (apply stateless_bind; [apply stateless_nth_or_raise | intro]).
  apply stateless_ret.
Qed.

(** The exceptions of the embedding model and of the indexing. *)
Lemma encode_one_raises s w e w' :
  CandidateGenerator.encode_one E s w = (inl e, w') ->
  e = EmbeddingFailure \/ e = IndexError.
Proof.
  unfold CandidateGenerator.encode_one.
  destruct (encode E [s]) as [[|v l]|]; unfold raise, ret; intro H;
    inversion H; auto.
Qed.

(** The loop over [top_indices]: one candidate per index, built from the
    block at that index. *)
Lemma semantic_loop pd (combined_scores similarities : list float)
      (top_indices : list nat) (acc : list candidate) (w : world) :
  Forall (semantic_candidate_of pd) acc ->
  match
    foldM (fun acc idx =>
             bind (CandidateGenerator.nth_or_raise
                     (Preprocessor.processed_blocks pd) idx)
               (fun block_info =>
                  bind (CandidateGenerator.nth_or_raise combined_scores idx)
                    (fun score =>
                       bind (CandidateGenerator.nth_or_raise similarities idx)
                         (fun similarity =>
                            ret (acc ++
                                 [ mkCandidate
                                     (text (Preprocessor.pb_original block_info))
                                     (Preprocessor.pb_normalized block_info)
                                     (Preprocessor.pb_bbox block_info) score
                                     MSemantic None None (Some similarity) ])))))
          top_indices acc w
  with
  | (inr out, _) =>
      List.length out = List.length acc + List.length top_indices
      /\ Forall (semantic_candidate_of pd) out
  | (inl e, _) => e = IndexError
  end.
Proof.
  revert acc w. induction top_indices as [|idx t IH]; intros acc w Hacc.
  - cbn. split; [lia | exact Hacc].
  - cbn [foldM]. unfold bind at 1, bind at 1, CandidateGenerator.nth_or_raise at 1.
    destruct (nth_error (Preprocessor.processed_blocks pd) idx)
      as [block_info|] eqn:Eb; [|reflexivity].
    unfold ret at 1. unfold bind at 1, CandidateGenerator.nth_or_raise at 1.
    destruct (nth_error combined_scores idx) as [score|]; [|reflexivity].
    unfold ret at 1. unfold bind at 1, CandidateGenerator.nth_or_raise at 1.
    destruct (nth_error similarities idx) as [similarity|]; [|reflexivity].
    unfold ret at 1. unfold ret at 1.
    match goal with
    | |- context [foldM ?f t ?a w] =>
        specialize (IH a w); destruct (foldM f t a w) as [[e|out] w1]
    end.
    + apply IH. apply Forall_app. split; [exact Hacc|].
      constructor; [|constructor]. unfold semantic_candidate_of. cbn.
      repeat (split; [reflexivity|]). split; [eexists; reflexivity|].
      exists block_info. split; [eapply nth_error_In; exact Eb | auto].
    + destruct IH as [Hl Hf].
      { apply Forall_app. split; [exact Hacc|].
        constructor; [|constructor]. unfold semantic_candidate_of. cbn.
        repeat (split; [reflexivity|]). split; [eexists; reflexivity|].
        exists block_info. split; [eapply nth_error_In; exact Eb | auto]. }
      split; [|exact Hf]. rewrite Hl, length_app. cbn. lia.
Qed.

Lemma semantic_search_spec pd fn fd le top_k w :
  match CandidateGenerator._semantic_search E pd fn fd le top_k w with
  | (inr out, w') =>
      w' = w
      /\ List.length out <= top_k
      /\ (Preprocessor.processed_blocks pd = [] -> out = [])
      /\ Forall (semantic_candidate_of pd) out
  | (inl e, w') => w' = w /\ (e = EmbeddingFailure \/ e = IndexError)
  end.
Proof.
  pose proof (stateless_semantic_search pd fn fd le top_k w) as Hw.
  destruct (CandidateGenerator._semantic_search E pd fn fd le top_k w)
    as [r w'] eqn:Es.
  cbn [snd] in Hw. subst w'.
  unfold CandidateGenerator._semantic_search, bind at 1 in Es.
  destruct (CandidateGenerator.encode_one E _ w) as [[e|q] w1] eqn:Eq.
  - inversion Es; subst. split; [reflexivity|].
    eapply encode_one_raises, Eq.
  - pose proof (stateless_encode_one (fn ++ py " " ++ fd) w) as Hq.
    rewrite Eq in Hq. cbn [snd] in Hq. subst w1.
    destruct (Preprocessor.processed_blocks pd) as [|b0 bt] eqn:Epd.
    + unfold ret in Es. inversion Es; subst. cbn.
      repeat split; auto. lia.
    + rewrite <- Epd in Es.
      destruct (encode E _) as [block_embeddings|].
      * match type of Es with
        | foldM _ ?idxs [] w = _ =>
            pose proof (@semantic_loop pd
                          (weighted_scores E
                             (cosine_similarities E block_embeddings q)
                             (cosine_similarities E block_embeddings le))
                          (cosine_similarities E block_embeddings q)
                          idxs [] w (Forall_nil _)) as Hloop
        end.
        rewrite Es in Hloop. destruct r as [e|out].
        -- split; [reflexivity | right; exact Hloop].
        -- destruct Hloop as [Hl Hf]. cbn [List.length Nat.add] in Hl.
           split; [reflexivity|]. split.
           { rewrite Hl. apply firstn_le_length. }
           split; [discriminate | exact Hf].
      * unfold raise in Es. inversion Es; subst.
        split; [reflexivity | left; reflexivity].
Qed.

End SemanticFacts.

(** X6. The semantic source leaves the state alone and returns at most
    [top_k] candidates, none without processed blocks; each has the method
    [semantic], a similarity, no pattern, and the text, normalized text
    and box of one processed block.  It raises only the exception of the
    embedding model or an [IndexError]. *)
Theorem semantic_search_result
        (E : collaborators) (pd : Preprocessor.features)
        (field_name field_description : str) (label_embedding : vec)
        (top_k : nat) (w : world) :
  match CandidateGenerator._semantic_search
          E pd field_name field_description label_embedding top_k w with
  | (inr out, w') =>
      w' = w
      /\ List.length out <= top_k
      /\ (Preprocessor.processed_blocks pd = [] -> out = [])
      /\ Forall (semantic_candidate_of pd) out
  | (inl e, w') => w' = w /\ (e = EmbeddingFailure \/ e = IndexError)
  end.
Proof. apply semantic_search_spec. Qed.

(** The semantic source does return candidates: one for the block of the
    sample document. *)
Example semantic_search_sample :
  let E := sample_collaborators cpf_document null_service in
  let pd := Preprocessor.extract_features (create_block_hash E) cpf_document in
  match CandidateGenerator._semantic_search
          E pd (py "cpf") (py "número do CPF") [1%float] 5 initial_world with
  | (inr out, _) => map c_text out = [py "CPF: 123.456.789-09"]
  | (inl _, _) => False
  end.
Proof. vm_compute. reflexivity. Qed.

(** ** The candidates of a field *)

Lemma insert_by_score_perm x l :
  Permutation (x :: l) (CandidateGenerator.insert_by_score x l).
Proof.
  induction l as [|y t IH]; cbn [CandidateGenerator.insert_by_score].
  - apply Permutation_refl.
  - destruct (c_score x <? c_score y)%float.
    + apply perm_trans with (y :: x :: t); [apply perm_swap|].
      apply perm_skip, IH.
    + apply Permutation_refl.
Qed.

Lemma sort_by_score_perm l : Permutation l (CandidateGenerator.sort_by_score l).
Proof.
  induction l as [|x t IH]; cbn [CandidateGenerator.sort_by_score].
  - apply perm_nil.
  - apply perm_trans with (x :: CandidateGenerator.sort_by_score t).
    + apply perm_skip, IH.
    + apply insert_by_score_perm.
Qed.

Lemma In_firstn {A} (k : nat) (l : list A) (a : A) :
  In a (firstn k l) -> In a l.
Proof.
  intro H. rewrite <- (firstn_skipn k l). apply in_or_app. left. exact H.
Qed.

Lemma NoDup_firstn {A} (k : nat) (l : list A) : NoDup l -> NoDup (firstn k l).
Proof.
  intro H. rewrite <- (firstn_skipn k l) in H.
  apply NoDup_app_remove_r in H. exact H.
Qed.

(** What [generate_candidates] stores for a field. *)
Lemma field_candidates_spec (top_k : nat) (candidates : list candidate) :
  let stored :=
    firstn top_k
           (CandidateGenerator.sort_by_score
              (CandidateGenerator._deduplicate_candidates candidates)) in
  List.length stored <= top_k
  /\ NoDup (map c_normalized stored)
  /\ forall cand, In cand stored -> In cand candidates.
Proof.
  cbv zeta.
  destruct (deduplicate_spec candidates) as (Hnd & Hincl & _).
  cbv zeta in Hnd, Hincl.
  pose proof (sort_by_score_perm
                (CandidateGenerator._deduplicate_candidates candidates)) as Hp.
  split; [apply firstn_le_length|]. split.
  - rewrite <- firstn_map. apply NoDup_firstn.
    eapply Permutation_NoDup; [|exact Hnd]. apply Permutation_map, Hp.
  - intros cand Hin. apply In_firstn in Hin. apply Hincl.
    eapply Permutation_in; [apply Permutation_sym, Hp | exact Hin].
Qed.

(** A loop that keeps an invariant, and raises only exceptions of a given
    kind, ends in a state with the invariant or raises such an
    exception. *)
Lemma foldM_invariant {A B} (I : B -> Prop) (Err : exn -> Prop)
      (f : B -> A -> M B) (l : list A) :
  (forall b a w, In a l -> I b ->
     match f b a w with
     | (inr b', _) => I b'
     | (inl e, _) => Err e
     end) ->
  forall b w, I b ->
    match foldM f l b w with
    | (inr out, _) => I out
    | (inl e, _) => Err e
    end.
Proof.
  induction l as [|a t IH]; intros Hf b w Hb; cbn [foldM].
  - exact Hb.
  - unfold bind. specialize (Hf b a w (or_introl eq_refl) Hb) as Hstep.
    destruct (f b a w) as [[e|b'] w1]; [exact Hstep|].
    apply IH; [|exact Hstep].
    intros b0 a0 w0 Hin. apply Hf. right. exact Hin.
Qed.

Section GeneratorFacts.
Variable E : collaborators.

Lemma label_embedding_raises label w e w' :
  CandidateGenerator.label_embedding_of E label w = (inl e, w') ->
  e = EmbeddingFailure \/ e = IndexError.
Proof.
  unfold CandidateGenerator.label_embedding_of, bind, get_cache.
  destruct (get label (label_cache w)); [discriminate|].
  destruct (CandidateGenerator.encode_one E label w) as [[e0|v] w1] eqn:Ee.
  - intro H. inversion H; subst. eapply encode_one_raises, Ee.
  - discriminate.
Qed.

(** The state after [label_embedding_of]: the embedding of a label that
    was not cached is stored when the model returns one. *)
Lemma label_embedding_world label w :
  snd (CandidateGenerator.label_embedding_of E label w)
  = match get label (label_cache w), encode E [label] with
    | None, Some (v :: _) =>
        mkWorld (llm_calls w) (used_llm_last_call w)
                (set label v (label_cache w))
    | _, _ => w
    end.
Proof.
  unfold CandidateGenerator.label_embedding_of, bind, get_cache.
  destruct (get label (label_cache w)); [reflexivity|].
  unfold CandidateGenerator.encode_one.
  destruct (encode E [label]) as [[|v l]|]; reflexivity.
Qed.

Lemma generate_candidates_world pd label schema top_k w :
  snd (CandidateGenerator.generate_candidates E pd label schema top_k w)
  = snd (CandidateGenerator.label_embedding_of E label w).
Proof.
  unfold CandidateGenerator.generate_candidates, bind at 1.
  destruct (CandidateGenerator.label_embedding_of E label w)
    as [[e|le] w1]; [reflexivity|].
  cbn [snd]. apply stateless_foldM. intros acc [fn fd].
  apply stateless_bind; [apply stateless_semantic_search|].
  intro. apply stateless_ret.
Qed.

Lemma generate_candidates_spec pd label schema top_k w :
  match CandidateGenerator.generate_candidates E pd label schema top_k w with
  | (inr out, _) =>
      Forall
        (fun kv : str * list candidate =>
           List.length (snd kv) <= top_k
           /\ NoDup (map c_normalized (snd kv))
           /\ exists description,
                In (fst kv, description) schema
                /\ Forall
                     (fun cand =>
                        In cand (CandidateGenerator._regex_candidates
                                   pd (fst kv) description)
                        \/ semantic_candidate_of pd cand)
                     (snd kv))
        out
  | (inl e, _) => e = EmbeddingFailure \/ e = IndexError
  end.
Proof.
  unfold CandidateGenerator.generate_candidates, bind at 1.
  destruct (CandidateGenerator.label_embedding_of E label w)
    as [[e|le] w1] eqn:El.
  - eapply label_embedding_raises, El.
  - apply foldM_invariant with
      (I := Forall
              (fun kv : str * list candidate =>
                 List.length (snd kv) <= top_k
                 /\ NoDup (map c_normalized (snd kv))
                 /\ exists description,
                      In (fst kv, description) schema
                      /\ Forall
                           (fun cand =>
                              In cand (CandidateGenerator._regex_candidates
                                         pd (fst kv) description)
                              \/ semantic_candidate_of pd cand)
                           (snd kv)))
      (Err := fun e => e = EmbeddingFailure \/ e = IndexError);
      [|constructor].
    intros acc [fn fd] w0 Hin Hacc. unfold bind.
    pose proof (semantic_search_spec E pd fn fd le top_k w0) as Hs.
    destruct (CandidateGenerator._semantic_search E pd fn fd le top_k w0)
      as [[e|sc] w2]; [apply Hs|].
    destruct Hs as (_ & _ & _ & Hsem).
    unfold ret. apply Forall_set; [|exact Hacc]. cbn [fst snd].
    destruct (field_candidates_spec
                top_k (CandidateGenerator._regex_candidates pd fn fd ++ sc))
      as (H1 & H2 & H3).
    cbv zeta in H1, H2, H3.
    split; [exact H1|]. split; [exact H2|].
    exists fd. split; [exact Hin|].
    apply Forall_forall. intros cand Hc. apply H3 in Hc.
    apply in_app_or in Hc. destruct Hc as [Hc|Hc]; [left; exact Hc|].
    right. rewrite Forall_forall in Hsem. apply Hsem, Hc.
Qed.

End GeneratorFacts.

(** X7. When [generate_candidates] returns, it has an entry for exactly
    the fields of the schema, and each entry holds at most [top_k]
    candidates, no two with the same normalized text, each one proposed
    for that field by the pattern source or built from a processed block
    by the semantic source.  It raises only the exception of the embedding
    model or an [IndexError]. *)
Theorem generate_candidates_result
        (E : collaborators) (pd : Preprocessor.features) (label : str)
        (extraction_schema : dict str) (top_k : nat) (w : world) :
  match CandidateGenerator.generate_candidates
          E pd label extraction_schema top_k w with
  | (inr out, _) =>
      (forall k, mem k out = mem k extraction_schema)
      /\ Forall
           (fun kv : str * list candidate =>
              List.length (snd kv) <= top_k
              /\ NoDup (map c_normalized (snd kv))
              /\ exists description,
                   In (fst kv, description) extraction_schema
                   /\ Forall
                        (fun cand =>
                           In cand (CandidateGenerator._regex_candidates
                                      pd (fst kv) description)
                           \/ semantic_candidate_of pd cand)
                        (snd kv))
           out
  | (inl e, _) => e = EmbeddingFailure \/ e = IndexError
  end.
Proof.
  pose proof (generate_candidates_spec E pd label extraction_schema top_k w)
    as H.
  destruct (CandidateGenerator.generate_candidates
              E pd label extraction_schema top_k w) as [[e|out] w'] eqn:Eg;
    [exact H|].
  split; [|exact H].
  intro k. eapply generate_candidates_keys, Eg.
Qed.

(** X8. The label cache.  [generate_candidates] changes nothing of the
    state but the cache, to which it adds the embedding of the label when
    the label is not cached and the model returns an embedding; a further
    call with the same label, on any document and schema, leaves the
    state as it is. *)
Theorem label_cache_filled_once
        (E : collaborators) (pd pd' : Preprocessor.features) (label : str)
        (extraction_schema extraction_schema' : dict str)
        (top_k top_k' : nat) (w : world) :
  let w1 := snd (CandidateGenerator.generate_candidates
                   E pd label extraction_schema top_k w) in
  w1 = match get label (label_cache w), encode E [label] with
       | None, Some (v :: _) =>
           mkWorld (llm_calls w) (used_llm_last_call w)
                   (set label v (label_cache w))
       | _, _ => w
       end
  /\ snd (CandidateGenerator.generate_candidates
            E pd' label extraction_schema' top_k' w1) = w1.
Proof.
  cbv zeta. rewrite !generate_candidates_world, !label_embedding_world.
  split; [reflexivity|].
  destruct (get label (label_cache w)) as [v0|] eqn:Eg.
  - rewrite Eg. reflexivity.
  - destruct (encode E [label]) as [[|v l]|] eqn:Ee;
      try (rewrite Eg; reflexivity).
    cbn [label_cache]. rewrite get_set_eq. reflexivity.
Qed.

(** ** The preprocessor: the alphabet of normalized text *)

Section NormalizeFacts.

Ltac inside := apply between_spec; lia.

(** Lower-casing keeps word characters and is idempotent. *)
Lemma lower_char_word c :
  isword c = true ->
  isword (lower_char c) = true /\ lower_char (lower_char c) = lower_char c.
Proof.
  intro Hw.
  destruct (between 65 90 c || between 192 214 c || between 216 222 c) eqn:E.
  - assert (Hl : lower_char c = (c + 32)%N)
      by (unfold lower_char; rewrite E; reflexivity).
    assert (Hc : (65 <= c <= 90 \/ 192 <= c <= 214 \/ 216 <= c <= 222)%N).
    { rewrite !orb_true_iff, !between_spec in E. tauto. }
    rewrite !Hl. split.
    + unfold isword, isalnum, isalpha. rewrite !orb_true_iff.
      left. left. left.
      destruct Hc as [Hc | [Hc | Hc]].
      * do 6 left. right. inside.
      * left. right. inside.
      * right. inside.
    + unfold lower_char.
      replace (between 65 90 (c + 32) || between 192 214 (c + 32)
               || between 216 222 (c + 32)) with false; [reflexivity|].
      symmetry. rewrite !between_out by lia. reflexivity.
  - assert (Hl : lower_char c = c)
      by (unfold lower_char; rewrite E; reflexivity).
    rewrite !Hl. split; [exact Hw | reflexivity].
Qed.

Lemma lower_char_latin1 c : (c <= 255)%N -> (lower_char c <= 255)%N.
Proof.
  intro H. unfold lower_char.
  destruct (between 65 90 c || between 192 214 c || between 216 222 c) eqn:E;
    [|exact H].
  rewrite !orb_true_iff, !between_spec in E. lia.
Qed.

Variable ic : bool.

Lemma m_set_eq (R : Type) neg items st (k : mstate -> option R) :
  m ic (RSet neg items) st k
  = match rest st with
    | x :: t => if set_matches ic neg items x then k (advance st x t) else None
    | [] => None
    end.
Proof. reflexivity. Qed.

Lemma m_rep_eq (R : Type) greedy lo hi r st (k : mstate -> option R) :
  m ic (RRep greedy lo hi r) st k
  = rep (m ic r) greedy lo
        (match hi with Some h => h | None => List.length (rest st) end) st k.
Proof. reflexivity. Qed.

(** A greedy run of whitespace always matches, and ends at or after the
    position it starts from. *)
Lemma rep_space_total (p0 n : nat) (st : mstate) :
  exists e cs,
    rep (m ic (RSet false [CsSpace])) true 0 n st
        (fun st' => Some (Match p0 (pos st') (caps st')))
    = Some (Match p0 e cs)
    /\ pos st <= e.
Proof.
  revert st. induction n as [|n IH]; intro st.
  - cbn [rep Nat.eqb]. eexists. eexists. split; [reflexivity | lia].
  - cbn [rep Nat.eqb negb]. rewrite m_set_eq. destruct (rest st) as [|x t].
    + eexists. eexists. split; [reflexivity | lia].
    + destruct (set_matches ic false [CsSpace] x).
      * unfold advance. cbn [pos caps Nat.pred].
        replace (Nat.eqb (S (pos st)) (pos st)) with false
          by (symmetry; apply Nat.eqb_neq; lia).
        destruct (IH (MState (Some x) (S (pos st)) t (caps st)))
          as (e & cs & -> & Hle).
        cbn [pos] in Hle. eexists. eexists. split; [reflexivity | lia].
      * eexists. eexists. split; [reflexivity | lia].
Qed.

(** [\s+] at a position: it matches a non-empty span when the next
    character is whitespace, and not at all otherwise. *)
Lemma match_at_space_run (st : mstate) :
  match match_at ic (plus (RSet false [CsSpace])) st with
  | Some mo => m_start mo < m_end mo /\ rest st <> []
  | None => forall x t, rest st = x :: t -> isspace x = false
  end.
Proof.
  unfold match_at, plus. rewrite m_rep_eq. cbn [rest].
  destruct (rest st) as [|x t] eqn:Er.
  - cbn [List.length rep Nat.eqb]. discriminate.
  - cbn [List.length rep Nat.eqb negb]. rewrite m_set_eq. cbn [rest].
    destruct (set_matches ic false [CsSpace] x) eqn:E.
    + unfold advance. cbn [pos caps Nat.pred].
      replace (Nat.eqb (S (pos st)) (pos st)) with false
        by (symmetry; apply Nat.eqb_neq; lia).
      destruct (rep_space_total (pos st) (List.length t)
                  (MState (Some x) (S (pos st)) t []))
        as (e & cs & -> & Hle).
      cbn [pos m_start m_end] in *. split; [lia | discriminate].
    + intros x0 t0 H. injection H as <- <-.
      unfold set_matches in E. cbn in E. rewrite orb_false_r in E. exact E.
Qed.

Lemma skip_to_rest (k : nat) (st : mstate) :
  rest (skip_to k st) = skipn k (rest st).
Proof.
  revert st. induction k as [|k IH]; intro st; cbn [skip_to].
  - destruct (rest st); reflexivity.
  - destruct (rest st) as [|x t] eqn:Er.
    + rewrite Er. reflexivity.
    + rewrite IH. reflexivity.
Qed.

(** After [\s+] is replaced by a space, the space is the only whitespace
    character left. *)
Lemma sub_from_space (n : nat) (st : mstate) :
  List.length (rest st) < n ->
  Forall (fun c => isspace c = true -> c = 32%N)
         (sub_from ic (plus (RSet false [CsSpace])) [32%N] n st).
Proof.
  revert st. induction n as [|n IH]; intros st Hn; [lia|].
  cbn [sub_from]. pose proof (match_at_space_run st) as Hm.
  destruct (match_at ic (plus (RSet false [CsSpace])) st) as [mo|].
  - destruct Hm as [Hlt Hne].
    replace (Nat.ltb (m_start mo) (m_end mo)) with true
      by (symmetry; apply Nat.ltb_lt; exact Hlt).
    cbn [app]. constructor; [reflexivity|].
    apply IH. rewrite skip_to_rest, length_skipn.
    destruct (rest st); [contradiction | cbn [List.length] in *; lia].
  - destruct (rest st) as [|x t] eqn:Er; [constructor|].
    constructor; [intro Hx; rewrite (Hm x t eq_refl) in Hx; discriminate|].
    apply IH. cbn [advance rest]. cbn [List.length] in Hn. lia.
Qed.

End NormalizeFacts.

(** The characters of [re.sub] come from the subject or from the
    replacement, and those of [strip] from its argument. *)
Lemma In_skipn {A} (k : nat) (l : list A) (a : A) :
  In a (skipn k l) -> In a l.
Proof.
  intro H. rewrite <- (firstn_skipn k l). apply in_or_app. right. exact H.
Qed.

Lemma sub_from_In ic r repl n st c :
  In c (sub_from ic r repl n st) -> In c (rest st) \/ In c repl.
Proof.
  revert st. induction n as [|n IH]; intros st H; cbn [sub_from] in H.
  - left. exact H.
  - destruct (match_at ic r st) as [mo|].
    + destruct (Nat.ltb (m_start mo) (m_end mo)).
      * apply in_app_or in H. destruct H as [H|H]; [right; exact H|].
        apply IH in H. destruct H as [H|H]; [|right; exact H].
        left. rewrite skip_to_rest in H. eapply In_skipn, H.
      * destruct (rest st) as [|x t] eqn:Er; [right; exact H|].
        apply in_app_or in H. destruct H as [H|[<-|H]];
          [right; exact H | left; left; reflexivity |].
        apply IH in H. cbn [advance rest] in H.
        destruct H as [H|H]; [left; right; exact H | right; exact H].
    + destruct (rest st) as [|x t] eqn:Er; [contradiction|].
      destruct H as [<-|H]; [left; left; reflexivity|].
      apply IH in H. cbn [advance rest] in H.
      destruct H as [H|H]; [left; right; exact H | right; exact H].
Qed.

Lemma lstrip_In c s : In c (lstrip s) -> In c s.
Proof.
  induction s as [|x t IH]; cbn [lstrip]; [tauto|].
  destruct (isspace x); [intro H; right; apply IH, H | tauto].
Qed.

Lemma strip_In c s : In c (strip s) -> In c s.
Proof.
  unfold strip, rstrip. intro H.
  apply in_rev, lstrip_In in H. apply in_rev in H.
  apply lstrip_In in H. exact H.
Qed.

(** [normalize_text] as the composition of its four steps. *)
Lemma normalize_text_steps (s : str) :
  Preprocessor.normalize_text s
  = lower
      (filter (fun x =>
                 isword x || isspace x || (46 =? x)%N || (45 =? x)%N
                 || (47 =? x)%N || (40 =? x)%N || (41 =? x)%N)
              (re_sub false (plus (RSet false [CsSpace])) [32%N] (strip s))).
Proof.
  unfold Preprocessor.normalize_text, Preprocessor.normalization_patterns.
  cbn [fold_left fst snd]. f_equal.
  change (py " ") with [32%N]. change (py "") with (@nil char).
  unfold re_sub at 1. rewrite sub_from_set by (cbn [start_state rest]; lia).
  cbn [start_state rest]. apply filter_ext. intro x.
  unfold set_matches. cbn [xorb existsb cset_matches char_matches].
  change (ch ".") with 46%N. change (ch "-") with 45%N.
  change (ch "/") with 47%N. change (ch "(") with 40%N.
  change (ch ")") with 41%N.
  rewrite orb_false_r, !orb_assoc.
  match goal with |- negb (if ?b then false else true) = _ => destruct b end;
    reflexivity.
Qed.

Lemma normalized_char_lower c :
  (isword c || isspace c || (46 =? c)%N || (45 =? c)%N
   || (47 =? c)%N || (40 =? c)%N || (41 =? c)%N) = true ->
  (isspace c = true -> c = 32%N) ->
  normalized_char (lower_char c) = true
  /\ lower_char (lower_char c) = lower_char c.
Proof.
  intros H Hsp. unfold normalized_char.
  rewrite !orb_true_iff, !N.eqb_eq in H.
  destruct H as [[[[[[H | H] | H] | H] | H] | H] | H];
    try (apply Hsp in H); try (subst c; split; reflexivity).
  destruct (lower_char_word c H) as [H1 H2].
  split; [|exact H2]. rewrite H1, H2, N.eqb_refl. reflexivity.
Qed.

(** X9. The alphabet of normalized text.  On text within U+0000..U+00FF,
    [normalize_text] returns text within U+0000..U+00FF in which every
    character is a lower-case word character, the space U+0020 or one of
    [. - / ( )]: every other whitespace character and every other symbol
    is gone, and lower-casing the result changes nothing. *)
Theorem normalize_text_alphabet (s : str) :
  latin1 s ->
  forallb normalized_char (Preprocessor.normalize_text s) = true
  /\ lower (Preprocessor.normalize_text s) = Preprocessor.normalize_text s
  /\ latin1 (Preprocessor.normalize_text s).
Proof.
  intro Hs. rewrite normalize_text_steps.
  set (t := re_sub false (plus (RSet false [CsSpace])) [32%N] (strip s)).
  assert (Ht : Forall (fun c => isspace c = true -> c = 32%N) t).
  { apply sub_from_space. cbn [start_state rest]. lia. }
  set (keep := fun x => isword x || isspace x || (46 =? x)%N || (45 =? x)%N
                        || (47 =? x)%N || (40 =? x)%N || (41 =? x)%N).
  assert (Hk : forall c, In c (filter keep t) ->
                 normalized_char (lower_char c) = true
                 /\ lower_char (lower_char c) = lower_char c).
  { intros c Hc. apply filter_In in Hc. destruct Hc as [Hin Hc].
    apply normalized_char_lower; [exact Hc|].
    rewrite Forall_forall in Ht. apply Ht, Hin. }
  split; [|split].
  - apply forallb_forall. intros c Hc. unfold lower in Hc.
    apply in_map_iff in Hc. destruct Hc as [c0 [<- Hc0]]. apply Hk, Hc0.
  - unfold lower. rewrite map_map. apply map_ext_in.
    intros c Hc. apply Hk, Hc.
  - unfold latin1, lower. apply Forall_forall. intros c Hc.
    apply in_map_iff in Hc. destruct Hc as [c0 [<- Hc0]].
    apply lower_char_latin1.
    apply filter_In in Hc0. destruct Hc0 as [Hc0 Hkeep].
    destruct (isspace c0) eqn:Esp.
    + rewrite Forall_forall in Ht. rewrite (Ht c0 Hc0 Esp). lia.
    + assert (Hin : In c0 (strip s)).
      { unfold t, re_sub in Hc0. apply sub_from_In in Hc0.
        destruct Hc0 as [Hc0 | [<- | []]]; [exact Hc0 | discriminate]. }
      apply strip_In in Hin. unfold latin1 in Hs.
      rewrite Forall_forall in Hs. apply Hs, Hin.
Qed.

Lemma normalize_text_alphabet_witness :
  forallb normalized_char
          (Preprocessor.normalize_text (py "  Rua  Açaí, 12 @ 3º  ")) = true
  /\ lower (Preprocessor.normalize_text (py "  Rua  Açaí, 12 @ 3º  "))
     = Preprocessor.normalize_text (py "  Rua  Açaí, 12 @ 3º  ")
  /\ latin1 (Preprocessor.normalize_text (py "  Rua  Açaí, 12 @ 3º  ")).
Proof.
  apply (@normalize_text_alphabet (py "  Rua  Açaí, 12 @ 3º  ")).
  vm_compute. repeat (constructor; [discriminate|]). constructor.
Defined.

(** ** The preprocessor: tokens *)

(** The pieces of [split] are non-empty and free of whitespace, and
    together they are the text without its whitespace. *)
Lemma split_acc_pieces (s cur : str) :
  Forall (fun c => isspace c = false) cur ->
  Forall (fun piece => piece <> [] /\ Forall (fun c => isspace c = false) piece)
         (split_acc cur s).
Proof.
  revert cur. induction s as [|c t IH]; intros cur Hcur; cbn [split_acc].
  - destruct cur as [|x cur']; constructor; [|constructor].
    split.
    + intro H. apply (f_equal (@List.length char)) in H.
      rewrite length_rev in H. discriminate.
    + apply Forall_rev. exact Hcur.
  - destruct (isspace c) eqn:E.
    + destruct cur as [|x cur']; [apply IH; constructor|].
      constructor; [|apply IH; constructor].
      split.
      * intro H. apply (f_equal (@List.length char)) in H.
        rewrite length_rev in H. discriminate.
      * apply Forall_rev. exact Hcur.
    + apply IH. constructor; assumption.
Qed.

Lemma filter_all {A} (p : A -> bool) (l : list A) :
  Forall (fun a => p a = true) l -> filter p l = l.
Proof.
  induction 1 as [|a t Ha _ IH]; cbn [filter]; [reflexivity|].
  rewrite Ha, IH. reflexivity.
Qed.

Lemma split_acc_concat (s cur : str) :
  List.concat (split_acc cur s)
  = rev cur ++ filter (fun c => negb (isspace c)) s.
Proof.
  revert cur. induction s as [|c t IH]; intro cur;
    cbn [split_acc filter].
  - destruct cur; cbn [List.concat]; rewrite ?app_nil_r; reflexivity.
  - destruct (isspace c) eqn:E; cbn [negb].
    + destruct cur as [|x cur'].
      * apply IH.
      * cbn [List.concat]. rewrite IH. reflexivity.
    + rewrite IH. cbn [rev]. rewrite <- app_assoc. reflexivity.
Qed.

Lemma split_concat (s : str) :
  List.concat (split s) = filter (fun c => negb (isspace c)) s.
Proof. unfold split. rewrite split_acc_concat. reflexivity. Qed.

Lemma lstrip_blank (s : str) : forallb isspace s = true -> lstrip s = [].
Proof.
  induction s as [|c t IH]; cbn [forallb lstrip]; [reflexivity|].
  intro H. apply andb_true_iff in H. destruct H as [Hc Ht].
  rewrite Hc. apply IH, Ht.
Qed.

(** X10. Tokens.  The tokens of a text are the pieces of its normalized
    form between whitespace: none is empty, none contains whitespace, and
    concatenated they are the normalized text without its whitespace.  A
    text of whitespace only, the empty text included, normalizes to the
    empty text and has no token. *)
Theorem tokenize_pieces (s : str) :
  Forall (fun token => token <> [] /\ forallb isspace token = false
                       /\ Forall (fun c => isspace c = false) token)
         (Preprocessor.tokenize s)
  /\ List.concat (Preprocessor.tokenize s)
     = filter (fun c => negb (isspace c)) (Preprocessor.normalize_text s)
  /\ (forallb isspace s = true ->
      Preprocessor.normalize_text s = [] /\ Preprocessor.tokenize s = []).
Proof.
  assert (Hpieces : forall t,
            Forall (fun piece => piece <> []
                                 /\ Forall (fun c => isspace c = false) piece)
                   (split t)).
  { intro t. apply split_acc_pieces. constructor. }
  assert (Htok : forall t,
            filter (fun token => negb (str_eqb token [])) (split t) = split t).
  { intro t. apply filter_all. eapply Forall_impl; [|apply Hpieces].
    intros piece [Hne _]. cbv beta.
    rewrite str_eqb_neq by exact Hne. reflexivity. }
  unfold Preprocessor.tokenize. rewrite Htok.
  split; [|split].
  - eapply Forall_impl; [|apply Hpieces].
    intros piece [Hne Hp]. cbv beta. split; [exact Hne|]. split; [|exact Hp].
    destruct piece as [|c t]; [contradiction|].
    inversion Hp; subst. cbn [forallb].
    match goal with H : isspace c = false |- _ => rewrite H end. reflexivity.
  - apply split_concat.
  - intro Hb.
    assert (Hn : Preprocessor.normalize_text s = []).
    { rewrite normalize_text_steps. unfold strip.
      rewrite (lstrip_blank s Hb). reflexivity. }
    rewrite Hn. split; reflexivity.
Qed.

(** ** The preprocessor: the groups are the runs of close blocks *)

Lemma Sorted_snoc {A} (R : A -> A -> Prop) (l : list A) (x d : A) :
  Sorted R l -> (l <> [] -> R (last l d) x) -> Sorted R (l ++ [x]).
Proof.
  induction l as [|a t IH]; intros Hs Hl; cbn [app].
  - constructor; constructor.
  - inversion Hs as [|? ? Hs' Hh]; subst. constructor.
    + apply IH; [exact Hs'|]. intro Hne. destruct t as [|b t'];
        [contradiction|]. apply Hl. discriminate.
    + destruct t as [|b t']; cbn [app].
      * constructor. apply Hl. discriminate.
      * inversion Hh; subst. constructor. assumption.
Qed.

Lemma Sorted_replace_last {A} (R : A -> A -> Prop) (l : list A) (g g' : A) :
  Sorted R (l ++ [g]) -> (forall h, R h g -> R h g') -> Sorted R (l ++ [g']).
Proof.
  induction l as [|a t IH]; intros Hs Hr; cbn [app] in *.
  - constructor; constructor.
  - inversion Hs as [|? ? Hs' Hh]; subst. constructor.
    + apply IH; assumption.
    + destruct t as [|b t']; cbn [app] in *.
      * inversion Hh; subst. constructor. apply Hr. assumption.
      * inversion Hh; subst. constructor. assumption.
Qed.

Lemma last_snoc_default {A} (l : list A) (d d' : A) :
  l <> [] -> last l d = last l d'.
Proof.
  induction l as [|a t IH]; intro H; [contradiction|].
  destruct t as [|b t']; [reflexivity|].
  cbn [last] in *. apply IH. discriminate.
Qed.

(** The loop of [group_blocks] keeps the groups runs of close blocks,
    separated where a block does not continue the group before it. *)
Lemma group_loop_runs (md : float) (blocks : list TextBlock)
      (groups : list (list TextBlock)) (current : list TextBlock) :
  current <> [] ->
  Sorted (fun a b => continues md a b = true) current ->
  Forall (Sorted (fun a b => continues md a b = true)) groups ->
  Sorted (breaks_before md) (groups ++ [current]) ->
  let out := Preprocessor.group_loop md blocks groups current in
  Forall (Sorted (fun a b => continues md a b = true)) out
  /\ Sorted (breaks_before md) out.
Proof.
  cbv zeta. revert groups current.
  induction blocks as [|block t IH]; intros groups current Hne Hc Hg Hb;
    cbn [Preprocessor.group_loop].
  - split; [|exact Hb]. apply Forall_app. split; [exact Hg|].
    constructor; [exact Hc | constructor].
  - fold (continues md (last current block) block).
    destruct (continues md (last current block) block) eqn:E.
    + apply IH.
      * destruct current; discriminate.
      * apply Sorted_snoc with (d := block); [exact Hc|]. intros _. exact E.
      * exact Hg.
      * apply Sorted_replace_last with (g := current); [exact Hb|].
        intros h Hh b Hhd. apply Hh.
        destruct current as [|c0 ct]; [contradiction | exact Hhd].
    + apply IH.
      * discriminate.
      * constructor; constructor.
      * apply Forall_app. split; [exact Hg|].
        constructor; [exact Hc | constructor].
      * apply Sorted_snoc with (d := current); [exact Hb|].
        intros _. rewrite last_last.
        intros b Hhd. injection Hhd as <-. exact E.
Qed.

(** X11. Inside a group of [group_blocks], each block continues the one
    before it: it is vertically closer than [max_distance] and starts less
    than twice [max_distance] to the right of its end, both differences
    being those of binary64, rounded as the code computes them.  The first
    block of a group does not continue the last block of the group
    before. *)
Theorem group_blocks_runs (blocks : list TextBlock) (max_distance : float) :
  let groups := Preprocessor.group_blocks blocks max_distance in
  Forall (Sorted (fun a b => continues max_distance a b = true)) groups
  /\ Sorted (breaks_before max_distance) groups.
Proof.
  cbv zeta. unfold Preprocessor.group_blocks.
  destruct blocks as [|b0 bt]; [split; constructor|].
  destruct (Preprocessor.sorted (b0 :: bt)) as [|first others];
    [split; constructor|].
  apply group_loop_runs.
  - discriminate.
  - constructor; constructor.
  - constructor.
  - cbn [app]. constructor; constructor.
Qed.

(** On the sample page, in reading order [a], [c], [b], [d]: [c] starts
    far to the right of [a], [b] continues [c] because it starts to its
    left, and [d] is far below. *)
Example group_blocks_runs_sample :
  map (map text) (Preprocessor.group_blocks sample_page 20)
  = [[py "a"]; [py "c"; py "b"]; [py "d"]].
Proof. vm_compute. reflexivity. Qed.

(** ** The decision engine: accepted and pending fields *)

Section DecisionFacts.
Import DecisionEngine.
Variable extraction_schema : dict str.

(** Where an accepted value comes from. *)
Lemma final_values_origin (results l : field_results) (st : loop_state) :
  let P k v :=
    exists cr,
      In (k, Some cr) results
      /\ v = JStr (_normalize_value (c_text (sc_candidate cr)) k)
      /\ ((T_HIGH <=? final_score cr)%float
          || (T_LOW <=? final_score cr)%float
          || _deterministic_accept k (c_text (sc_candidate cr))) = true in
  incl l results ->
  (forall k v, get k (final_values st) = Some v -> P k v) ->
  forall k v,
    get k (final_values (fold_left (process_field extraction_schema) l st))
    = Some v -> P k v.
Proof.
  cbv zeta. revert st.
  induction l as [|[k0 o] t IH]; intros st Hincl Hst; cbn [fold_left].
  - exact Hst.
  - apply IH; [intros x Hx; apply Hincl; right; exact Hx|].
    assert (Hin : In (k0, o) results) by (apply Hincl; left; reflexivity).
    unfold process_field. cbn [fst snd].
    destruct o as [cr|]; [|exact Hst].
    assert (Hacc : forall b,
              ((T_HIGH <=? final_score cr)%float
               || (T_LOW <=? final_score cr)%float
               || _deterministic_accept k0 (c_text (sc_candidate cr))) = b ->
              b = true ->
              forall k v,
                get k (final_values
                         (accept st k0
                            (_normalize_value (c_text (sc_candidate cr)) k0)))
                = Some v ->
                exists cr0,
                  In (k, Some cr0) results
                  /\ v = JStr (_normalize_value (c_text (sc_candidate cr0)) k)
                  /\ ((T_HIGH <=? final_score cr0)%float
                      || (T_LOW <=? final_score cr0)%float
                      || _deterministic_accept
                           k (c_text (sc_candidate cr0))) = true).
    { intros b Hb -> k v. cbn [accept final_values]. rewrite get_set.
      destruct (str_eqb k0 k) eqn:Ek.
      - apply str_eqb_eq in Ek. subst k. intro H. injection H as <-.
        exists cr. auto.
      - apply Hst. }
    destruct (T_HIGH <=? final_score cr)%float eqn:E1.
    + apply (Hacc _ eq_refl). reflexivity.
    + destruct (T_LOW <=? final_score cr)%float eqn:E2.
      * apply (Hacc _ eq_refl). reflexivity.
      * destruct (_deterministic_accept k0 (c_text (sc_candidate cr))) eqn:E3.
        -- apply (Hacc _ eq_refl). reflexivity.
        -- exact Hst.
Qed.

(** The pending fields are the fields without an accepted value, in the
    order of the results. *)
Lemma pending_fields_order (results : field_results) (st : loop_state) :
  NoDup (keys results) ->
  (forall k, In k (keys results) -> mem k (final_values st) = false) ->
  let st' := fold_left (process_field extraction_schema) results st in
  pending_fields st'
  = pending_fields st
    ++ map fst (filter (fun item => negb (mem (fst item) (final_values st')))
                       results).
Proof.
  cbv zeta. revert st.
  induction results as [|[k o] t IH]; intros st Hnd Hfresh.
  - cbn. rewrite app_nil_r. reflexivity.
  - cbn [fold_left]. cbn [keys map fst] in Hnd, Hfresh.
    inversion Hnd as [|? ? Hk Hnd']; subst.
    set (st1 := process_field extraction_schema st (k, o)).
    assert (Hfresh1 : forall k', In k' (keys t) ->
                        mem k' (final_values st1) = false).
    { intros k' Hk'. unfold st1.
      destruct (process_field_cases extraction_schema st k o)
        as [[v ->] | ->]; cbn [accept defer final_values].
      - rewrite mem_set. rewrite (Hfresh k' (or_intror Hk')).
        rewrite str_eqb_neq; [reflexivity|]. intro; subst. contradiction.
      - apply Hfresh. right. exact Hk'. }
    assert (Hp : pending_fields st1
                 = if is_some (get k (final_values st1))
                   then pending_fields st else pending_fields st ++ [k]).
    { unfold st1.
      destruct (process_field_cases extraction_schema st k o)
        as [[v ->] | ->]; cbn [accept defer final_values pending_fields].
      - rewrite get_set_eq. reflexivity.
      - pose proof (Hfresh k (or_introl eq_refl)) as Hf. unfold mem in Hf.
        rewrite Hf. reflexivity. }
    rewrite (IH st1 Hnd' Hfresh1). cbn [filter fst].
    destruct (@process_fields_other extraction_schema t st1 k Hk) as [Eg _].
    cbv zeta in Eg. unfold mem at 2. rewrite Eg, Hp.
    destruct (get k (final_values st1)); cbn [is_some negb map fst].
    + reflexivity.
    + rewrite <- app_assoc. reflexivity.
Qed.

End DecisionFacts.

(** X12. The loop of the decision engine, on results without repeated
    fields: the pending fields are exactly the fields without an accepted
    value, in the order of the results; and an accepted value is always a
    string, the normalized text of the field's best candidate, whose score
    reached a threshold or whose text passed the override. *)
Theorem process_fields_partition
        (extraction_schema : dict str)
        (results : DecisionEngine.field_results) :
  NoDup (keys results) ->
  let st := DecisionEngine.process_fields extraction_schema results in
  DecisionEngine.pending_fields st
  = map fst (filter (fun item =>
                       negb (mem (fst item) (DecisionEngine.final_values st)))
                    results)
  /\ forall k v,
       get k (DecisionEngine.final_values st) = Some v ->
       exists cr,
         In (k, Some cr) results
         /\ v = JStr (DecisionEngine._normalize_value
                        (c_text (sc_candidate cr)) k)
         /\ ((T_HIGH <=? final_score cr)%float
             || (T_LOW <=? final_score cr)%float
             || DecisionEngine._deterministic_accept
                  k (c_text (sc_candidate cr))) = true.
Proof.
  intros Hnd st. split.
  - apply (@pending_fields_order extraction_schema results
             (DecisionEngine.mkLoop [] []) Hnd).
    intros k _. reflexivity.
  - apply (@final_values_origin extraction_schema results results
             (DecisionEngine.mkLoop [] [])).
    + apply incl_refl.
    + intros k v H. discriminate H.
Qed.

Lemma process_fields_partition_witness :
  let st := DecisionEngine.process_fields sample_schema sample_results in
  DecisionEngine.pending_fields st
  = map fst (filter (fun item =>
                       negb (mem (fst item) (DecisionEngine.final_values st)))
                    sample_results)
  /\ forall k v,
       get k (DecisionEngine.final_values st) = Some v ->
       exists cr,
         In (k, Some cr) sample_results
         /\ v = JStr (DecisionEngine._normalize_value
                        (c_text (sc_candidate cr)) k)
         /\ ((T_HIGH <=? final_score cr)%float
             || (T_LOW <=? final_score cr)%float
             || DecisionEngine._deterministic_accept
                  k (c_text (sc_candidate cr))) = true.
Proof.
  apply (@process_fields_partition sample_schema sample_results).
  repeat (constructor; [vm_compute; intuition discriminate|]).
  constructor.
Defined.

(** On the sample results the field [cpf] is accepted through the
    override and the two absent fields are pending, in their order. *)
Example process_fields_sample :
  let st := DecisionEngine.process_fields sample_schema sample_results in
  DecisionEngine.pending_fields st = [py "cidade"; py "uf"]
  /\ DecisionEngine.final_values st
     = [(py "cpf", JStr (py "123.456.789-09"))].
Proof. split; vm_compute; reflexivity. Qed.

(** ** The decision engine: the request to the fallback and its merge *)

Lemma text_snippet_prefix (document_full_text : str) :
  text_snippet document_full_text = firstn 3000 document_full_text.
Proof.
  unfold text_snippet, slice_to.
  destruct (Nat.ltb 3000 (List.length document_full_text)) eqn:E;
    [reflexivity|].
  apply Nat.ltb_ge in E. symmetry. apply firstn_all2. exact E.
Qed.

Lemma str_eqb_sym (a b : str) : str_eqb a b = str_eqb b a.
Proof.
  destruct (str_eqb a b) eqn:E.
  - apply str_eqb_eq in E. subst. symmetry. apply str_eqb_refl.
  - destruct (str_eqb b a) eqn:E'; [|reflexivity].
    apply str_eqb_eq in E'. subst. rewrite str_eqb_refl in E. discriminate.
Qed.

(** The dictionary comprehension of [_call_llm]: it raises on the first
    pending field that the schema lacks, and otherwise maps every pending
    field to its description. *)
Lemma pending_schema_of_inv (extraction_schema : dict str)
      (pending : list str) (acc : dict str) :
  match DecisionEngine.pending_schema_of extraction_schema pending acc with
  | inl e =>
      exists k, e = KeyError k /\ In k pending
                /\ mem k extraction_schema = false
  | inr ps =>
      (forall k, In k pending -> mem k extraction_schema = true)
      /\ forall k, get k ps
                   = if existsb (str_eqb k) pending
                     then get k extraction_schema else get k acc
  end.
Proof.
  revert acc. induction pending as [|f t IH]; intro acc;
    cbn [DecisionEngine.pending_schema_of].
  - split; [intros k [] | intro k; reflexivity].
  - destruct (get f extraction_schema) as [description|] eqn:Ef.
    + specialize (IH (set f description acc)).
      destruct (DecisionEngine.pending_schema_of extraction_schema t
                  (set f description acc)) as [e|ps].
      * destruct IH as (k & He & Hin & Hk). exists k.
        split; [exact He|]. split; [right; exact Hin | exact Hk].
      * destruct IH as [Hall Hget]. split.
        -- intros k [<- | Hk]; [unfold mem; rewrite Ef; reflexivity|].
           apply Hall, Hk.
        -- intro k. rewrite Hget. cbn [existsb]. rewrite get_set.
           rewrite (str_eqb_sym f k).
           destruct (str_eqb k f) eqn:Ek.
           ++ apply str_eqb_eq in Ek. subst k. cbn [orb]. rewrite Ef.
              destruct (existsb (str_eqb f) t); reflexivity.
           ++ cbn [orb]. reflexivity.
    + exists f. split; [reflexivity|]. split; [left; reflexivity|].
      unfold mem. rewrite Ef. reflexivity.
Qed.

(** [process_extraction], step by step. *)
Lemma process_extraction_eq
      (service : llm_request -> llm_outcome)
      (results : DecisionEngine.field_results) (label : str)
      (extraction_schema : dict str) (document_full_text : str) (w : world) :
  DecisionEngine.process_extraction
    service results label extraction_schema document_full_text w
  = let st := DecisionEngine.process_fields extraction_schema results in
    let w0 := mkWorld (llm_calls w) false (label_cache w) in
    match DecisionEngine.pending_fields st with
    | [] => (inr (DecisionEngine.final_values st), w0)
    | _ :: _ =>
        match DecisionEngine.pending_schema_of
                extraction_schema (DecisionEngine.pending_fields st) [] with
        | inl e => (inl e, w0)
        | inr ps =>
            match LLMClient.extract_fields
                    service label ps (text_snippet document_full_text)
                    (DecisionEngine.final_values st) w0 with
            | (inl e, w1) => (inl e, w1)
            | (inr d, w1) =>
                (inr (update (DecisionEngine.final_values st) d),
                 mkWorld (llm_calls w1) true (label_cache w1))
            end
        end
    end.
Proof.
  unfold DecisionEngine.process_extraction, DecisionEngine._call_llm,
    text_snippet.
  cbv zeta.
  destruct (DecisionEngine.pending_fields
              (DecisionEngine.process_fields extraction_schema results))
    as [|p0 pt]; [reflexivity|].
  unfold bind, set_flag, lift.
  destruct (DecisionEngine.pending_schema_of extraction_schema (p0 :: pt) [])
    as [e|ps]; [reflexivity|].
  destruct (LLMClient.extract_fields _ _ _ _ _ _) as [[e|d] w1]; reflexivity.
Qed.

(** X13. A missing description.  [process_extraction] raises exactly when
    some pending field has no entry in the schema: the exception is the
    [KeyError] of such a field, no request has been made, and the flag is
    left at false.  An accepted field without an entry does not raise. *)
Theorem process_extraction_missing_description
        (service : llm_request -> llm_outcome)
        (results : DecisionEngine.field_results) (label : str)
        (extraction_schema : dict str) (document_full_text : str)
        (w : world) :
  let st := DecisionEngine.process_fields extraction_schema results in
  let r := DecisionEngine.process_extraction
             service results label extraction_schema document_full_text w in
  match fst r with
  | inr _ =>
      forall k, In k (DecisionEngine.pending_fields st) ->
                mem k extraction_schema = true
  | inl e =>
      (exists k, e = KeyError k
                 /\ In k (DecisionEngine.pending_fields st)
                 /\ mem k extraction_schema = false)
      /\ snd r = mkWorld (llm_calls w) false (label_cache w)
  end.
Proof.
  cbv zeta. rewrite process_extraction_eq. cbv zeta.
  destruct (DecisionEngine.pending_fields
              (DecisionEngine.process_fields extraction_schema results))
    as [|p0 pt] eqn:Ep.
  - cbn. intros k [].
  - pose proof (pending_schema_of_inv extraction_schema (p0 :: pt) []) as Hps.
    destruct (DecisionEngine.pending_schema_of extraction_schema (p0 :: pt) [])
      as [e|ps].
    + cbn [fst snd]. split; [exact Hps | reflexivity].
    + match goal with
      | |- context [LLMClient.extract_fields service label ps ?doc ?ctx ?w0] =>
          destruct (extract_fields_spec service label ps doc ctx w0)
            as [d [-> _]]
      end.
      cbn [fst]. apply Hps.
Qed.

(** With a candidate-free field that the schema lacks, the call raises
    and asks nothing. *)
Example missing_description_sample :
  DecisionEngine.process_extraction
    null_service [(py "cidade", None)] (py "fatura") [] (py "texto")
    initial_world
  = (inl (KeyError (py "cidade")), initial_world).
Proof. vm_compute. reflexivity. Qed.

(** X14. The request to the fallback and the merge of its answer.  A call
    of [process_extraction] that returns with pending fields has made one
    request: for the given label, the first 3000 characters of the
    document text, the accepted values as context, and the pending fields
    with their descriptions.  In the outcome a key of the reply has the
    value of the reply, also where a value had been accepted and where
    the key is no field; a pending field that the reply lacks, or any
    pending field when the service fails, has the empty string; every
    other key keeps its accepted value.  Without pending fields the
    outcome is the accepted values and nothing is asked. *)
Theorem fallback_request_and_merge
        (service : llm_request -> llm_outcome)
        (results : DecisionEngine.field_results) (label : str)
        (extraction_schema : dict str) (document_full_text : str)
        (w : world) :
  let st := DecisionEngine.process_fields extraction_schema results in
  let pending k := existsb (str_eqb k) (DecisionEngine.pending_fields st) in
  let r := DecisionEngine.process_extraction
             service results label extraction_schema document_full_text w in
  match fst r with
  | inl _ => llm_calls (snd r) = llm_calls w
  | inr out =>
      match DecisionEngine.pending_fields st with
      | [] =>
          out = DecisionEngine.final_values st
          /\ llm_calls (snd r) = llm_calls w
      | _ :: _ =>
          exists rq,
            llm_calls (snd r) = llm_calls w ++ [rq]
            /\ rq_label rq = label
            /\ rq_document_text rq = firstn 3000 document_full_text
            /\ rq_extracted_context rq = DecisionEngine.final_values st
            /\ (forall k, get k (rq_fields rq)
                          = if pending k then get k extraction_schema
                            else None)
            /\ match service rq with
               | ServiceError =>
                   forall k,
                     get k out
                     = if pending k then Some (JStr (py ""))
                       else get k (DecisionEngine.final_values st)
               | Reply reply =>
                   NoDup (keys reply) ->
                   forall k,
                     get k out
                     = match get k reply with
                       | Some v => Some v
                       | None =>
                           if pending k then Some (JStr (py ""))
                           else get k (DecisionEngine.final_values st)
                       end
               end
      end
  end.
Proof.
  cbv zeta. rewrite process_extraction_eq. cbv zeta.
  destruct (DecisionEngine.pending_fields
              (DecisionEngine.process_fields extraction_schema results))
    as [|p0 pt] eqn:Ep.
  - cbn. auto.
  - pose proof (pending_schema_of_inv extraction_schema (p0 :: pt) []) as Hps.
    destruct (DecisionEngine.pending_schema_of extraction_schema (p0 :: pt) [])
      as [e|ps]; [reflexivity|].
    destruct Hps as [Hall Hget].
    assert (Hmem : forall k, mem k ps = existsb (str_eqb k) (p0 :: pt)).
    { intro k. unfold mem at 1. rewrite Hget.
      destruct (existsb (str_eqb k) (p0 :: pt)) eqn:Ex; [|reflexivity].
      apply existsb_exists in Ex. destruct Ex as [f [Hf Ek]].
      apply str_eqb_eq in Ek. subst f. apply Hall in Hf. exact Hf. }
    match goal with
    | |- context [LLMClient.extract_fields service label ps ?doc ?ctx ?w0] =>
        destruct (extract_fields_spec service label ps doc ctx w0)
          as [d [-> [_ Hd]]]
    end.
    cbn [fst snd llm_calls].
    eexists. split; [reflexivity|].
    cbn [rq_label rq_document_text rq_extracted_context rq_fields].
    split; [reflexivity|]. split; [apply text_snippet_prefix|].
    split; [reflexivity|]. split; [exact Hget|].
    destruct (service _) as [|reply].
    + destruct Hd as [Hnd Hd]. intro k.
      rewrite get_update by exact Hnd. rewrite Hd, Hmem.
      destruct (existsb (str_eqb k) (p0 :: pt)); reflexivity.
    + destruct Hd as [Hnd Hd]. intros Hr k.
      rewrite get_update by (apply Hnd, Hr). rewrite Hd, Hmem.
      destruct (get k reply); [reflexivity|].
      destruct (existsb (str_eqb k) (p0 :: pt)); reflexivity.
Qed.

(** A reply overrides an accepted value and may add a key that is no
    field: here [cpf] had been accepted and [total] is not in the
    schema. *)
Example reply_overrides_accepted_value :
  fst (DecisionEngine.process_extraction
         (fun _ => Reply [(py "cpf", JStr (py "000")); (py "total", JInt 7)])
         sample_results (py "fatura") sample_schema (py "texto")
         initial_world)
  = inr [(py "cpf", JStr (py "000")); (py "total", JInt 7);
         (py "cidade", JStr (py "")); (py "uf", JStr (py ""))].
Proof. vm_compute. reflexivity. Qed.

(** ** The field results of an extraction *)


Section FieldResultFacts.
Variable E : collaborators.




End FieldResultFacts.


(** The field results of the sample document: the candidate of the
    pattern source wins with a score of 0.585. *)
Example field_results_sample :
  match PDFExtractor.field_results_of
          (sample_collaborators cpf_document null_service) (py "fatura")
          [(py "cpf", py "número do CPF")] cpf_document initial_world with
  | (inr [(k, Some best)], _) =>
      k = py "cpf"
      /\ c_text (sc_candidate best) = py "123.456.789-09"
      /\ c_method (sc_candidate best) = MRegex
      /\ final_score best = 0.585%float
  | _ => False
  end.
Proof. vm_compute. repeat split; reflexivity. Qed.

(** ** The empty schema *)


(** ** Normalized values are stable *)

Lemma format_cnpj_shape (digits : str) :
  List.length digits = 14 ->
  exists a b c d e,
    digits = a ++ b ++ c ++ d ++ e
    /\ DecisionEngine.format_cnpj digits
       = a ++ py "." ++ b ++ py "." ++ c ++ py "/" ++ d ++ py "-" ++ e.
Proof.
  intro H.
  do 14 (destruct digits as [|? digits]; [discriminate|]).
  destruct digits; [|discriminate].
  eexists [_; _], [_; _; _], [_; _; _], [_; _; _; _], [_; _].
  split; reflexivity.
Qed.

Lemma Forall_isdigit_filter (s : str) :
  Forall (fun c => isdigit c = true) (filter_isdigit s).
Proof.
  apply Forall_forall. intros c Hc. unfold filter_isdigit in Hc.
  apply filter_In in Hc. apply Hc.
Qed.

Lemma filter_isdigit_format_cpf (digits : str) :
  List.length digits = 11 ->
  Forall (fun c => isdigit c = true) digits ->
  filter_isdigit (DecisionEngine.format_cpf digits) = digits.
Proof.
  intros Hlen Hd.
  destruct (format_cpf_shape digits Hlen)
    as (a & b & c0 & d & Heq & _ & _ & _ & _ & ->).
  rewrite Heq in Hd |- *.
  repeat (apply Forall_app in Hd; destruct Hd as [? Hd]).
  unfold filter_isdigit. rewrite !filter_app.
  change (filter isdigit (py ".")) with (@nil char).
  change (filter isdigit (py "-")) with (@nil char).
  rewrite !filter_all by assumption. reflexivity.
Qed.

Lemma filter_isdigit_format_cnpj (digits : str) :
  List.length digits = 14 ->
  Forall (fun c => isdigit c = true) digits ->
  filter_isdigit (DecisionEngine.format_cnpj digits) = digits.
Proof.
  intros Hlen Hd.
  destruct (format_cnpj_shape digits Hlen)
    as (a & b & c0 & d & e & Heq & ->).
  rewrite Heq in Hd |- *.
  repeat (apply Forall_app in Hd; destruct Hd as [? Hd]).
  unfold filter_isdigit. rewrite !filter_app.
  change (filter isdigit (py ".")) with (@nil char).
  change (filter isdigit (py "-")) with (@nil char).
  change (filter isdigit (py "/")) with (@nil char).
  rewrite !filter_all by assumption. reflexivity.
Qed.

Lemma latin1_forallb (s : str) :
  forallb (fun c => (c <=? 255)%N) s = true -> latin1 s.
Proof.
  intro H. apply Forall_forall. intros c Hc.
  rewrite forallb_forall in H. apply N.leb_le, H, Hc.
Qed.

Ltac latin1_pieces :=
  repeat first
    [ assumption
    | apply Forall_nil
    | apply Forall_cons; [cbv; discriminate|]
    | match goal with
      | |- Forall _ (_ ++ _) => apply Forall_app; split
      end ].

(** X17. The punctuated national and company IDs are stable, on a value
    and a field name within U+0000..U+00FF (where the character tables of
    this development are those of the code).  On a field with the marker
    [cpf] and a value with eleven digit characters, or with the marker
    [cnpj] and fourteen, the normalized value keeps the digit characters
    of the value in their order, it is again within U+0000..U+00FF, and
    normalizing it again changes nothing. *)
Theorem id_normalization_idempotent (value field_name : str) :
  latin1 value ->
  latin1 field_name ->
  (contains (py "cpf") (lower field_name) = true
   /\ List.length (filter_isdigit value) = 11)
  \/ (contains (py "cnpj") (lower field_name) = true
      /\ List.length (filter_isdigit value) = 14) ->
  let v := DecisionEngine._normalize_value value field_name in
  filter_isdigit v = filter_isdigit value
  /\ latin1 v
  /\ DecisionEngine._normalize_value v field_name = v.
Proof.
  intros Hl _ H v.
  pose proof (Forall_isdigit_filter value) as Hd.
  assert (Hld : latin1 (filter_isdigit value)).
  { apply Forall_forall. intros c Hc. unfold filter_isdigit in Hc.
    apply filter_In in Hc. destruct Hc as [Hc _].
    unfold latin1 in Hl. rewrite Forall_forall in Hl. apply Hl, Hc. }
  destruct H as [[Hm Hlen] | [Hm Hlen]].
  - assert (Hv : v = DecisionEngine.format_cpf (filter_isdigit value)).
    { unfold v, DecisionEngine._normalize_value.
      rewrite Hm, filter_isdigit_join_split, Hlen. reflexivity. }
    assert (Hf : filter_isdigit v = filter_isdigit value).
    { rewrite Hv. apply filter_isdigit_format_cpf; assumption. }
    split; [exact Hf|]. split.
    + rewrite Hv.
      destruct (format_cpf_shape (filter_isdigit value) Hlen)
        as (a & b & c0 & d & Heq & _ & _ & _ & _ & ->).
      rewrite Heq in Hld. unfold latin1 in *.
      repeat (apply Forall_app in Hld; destruct Hld as [? Hld]).
      latin1_pieces.
    + unfold DecisionEngine._normalize_value at 1.
      rewrite Hm, filter_isdigit_join_split, Hf, Hlen. cbn [andb Nat.eqb].
      symmetry. exact Hv.
  - assert (Hv : v = DecisionEngine.format_cnpj (filter_isdigit value)).
    { unfold v, DecisionEngine._normalize_value.
      rewrite Hm, filter_isdigit_join_split, Hlen.
      rewrite andb_false_r. reflexivity. }
    assert (Hf : filter_isdigit v = filter_isdigit value).
    { rewrite Hv. apply filter_isdigit_format_cnpj; assumption. }
    split; [exact Hf|]. split.
    + rewrite Hv.
      destruct (format_cnpj_shape (filter_isdigit value) Hlen)
        as (a & b & c0 & d & e & Heq & ->).
      rewrite Heq in Hld. unfold latin1 in *.
      repeat (apply Forall_app in Hld; destruct Hld as [? Hld]).
      latin1_pieces.
    + unfold DecisionEngine._normalize_value at 1.
      rewrite Hm, filter_isdigit_join_split, Hf, Hlen.
      rewrite andb_false_r. cbn [andb Nat.eqb].
      symmetry. exact Hv.
Qed.

Lemma id_normalization_idempotent_witness :
  latin1 (py "CNPJ 12 345 678 / 0001 - 95")
  /\ latin1 (py "cnpj_emitente")
  /\ let v := DecisionEngine._normalize_value
                (py "CNPJ 12 345 678 / 0001 - 95") (py "cnpj_emitente") in
     filter_isdigit v = filter_isdigit (py "CNPJ 12 345 678 / 0001 - 95")
     /\ latin1 v
     /\ DecisionEngine._normalize_value v (py "cnpj_emitente") = v.
Proof.
  assert (H1 : latin1 (py "CNPJ 12 345 678 / 0001 - 95"))
    by (apply latin1_forallb; vm_compute; reflexivity).
  assert (H2 : latin1 (py "cnpj_emitente"))
    by (apply latin1_forallb; vm_compute; reflexivity).
  split; [exact H1|]. split; [exact H2|].
  apply (@id_normalization_idempotent
           (py "CNPJ 12 345 678 / 0001 - 95") (py "cnpj_emitente") H1 H2).
  right. split; vm_compute; reflexivity.
Defined.

Example id_normalization_samples :
  DecisionEngine._normalize_value
    (py "CNPJ 12 345 678 / 0001 - 95") (py "cnpj_emitente")
  = py "12.345.678/0001-95"
  /\ DecisionEngine._normalize_value (py "123 456 789 09") (py "CPF")
     = py "123.456.789-09".
Proof. split; vm_compute; reflexivity. Qed.

(** Splitting a text that was joined with single spaces gives the pieces
    back, when they are non-empty and free of whitespace. *)
Lemma split_acc_piece (piece cur rest : str) :
  Forall (fun c => isspace c = false) piece ->
  split_acc cur (piece ++ rest) = split_acc (rev piece ++ cur) rest.
Proof.
  revert cur. induction piece as [|c t IH]; intros cur H; cbn [app rev].
  - reflexivity.
  - inversion H; subst. cbn [split_acc].
    match goal with Hc : isspace c = false |- _ => rewrite Hc end.
    rewrite IH by assumption. rewrite <- app_assoc. reflexivity.
Qed.

Lemma split_join (pieces : list str) :
  Forall (fun piece => piece <> [] /\ Forall (fun c => isspace c = false) piece)
         pieces ->
  split (join [32%N] pieces) = pieces.
Proof.
  unfold split. induction 1 as [|piece t [Hne Hp] Ht IH]; [reflexivity|].
  assert (Hrev : rev piece <> []).
  { intro H. apply (f_equal (@List.length char)) in H.
    rewrite length_rev in H. destruct piece; [contradiction | discriminate]. }
  destruct t as [|q t'].
  - cbn [join]. rewrite <- (app_nil_r piece) at 1.
    rewrite split_acc_piece by exact Hp. rewrite app_nil_r.
    cbn [split_acc]. destruct (rev piece) eqn:E; [contradiction|].
    rewrite <- E, rev_involutive. reflexivity.
  - change (join [32%N] (piece :: q :: t'))
      with (piece ++ 32%N :: join [32%N] (q :: t')).
    rewrite split_acc_piece by exact Hp. rewrite app_nil_r.
    cbn [split_acc]. change (isspace 32%N) with true. cbv iota.
    destruct (rev piece) eqn:E; [contradiction|].
    rewrite <- E, rev_involutive, IH. reflexivity.
Qed.

(** X18. Free-text values.  On a field whose name has none of the markers
    of [_normalize_value], the normalized value is the value with every
    run of whitespace turned into one space and without whitespace at its
    ends: it has the pieces of the value, and normalizing it again changes
    nothing. *)
Theorem plain_normalization_idempotent (value field_name : str) :
  unmarked_field field_name = true ->
  let v := DecisionEngine._normalize_value value field_name in
  v = join (py " ") (split value)
  /\ split v = split value
  /\ DecisionEngine._normalize_value v field_name = v.
Proof.
  intros Hu v.
  assert (Hplain : forall x,
            DecisionEngine._normalize_value x field_name
            = join (py " ") (split x)).
  { intro x. unfold unmarked_field in Hu. cbn [existsb] in Hu.
    apply negb_true_iff in Hu.
    repeat (apply orb_false_iff in Hu;
            let H := fresh "Hm" in destruct Hu as [H Hu]).
    unfold DecisionEngine._normalize_value.
    rewrite Hm, Hm0, Hm1, Hm2, Hm3, Hm4, Hm5, Hm6, Hm7, Hm8.
    reflexivity. }
  assert (Hs : split (join (py " ") (split value)) = split value).
  { change (py " ") with [32%N]. apply split_join.
    apply split_acc_pieces. constructor. }
  unfold v. rewrite !Hplain, Hs. auto.
Qed.

Lemma plain_normalization_idempotent_witness :
  let v := DecisionEngine._normalize_value
             (py "  Maria   da Silva ") (py "nome") in
  v = join (py " ") (split (py "  Maria   da Silva "))
  /\ split v = split (py "  Maria   da Silva ")
  /\ DecisionEngine._normalize_value v (py "nome") = v.
Proof.
  apply (@plain_normalization_idempotent
           (py "  Maria   da Silva ") (py "nome")).
  vm_compute. reflexivity.
Defined.

Example plain_normalization_sample :
  DecisionEngine._normalize_value (py "  Maria   da Silva ") (py "nome")
  = py "Maria da Silva".
Proof. vm_compute. reflexivity. Qed.

(** ** The ranking of the candidates of a field *)

Section RankingFacts.

Ltac float_cases :=
  repeat match goal with
         | x : spec_float |- _ => destruct x
         | b : bool |- _ => destruct b
         end;
  cbn [SFcompare]; try discriminate; try reflexivity;
  change (PosDef.Pos.compare_cont Eq) with Pos.compare;
  repeat match goal with
         | |- context [Z.compare ?a ?b] => destruct (Z.compare_spec a b)
         | |- context [Pos.compare ?a ?b] => destruct (Pos.compare_spec a b)
         end;
  cbn [CompOpp]; intros; subst; try discriminate; try reflexivity;
  try (exfalso; lia).

Lemma SFleb_total (x y : spec_float) :
  SFeqb x x = true -> SFeqb y y = true ->
  SFltb x y = false -> SFleb y x = true.
Proof. unfold SFeqb, SFltb, SFleb. float_cases. Qed.

Lemma SFleb_trans (x y z : spec_float) :
  SFleb x y = true -> SFleb y z = true -> SFleb x z = true.
Proof. unfold SFleb. float_cases. Qed.

End RankingFacts.

Lemma ltb_false_leb (x y : float) :
  is_number x = true -> is_number y = true ->
  (x <? y)%float = false -> (y <=? x)%float = true.
Proof.
  unfold is_number. rewrite !FloatAxioms.eqb_spec, ltb_spec, leb_spec.
  apply SFleb_total.
Qed.

Lemma leb_trans (x y z : float) :
  (x <=? y)%float = true -> (y <=? z)%float = true -> (x <=? z)%float = true.
Proof. rewrite !leb_spec. apply SFleb_trans. Qed.

Lemma insert_by_score_sorted (x : candidate) (l : list candidate) :
  is_number (c_score x) = true ->
  Forall (fun c => is_number (c_score c) = true) l ->
  StronglySorted not_below l ->
  StronglySorted not_below (CandidateGenerator.insert_by_score x l).
Proof.
  intros Hx Hl Hs. induction Hs as [|y t Hs IH Hy];
    cbn [CandidateGenerator.insert_by_score].
  - constructor; constructor.
  - inversion Hl as [|? ? Hny Hnt]; subst.
    destruct (c_score x <? c_score y)%float eqn:E.
    + constructor; [apply IH; exact Hnt|].
      apply Forall_forall. intros z Hz.
      eapply Permutation_in in Hz;
        [|apply Permutation_sym, insert_by_score_perm].
      destruct Hz as [<- | Hz].
      * unfold not_below. apply ltb_leb, E.
      * rewrite Forall_forall in Hy. apply Hy, Hz.
    + assert (Hyx : not_below x y).
      { unfold not_below. apply ltb_false_leb; assumption. }
      constructor; [constructor; assumption|].
      constructor; [exact Hyx|].
      apply Forall_forall. intros z Hz. rewrite Forall_forall in Hy.
      unfold not_below in *. eapply leb_trans; [apply Hy, Hz | exact Hyx].
Qed.

Lemma sort_by_score_sorted (l : list candidate) :
  Forall (fun c => is_number (c_score c) = true) l ->
  StronglySorted not_below (CandidateGenerator.sort_by_score l).
Proof.
  induction 1 as [|x t Hx Ht IH]; cbn [CandidateGenerator.sort_by_score].
  - constructor.
  - apply insert_by_score_sorted; [exact Hx | | exact IH].
    apply Forall_forall. intros c Hc.
    eapply Permutation_in in Hc; [|apply Permutation_sym, sort_by_score_perm].
    rewrite Forall_forall in Ht. apply Ht, Hc.
Qed.

Lemma StronglySorted_cross {A} (R : A -> A -> Prop) (l1 l2 : list A) :
  StronglySorted R (l1 ++ l2) ->
  forall a b, In a l1 -> In b l2 -> R a b.
Proof.
  induction l1 as [|x t IH]; intros Hs a b Ha Hb; [contradiction|].
  cbn [app] in Hs. inversion Hs as [|? ? Hs' Hx]; subst.
  destruct Ha as [<- | Ha].
  - rewrite Forall_forall in Hx. apply Hx. apply in_or_app. right. exact Hb.
  - apply IH; assumption.
Qed.

(** X19. The ranking.  When no score is a NaN, the candidates of a field
    are ranked in descending order of score: the ranked list is a
    permutation of the list, no candidate is listed before one that
    scores more, and every candidate cut by [top_k] scores no more than
    every candidate that is kept. *)
Theorem ranking_keeps_the_best (candidates : list candidate) (top_k : nat) :
  Forall (fun c => is_number (c_score c) = true) candidates ->
  let ranked := CandidateGenerator.sort_by_score candidates in
  Permutation candidates ranked
  /\ StronglySorted not_below ranked
  /\ forall kept cut,
       In kept (firstn top_k ranked) -> In cut (skipn top_k ranked) ->
       (c_score cut <=? c_score kept)%float = true.
Proof.
  intros Hn ranked.
  assert (Hs : StronglySorted not_below ranked)
    by (apply sort_by_score_sorted; exact Hn).
  split; [apply sort_by_score_perm|]. split; [exact Hs|].
  intros kept cut Hk Hc.
  rewrite <- (firstn_skipn top_k ranked) in Hs.
  exact (@StronglySorted_cross _ _ _ _ Hs kept cut Hk Hc).
Qed.

Lemma ranking_keeps_the_best_witness :
  let candidates :=
    [ semantic_sample None;
      mkCandidate (py "a") (py "a") (mkBBox 0 0 1 1) 0.4%float MRegex
                  None None None;
      mkCandidate (py "b") (py "b") (mkBBox 0 0 1 1) 0.9%float MSemantic
                  None None (Some 0.5%float) ] in
  let ranked := CandidateGenerator.sort_by_score candidates in
  Permutation candidates ranked
  /\ StronglySorted not_below ranked
  /\ forall kept cut,
       In kept (firstn 2 ranked) -> In cut (skipn 2 ranked) ->
       (c_score cut <=? c_score kept)%float = true.
Proof.
  apply (@ranking_keeps_the_best
           [ semantic_sample None;
             mkCandidate (py "a") (py "a") (mkBBox 0 0 1 1) 0.4%float MRegex
                         None None None;
             mkCandidate (py "b") (py "b") (mkBBox 0 0 1 1) 0.9%float MSemantic
                         None None (Some 0.5%float) ] 2).
  repeat (constructor; [vm_compute; reflexivity|]). constructor.
Defined.

Example ranking_sample :
  map c_score
      (CandidateGenerator.sort_by_score
         [ semantic_sample None;
           mkCandidate (py "a") (py "a") (mkBBox 0 0 1 1) 0.4%float MRegex
                       None None None;
           mkCandidate (py "b") (py "b") (mkBBox 0 0 1 1) 0.9%float MSemantic
                       None None (Some 0.5%float) ])
  = [0.9%float; 0.4%float; 0.3%float].
Proof. vm_compute. reflexivity. Qed.

(** ** Fields that the override does not know *)

Lemma deterministic_accept_unknown_field (field_name value : str) :
  override_free field_name = true ->
  DecisionEngine._deterministic_accept field_name value = false.
Proof.
  intro Hu. unfold override_free in Hu. cbn [existsb] in Hu.
  apply negb_true_iff in Hu.
  repeat (apply orb_false_iff in Hu;
          let H := fresh "Hm" in destruct Hu as [H Hu]).
  unfold DecisionEngine._deterministic_accept.
  rewrite Hm, Hm0, Hm1, Hm2, Hm3, Hm4, Hm5, Hm6, Hm7, Hm8.
  reflexivity.
Qed.

(** X20. Values found by a pattern for a field that the override does not
    know.  When the field name has none of the markers of
    [_deterministic_accept] (as for an e-mail, a telephone, a company ID,
    an amount or a number) and the best candidate that the scorer selects
    among the candidates of the field is one of the pattern source, the
    decision engine does not accept it: the field is deferred to the
    fallback.  (A candidate of the semantic source that the scorer prefers
    can still be accepted: see [semantic_value_can_be_accepted].) *)
Theorem pattern_value_without_override_is_deferred
        (pd : Preprocessor.features) (candidates : list candidate)
        (field_name field_description : str) (best : scored_candidate) :
  override_free field_name = true ->
  ScorerValidator.select_best_candidate candidates field_name field_description
  = Some best ->
  In (sc_candidate best)
     (CandidateGenerator._regex_candidates pd field_name field_description) ->
  forall (extraction_schema : dict str) (st : DecisionEngine.loop_state),
    DecisionEngine.process_field extraction_schema st (field_name, Some best)
    = DecisionEngine.defer st field_name.
Proof.
  intros Hu Hbest Hin extraction_schema st.
  pose proof (select_best_spec candidates field_name field_description) as Hs.
  cbv zeta in Hs. rewrite Hbest in Hs. destruct Hs as [Hscore _].
  destruct (regex_candidates_inv _ _ _ _ Hin)
    as (p & match_type & mo & block & _ & _ & _ & Hc).
  rewrite (@process_field_low extraction_schema st field_name best).
  - rewrite deterministic_accept_unknown_field by exact Hu. reflexivity.
  - rewrite Hscore, Hc. apply pattern_candidate_score.
Qed.

Lemma pattern_value_without_override_is_deferred_witness :
  override_free (py "telefone") = true
  /\ ScorerValidator.select_best_candidate
       phone_candidates (py "telefone") (py "telefone de contato")
     = Some phone_best
  /\ In (sc_candidate phone_best)
        (CandidateGenerator._regex_candidates
           (Preprocessor.extract_features (fun _ => []) phone_document)
           (py "telefone") (py "telefone de contato"))
  /\ forall (extraction_schema : dict str) (st : DecisionEngine.loop_state),
       DecisionEngine.process_field extraction_schema st
         (py "telefone", Some phone_best)
       = DecisionEngine.defer st (py "telefone").
Proof.
  assert (H1 : override_free (py "telefone") = true)
    by (vm_compute; reflexivity).
  assert (H2 : ScorerValidator.select_best_candidate
                 phone_candidates (py "telefone") (py "telefone de contato")
               = Some phone_best)
    by (vm_compute; reflexivity).
  assert (H3 : In (sc_candidate phone_best)
                  (CandidateGenerator._regex_candidates
                     (Preprocessor.extract_features (fun _ => [])
                                                    phone_document)
                     (py "telefone") (py "telefone de contato")))
    by (vm_compute; left; reflexivity).
  split; [exact H1|]. split; [exact H2|]. split; [exact H3|].
  exact (@pattern_value_without_override_is_deferred
           (Preprocessor.extract_features (fun _ => []) phone_document)
           phone_candidates (py "telefone") (py "telefone de contato")
           phone_best H1 H2 H3).
Defined.

(** The telephone number of the sample is found by the pattern, and the
    field is left to the fallback all the same. *)
Example pattern_value_without_override_sample :
  map c_text phone_candidates = [py "(11) 91234-5678"]
  /\ DecisionEngine.pending_fields
       (DecisionEngine.process_fields
          []
          [(py "telefone",
            ScorerValidator.select_best_candidate
              phone_candidates (py "telefone") (py "telefone de contato"))])
     = [py "telefone"].
Proof. split; vm_compute; reflexivity. Qed.

(** With a candidate of the semantic source for the same block, the scorer
    prefers that one, its score reaches [T_LOW], and the decision engine
    accepts the text of the block. *)
Example semantic_value_can_be_accepted :
  let candidates := phone_candidates ++ [phone_semantic] in
  let best := ScorerValidator.select_best_candidate
                candidates (py "telefone") (py "telefone de contato") in
  option_map sc_candidate best = Some phone_semantic
  /\ option_map (fun b => (T_LOW <=? final_score b)%float) best = Some true
  /\ DecisionEngine.process_fields [] [(py "telefone", best)]
     = DecisionEngine.accept (DecisionEngine.mkLoop [] []) (py "telefone")
                             (py "Tel: (11) 91234-5678").
Proof. repeat split; vm_compute; reflexivity. Qed.

(** ** Patterns that cannot match normalized text *)

Section DeadPatterns.
Variable ic : bool.

(** The matcher calls its continuation only on positions later in the
    subject: when the continuation fails on every text with a property
    that tails keep, so does the match. *)
Lemma rep_none (Q : str -> Prop) (step : step_fn match_obj)
      (greedy : bool) (n lo : nat) (st : mstate)
      (k : mstate -> option match_obj) :
  (forall st0 k0, Q (rest st0) ->
     (forall st', Q (rest st') -> k0 st' = None) -> step st0 k0 = None) ->
  Q (rest st) ->
  (forall st', Q (rest st') -> k st' = None) ->
  rep step greedy lo n st k = None.
Proof.
  intros Hstep. revert lo st.
  induction n as [|n IH]; intros lo st HQ Hk; cbn [rep].
  - destruct (Nat.eqb lo 0); [apply Hk, HQ | reflexivity].
  - assert (Hmore : step st
                      (fun st' => if Nat.eqb (pos st') (pos st) then None
                                  else rep step greedy (Nat.pred lo) n st' k)
                    = None).
    { apply Hstep; [exact HQ|]. intros st' HQ'.
      destruct (Nat.eqb (pos st') (pos st)); [reflexivity|].
      apply IH; assumption. }
    rewrite Hmore. rewrite (Hk st HQ).
    destruct (negb (Nat.eqb lo 0)), greedy; reflexivity.
Qed.

Lemma m_none (Q : str -> Prop) (r : regex) :
  (forall x t, Q (x :: t) -> Q t) ->
  forall st (k : mstate -> option match_obj),
    Q (rest st) ->
    (forall st', Q (rest st') -> k st' = None) ->
    m ic r st k = None.
Proof.
  intro Htail.
  induction r as [| c0 | | neg items | | | | r1 IH1 r2 IH2 | r1 IH1 r2 IH2
                  | greedy lo hi r1 IH1 | i r1 IH1];
    intros st k HQ Hk; cbn [m].
  - apply Hk, HQ.
  - destruct (rest st) as [|x t] eqn:Er; [reflexivity|].
    destruct (char_matches ic c0 x); [|reflexivity].
    apply Hk. cbn [advance rest]. apply (Htail x). exact HQ.
  - destruct (rest st) as [|x t] eqn:Er; [reflexivity|].
    destruct (x =? 10)%N; [reflexivity|].
    apply Hk. cbn [advance rest]. apply (Htail x). exact HQ.
  - destruct (rest st) as [|x t] eqn:Er; [reflexivity|].
    destruct (set_matches ic neg items x); [|reflexivity].
    apply Hk. cbn [advance rest]. apply (Htail x). exact HQ.
  - destruct (Nat.eqb (pos st) 0); [apply Hk, HQ | reflexivity].
  - destruct (at_eol st); [apply Hk, HQ | reflexivity].
  - destruct (at_word_boundary st); [apply Hk, HQ | reflexivity].
  - apply IH1; [exact HQ|]. intros st' HQ'. apply IH2; assumption.
  - rewrite IH1 by assumption. apply IH2; assumption.
  - apply rep_none with (Q := Q); assumption.
  - apply IH1; [exact HQ|]. intros st' HQ'. apply Hk. exact HQ'.
Qed.

Variable ch : char.

Lemma lacks_tail x t : lacks ic ch (x :: t) -> lacks ic ch t.
Proof. intros H y Hy. apply H. right. exact Hy. Qed.

(** A pattern that needs [ch] does not match a text that lacks it. *)
Lemma m_needs (r : regex) :
  needs ch r = true ->
  forall st (k : mstate -> option match_obj),
    lacks ic ch (rest st) -> m ic r st k = None.
Proof.
  induction r as [| c0 | | neg items | | | | r1 IH1 r2 IH2 | r1 IH1 r2 IH2
                  | greedy lo hi r1 IH1 | i r1 IH1];
    cbn [needs]; intros Hn st k HQ; try discriminate; cbn [m].
  - apply N.eqb_eq in Hn. subst c0.
    destruct (rest st) as [|x t] eqn:Er; [reflexivity|].
    rewrite (HQ x (or_introl eq_refl)). reflexivity.
  - apply orb_true_iff in Hn. destruct Hn as [Hn | Hn].
    + apply IH1; assumption.
    + apply m_none with (Q := lacks ic ch); [apply lacks_tail | exact HQ |].
      intros st' HQ'. apply IH2; assumption.
  - apply andb_true_iff in Hn. destruct Hn as [Hn1 Hn2].
    rewrite IH1 by assumption. apply IH2; assumption.
  - apply andb_true_iff in Hn. destruct Hn as [Hlo Hn].
    apply negb_true_iff in Hlo.
    destruct (match hi with Some h => h | None => List.length (rest st) end)
      as [|n]; cbn [rep]; rewrite Hlo; [reflexivity|].
    cbn [negb]. apply IH1; assumption.
  - apply IH1; assumption.
Qed.

Lemma finditer_from_needs (r : regex) (n : nat) (st : mstate) :
  needs ch r = true -> lacks ic ch (rest st) ->
  finditer_from ic r n st = [].
Proof.
  intro Hn. revert st. induction n as [|n IH]; intros st HQ;
    cbn [finditer_from]; [reflexivity|].
  unfold match_at. rewrite m_needs by assumption.
  destruct (rest st) as [|x t] eqn:Er; [reflexivity|].
  apply IH. cbn [advance rest]. eapply lacks_tail. exact HQ.
Qed.

End DeadPatterns.

(** The characters of normalized text. *)
Lemma normalize_text_char (s : str) (c : char) :
  In c (Preprocessor.normalize_text s) ->
  normalized_char c = true /\ lower_char c = c.
Proof.
  rewrite normalize_text_steps. unfold lower. intro Hc.
  apply in_map_iff in Hc. destruct Hc as [c0 [<- Hc0]].
  apply filter_In in Hc0. destruct Hc0 as [Hin Hkeep].
  apply normalized_char_lower; [exact Hkeep|].
  pose proof (@sub_from_space false (S (List.length (strip s)))
                (start_state (strip s))) as Ht.
  rewrite Forall_forall in Ht. apply Ht; [|exact Hin].
  cbn [start_state rest]. lia.
Qed.

(** Normalized text has neither [@] nor [$]. *)
Lemma normalize_text_lacks (s : str) :
  lacks true 64%N (Preprocessor.normalize_text s)
  /\ lacks true 36%N (Preprocessor.normalize_text s).
Proof.
  split; intros x Hx; destruct (normalize_text_char s x Hx) as [Hn Hl];
    unfold char_matches; rewrite Hl;
    match goal with
    | |- (?a =? x)%N = false =>
        destruct (N.eqb_spec a x) as [<- | Hne]; [|reflexivity]
    end;
    vm_compute in Hn; discriminate.
Qed.

Lemma forallb_when {A} (g : A -> bool) (b : bool) (l : list A) :
  forallb g l = true -> forallb g (if b then l else []) = true.
Proof. destruct b; [tauto | reflexivity]. Qed.

(** In the catalogue, the pattern tagged [email] needs [@] and the one
    tagged [currency] needs [$]. *)
Lemma catalogue_needs (field_name field_description : str) :
  forallb (fun pm : CandidateGenerator.pattern * str =>
             implb (str_eqb (snd pm) (py "email"))
                   (needs 64%N (CandidateGenerator.p_regex (fst pm)))
             && implb (str_eqb (snd pm) (py "currency"))
                      (needs 36%N (CandidateGenerator.p_regex (fst pm))))
          (CandidateGenerator._get_regex_patterns field_name field_description)
  = true.
Proof.
  unfold CandidateGenerator._get_regex_patterns. cbv zeta.
  rewrite !forallb_app.
  repeat (apply andb_true_intro; split);
    apply forallb_when; vm_compute; reflexivity.
Qed.

(** X21. The e-mail and currency patterns are dead.  The pattern source
    searches the normalized text of the document, from which [@] and [$]
    have been removed; so whatever the document, the field and its
    description are, no candidate comes from the pattern tagged [email]
    or from the one tagged [currency]. *)
Theorem email_and_currency_patterns_never_match
        (hash : TextBlock -> str) (text_blocks : list TextBlock)
        (field_name field_description : str) :
  Forall
    (fun cand =>
       c_match_type cand <> Some (py "email")
       /\ c_match_type cand <> Some (py "currency"))
    (CandidateGenerator._regex_candidates
       (Preprocessor.extract_features hash text_blocks)
       field_name field_description).
Proof.
  apply Forall_forall. intros cand Hin.
  destruct (regex_candidates_inv _ _ _ _ Hin)
    as (p & match_type & mo & block & Hp & Hmo & _ & Hc).
  pose proof (catalogue_needs field_name field_description) as Hcat.
  rewrite forallb_forall in Hcat. specialize (Hcat _ Hp).
  cbn [fst snd] in Hcat. apply andb_true_iff in Hcat.
  destruct Hcat as [He Hd].
  cbn [Preprocessor.extract_features Preprocessor.normalized_full_text] in Hmo.
  destruct (normalize_text_lacks
              (join (py " ") (map text text_blocks))) as [L64 L36].
  unfold re_finditer in Hmo.
  rewrite Hc. cbn [c_match_type].
  split; intro Heq; injection Heq as ->; rewrite str_eqb_refl in *;
    cbn [implb] in *.
  - rewrite (@finditer_from_needs true 64%N) in Hmo;
      [contradiction | exact He | exact L64].
  - rewrite (@finditer_from_needs true 36%N) in Hmo;
      [contradiction | exact Hd | exact L36].
Qed.

(** A document with an e-mail address and an amount in reais: the
    pattern source proposes nothing for the address, and for the amount
    only the bare number. *)
Example dead_patterns_sample :
  let pd := Preprocessor.extract_features
              (fun _ => [])
              [ mkTextBlock (py "Contato: ana.lima@example.com")
                            (mkBBox 72 100 300 112) None None;
                mkTextBlock (py "Total: R$ 1250.00")
                            (mkBBox 72 120 300 132) None None ] in
  Preprocessor.normalized_full_text pd
  = py "contato ana.limaexample.com total r 1250.00"
  /\ CandidateGenerator._regex_candidates pd (py "email") (py "e-mail") = []
  /\ map (fun cand => (c_text cand, c_match_type cand))
         (CandidateGenerator._regex_candidates pd (py "valor") (py "valor"))
     = [(py "1250.00", Some (py "number"))].
Proof. repeat split; vm_compute; reflexivity. Qed.


(* ================================================================== *)
(** * Line grouping *)
(* ================================================================== *)

(** ** The order of the sort keys *)

Section KeyOrder.

Ltac key_cases :=
  repeat match goal with
         | x : spec_float |- _ => destruct x
         | b : bool |- _ => destruct b
         end;
  cbn [SFcompare]; try discriminate; try reflexivity;
  change (PosDef.Pos.compare_cont Eq) with Pos.compare;
  repeat match goal with
         | |- context [Z.compare ?a ?b] => destruct (Z.compare_spec a b)
         | |- context [Pos.compare ?a ?b] => destruct (Pos.compare_spec a b)
         end;
  cbn [CompOpp]; intros; subst; try discriminate; try reflexivity;
  try (exfalso; lia).

Lemma SFeqb_sym (x y : spec_float) : SFeqb x y = true -> SFeqb y x = true.
Proof. unfold SFeqb. key_cases. Qed.

Lemma SFeqb_trans (x y z : spec_float) :
  SFeqb x y = true -> SFeqb y z = true -> SFeqb x z = true.
Proof. unfold SFeqb. key_cases. Qed.

Lemma SFeqb_not_ltb (x y : spec_float) : SFeqb x y = true -> SFltb x y = false.
Proof. unfold SFeqb, SFltb. key_cases. Qed.

Lemma SFltb_eqb_trans (x y z : spec_float) :
  SFltb x y = true -> SFeqb y z = true -> SFltb x z = true.
Proof. unfold SFeqb, SFltb. key_cases. Qed.

Lemma SFeqb_ltb_trans (x y z : spec_float) :
  SFeqb x y = true -> SFltb y z = true -> SFltb x z = true.
Proof. unfold SFeqb, SFltb. key_cases. Qed.

Lemma SFltb_total (x y : spec_float) :
  SFeqb x x = true -> SFeqb y y = true ->
  SFeqb x y = false -> SFltb x y = false -> SFltb y x = true.
Proof. unfold SFeqb, SFltb. key_cases. Qed.

End KeyOrder.

Lemma eqb_sym (x y : float) : (x =? y)%float = true -> (y =? x)%float = true.
Proof. rewrite !FloatAxioms.eqb_spec. apply SFeqb_sym. Qed.

Lemma eqb_trans (x y z : float) :
  (x =? y)%float = true -> (y =? z)%float = true -> (x =? z)%float = true.
Proof. rewrite !FloatAxioms.eqb_spec. apply SFeqb_trans. Qed.

Lemma eqb_not_ltb (x y : float) :
  (x =? y)%float = true -> (x <? y)%float = false.
Proof. rewrite FloatAxioms.eqb_spec, ltb_spec. apply SFeqb_not_ltb. Qed.

Lemma ltb_eqb_trans (x y z : float) :
  (x <? y)%float = true -> (y =? z)%float = true -> (x <? z)%float = true.
Proof. rewrite FloatAxioms.eqb_spec, !ltb_spec. apply SFltb_eqb_trans. Qed.

Lemma eqb_ltb_trans (x y z : float) :
  (x =? y)%float = true -> (y <? z)%float = true -> (x <? z)%float = true.
Proof. rewrite FloatAxioms.eqb_spec, !ltb_spec. apply SFeqb_ltb_trans. Qed.

Lemma ltb_total (x y : float) :
  is_number x = true -> is_number y = true ->
  (x =? y)%float = false -> (x <? y)%float = false -> (y <? x)%float = true.
Proof.
  unfold is_number. rewrite !FloatAxioms.eqb_spec, !ltb_spec.
  apply SFltb_total.
Qed.

Section GroupFacts.
Import Preprocessor.

(** [key_lt] is the strict part of the reading order. *)
Lemma key_lt_reading (a b : TextBlock) :
  key_lt a b = true -> reading_order a b.
Proof.
  unfold key_lt, reading_order.
  destruct (y0 (bbox a) =? y0 (bbox b))%float eqn:E; intro H.
  - right. split; [reflexivity | apply ltb_leb, H].
  - left. exact H.
Qed.

Lemma key_lt_false_reading (a b : TextBlock) :
  placed a -> placed b -> key_lt a b = false -> reading_order b a.
Proof.
  unfold key_lt, reading_order. intros [Hya Hxa] [Hyb Hxb].
  destruct (y0 (bbox a) =? y0 (bbox b))%float eqn:E; intro H.
  - right. split; [apply eqb_sym, E | apply ltb_false_leb; assumption].
  - left. apply ltb_total; assumption.
Qed.

Lemma reading_order_trans (a b c : TextBlock) :
  reading_order a b -> reading_order b c -> reading_order a c.
Proof.
  unfold reading_order. intros [H | [H1 H2]] [H' | [H1' H2']].
  - left. eapply ltb_trans; eassumption.
  - left. eapply ltb_eqb_trans; eassumption.
  - left. eapply eqb_ltb_trans; eassumption.
  - right. split; [eapply eqb_trans | eapply leb_trans]; eassumption.
Qed.

(** ** The sort *)

Lemma insert_sorted_perm b l : Permutation (b :: l) (insert_sorted b l).
Proof.
  induction l as [|c t IH]; cbn [insert_sorted].
  - apply Permutation_refl.
  - destruct (key_lt c b).
    + apply perm_trans with (c :: b :: t); [apply perm_swap|].
      apply perm_skip, IH.
    + apply Permutation_refl.
Qed.

Lemma sorted_perm blocks : Permutation blocks (sorted blocks).
Proof.
  induction blocks as [|b t IH]; cbn [sorted].
  - apply perm_nil.
  - apply perm_trans with (b :: sorted t); [apply perm_skip, IH|].
    apply insert_sorted_perm.
Qed.

Lemma insert_sorted_strongly b l :
  placed b -> Forall placed l ->
  StronglySorted reading_order l ->
  StronglySorted reading_order (insert_sorted b l).
Proof.
  intros Hb Hl Hs. induction Hs as [|c t Hs IH Hc]; cbn [insert_sorted].
  - constructor; constructor.
  - inversion Hl as [|? ? Hpc Hpt]; subst.
    destruct (key_lt c b) eqn:E.
    + constructor; [apply IH, Hpt|].
      apply Forall_forall. intros z Hz.
      eapply Permutation_in in Hz;
        [|apply Permutation_sym, insert_sorted_perm].
      destruct Hz as [<- | Hz].
      * apply key_lt_reading, E.
      * rewrite Forall_forall in Hc. apply Hc, Hz.
    + assert (Hbc : reading_order b c)
        by (apply key_lt_false_reading; assumption).
      constructor; [constructor; assumption|].
      constructor; [exact Hbc|].
      apply Forall_forall. intros z Hz. rewrite Forall_forall in Hc.
      eapply reading_order_trans; [exact Hbc | apply Hc, Hz].
Qed.

Lemma sorted_strongly blocks :
  Forall placed blocks -> StronglySorted reading_order (sorted blocks).
Proof.
  induction 1 as [|b t Hb Ht IH]; cbn [sorted].
  - constructor.
  - apply insert_sorted_strongly; [exact Hb | | exact IH].
    apply Forall_forall. intros c Hc.
    eapply Permutation_in in Hc; [|apply Permutation_sym, sorted_perm].
    rewrite Forall_forall in Ht. apply Ht, Hc.
Qed.

(** The sort is stable: blocks at the same place keep their order. *)
Lemma same_place_not_lt a c b :
  same_place a c = true -> same_place a b = true -> key_lt c b = false.
Proof.
  unfold same_place, key_lt. rewrite !andb_true_iff.
  intros [Hyc Hxc] [Hyb Hxb].
  rewrite (eqb_trans Hyc (eqb_sym Hyb)).
  apply eqb_not_ltb. apply (eqb_trans Hxc (eqb_sym Hxb)).
Qed.

Lemma insert_sorted_stable a b l :
  filter (same_place a) (insert_sorted b l) = filter (same_place a) (b :: l).
Proof.
  induction l as [|c t IH]; [reflexivity|].
  cbn [insert_sorted]. destruct (key_lt c b) eqn:E; [|reflexivity].
  cbn [filter] in *. rewrite IH.
  destruct (same_place a c) eqn:Ec, (same_place a b) eqn:Eb; try reflexivity.
  rewrite (same_place_not_lt _ _ _ Ec Eb) in E. discriminate.
Qed.

Lemma sorted_stable a blocks :
  filter (same_place a) (sorted blocks) = filter (same_place a) blocks.
Proof.
  induction blocks as [|b t IH]; [reflexivity|].
  cbn [sorted]. rewrite insert_sorted_stable. cbn [filter].
  rewrite IH. reflexivity.
Qed.

(** ** The grouping loop *)

Lemma group_loop_concat md blocks groups current :
  List.concat (group_loop md blocks groups current)
  = List.concat groups ++ current ++ blocks.
Proof.
  revert groups current.
  induction blocks as [|b t IH]; intros groups current; cbn [group_loop].
  - rewrite concat_app. cbn [List.concat]. rewrite !app_nil_r. reflexivity.
  - destruct (_ && _); rewrite IH.
    + rewrite <- app_assoc. reflexivity.
    + rewrite concat_app. cbn [List.concat app].
      rewrite app_nil_r, <- app_assoc. reflexivity.
Qed.

Lemma group_loop_nonempty md blocks groups current :
  Forall (fun g => g <> []) groups -> current <> [] ->
  Forall (fun g => g <> []) (group_loop md blocks groups current).
Proof.
  revert groups current.
  induction blocks as [|b t IH]; intros groups current Hg Hc;
    cbn [group_loop].
  - apply Forall_app. split; [exact Hg|]. constructor; [exact Hc|constructor].
  - destruct (_ && _); apply IH; auto.
    + intro H. apply app_eq_nil in H. destruct H. discriminate.
    + apply Forall_app. split; [exact Hg|].
      constructor; [exact Hc|constructor].
    + discriminate.
Qed.

Lemma group_loop_not_nil md blocks groups current :
  group_loop md blocks groups current <> [].
Proof.
  revert groups current.
  induction blocks as [|b t IH]; intros groups current; cbn [group_loop].
  - intro H. apply app_eq_nil in H. destruct H. discriminate.
  - destruct (_ && _); apply IH.
Qed.

Lemma group_blocks_concat blocks md :
  List.concat (group_blocks blocks md) = sorted blocks.
Proof.
  unfold group_blocks. destruct blocks as [|b t]; [reflexivity|].
  destruct (sorted (b :: t)) as [|first others] eqn:E.
  - reflexivity.
  - rewrite group_loop_concat. reflexivity.
Qed.

End GroupFacts.

(** C10. [group_blocks] partitions its input in reading order.  For blocks
    whose top [bbox.y0] and left [bbox.x0] are numbers, the groups,
    concatenated, are the input sorted by (top, left): a permutation of
    the input, so that every block is in exactly one group, in which a
    block comes before another only if its [y0] is smaller, or its [y0]
    is equal and its [x0] is not greater, and in which blocks with equal
    [y0] and [x0] keep their input order.  No group is empty, and the
    result is empty exactly for the empty input. *)
Theorem group_blocks_partition
        (blocks : list TextBlock) (max_distance : float) :
  Forall (fun b => is_number (y0 (bbox b)) = true
                   /\ is_number (x0 (bbox b)) = true) blocks ->
  let gs := Preprocessor.group_blocks blocks max_distance in
  Permutation blocks (List.concat gs)
  /\ StronglySorted
       (fun a b =>
          (y0 (bbox a) <? y0 (bbox b))%float = true
          \/ ((y0 (bbox a) =? y0 (bbox b))%float = true
              /\ (x0 (bbox a) <=? x0 (bbox b))%float = true))
       (List.concat gs)
  /\ (forall a,
        let at_a b := (y0 (bbox b) =? y0 (bbox a))%float
                      && (x0 (bbox b) =? x0 (bbox a))%float in
        filter at_a (List.concat gs) = filter at_a blocks)
  /\ List.concat gs = Preprocessor.sorted blocks
  /\ Forall (fun g => g <> []) gs
  /\ (gs = [] <-> blocks = []).
Proof.
  intros Hp gs. unfold gs.
  rewrite group_blocks_concat.
  split; [apply sorted_perm|].
  split; [exact (sorted_strongly Hp)|].
  split; [intro a; exact (sorted_stable a blocks)|].
  split; [reflexivity|]. split.
  - unfold Preprocessor.group_blocks. destruct blocks as [|b t]; [constructor|].
    destruct (Preprocessor.sorted (b :: t)); [constructor|].
    apply group_loop_nonempty; [constructor | discriminate].
  - split.
    + intro H. destruct blocks as [|b t]; [reflexivity|]. exfalso.
      pose proof (sorted_perm (b :: t)) as Hs.
      unfold Preprocessor.group_blocks in H.
      destruct (Preprocessor.sorted (b :: t)) as [|first others].
      * apply Permutation_sym, Permutation_nil in Hs. discriminate.
      * apply group_loop_not_nil in H. exact H.
    + intros ->. reflexivity.
Qed.

Lemma group_blocks_partition_witness :
  let gs := Preprocessor.group_blocks sample_page
                                      Preprocessor.default_max_distance in
  Permutation sample_page (List.concat gs)
  /\ StronglySorted
       (fun a b =>
          (y0 (bbox a) <? y0 (bbox b))%float = true
          \/ ((y0 (bbox a) =? y0 (bbox b))%float = true
              /\ (x0 (bbox a) <=? x0 (bbox b))%float = true))
       (List.concat gs)
  /\ (forall a,
        let at_a b := (y0 (bbox b) =? y0 (bbox a))%float
                      && (x0 (bbox b) =? x0 (bbox a))%float in
        filter at_a (List.concat gs) = filter at_a sample_page)
  /\ List.concat gs = Preprocessor.sorted sample_page
  /\ Forall (fun g => g <> []) gs
  /\ (gs = [] <-> sample_page = []).
Proof.
  apply (@group_blocks_partition sample_page
                                 Preprocessor.default_max_distance).
  repeat (constructor; [split; vm_compute; reflexivity|]). constructor.
Defined.

(** Four blocks on two lines, given out of order: they come out by top
    and left; the distant block of the first line opens a group of its
    own, which the close block below it joins. *)
Example group_blocks_sample :
  map (map text)
      (Preprocessor.group_blocks sample_page Preprocessor.default_max_distance)
  = [[py "a"]; [py "c"; py "b"]; [py "d"]].
Proof. vm_compute. reflexivity. Qed.

(** The gap between two blocks is the rounded difference of their
    coordinates: 40.3 - 0.3 is 40.0 in binary64, which is not below
    twice the distance 20, so the second block opens a group. *)
Example group_blocks_rounded_gap :
  map (map text) (Preprocessor.group_blocks rounded_gap_page 20)
  = [[py "a"]; [py "b"]].
Proof. vm_compute. reflexivity. Qed.

(* ================================================================== *)
(** * The fallback is asked once, exactly when a field is pending *)
(* ================================================================== *)

Section PendingFacts.
Import DecisionEngine.
Variable extraction_schema : dict str.

(** The loop defers exactly the fields that the specification calls
    pending, in the order of the results. *)
Lemma pending_fields_filter (results : field_results) (st : loop_state) :
  pending_fields (fold_left (process_field extraction_schema) results st)
  = pending_fields st ++ map fst (filter spec_pending results).
Proof.
  revert st. induction results as [|[k o] t IH]; intro st;
    cbn [fold_left filter].
  - cbn [map]. rewrite app_nil_r. reflexivity.
  - rewrite IH. unfold process_field, spec_pending. cbn [fst snd].
    destruct o as [cr|].
    + destruct (T_HIGH <=? final_score cr)%float;
        [cbn [negb andb accept pending_fields]; reflexivity|].
      destruct (T_LOW <=? final_score cr)%float;
        [cbn [negb andb accept pending_fields]; reflexivity|].
      destruct (_deterministic_accept k (c_text (sc_candidate cr)));
        cbn [negb andb accept defer pending_fields map fst];
        [reflexivity|].
      rewrite <- app_assoc. reflexivity.
    + cbn [defer pending_fields map fst]. rewrite <- app_assoc. reflexivity.
Qed.

Lemma process_fields_pending (results : field_results) :
  pending_fields (process_fields extraction_schema results)
  = map fst (filter spec_pending results).
Proof. unfold process_fields. rewrite pending_fields_filter. reflexivity. Qed.

Lemma filter_nil_existsb {A} (p : A -> bool) (l : list A) :
  filter p l = [] <-> existsb p l = false.
Proof.
  induction l as [|a t IH]; cbn [filter existsb]; [tauto|].
  destruct (p a); cbn [orb]; [split; discriminate | exact IH].
Qed.

(** Every pending field has a description exactly when each of them is in
    the schema. *)
Lemma described_pending (results : field_results) :
  forallb (described extraction_schema) results = true
  <-> forall k, In k (map fst (filter spec_pending results)) ->
                mem k extraction_schema = true.
Proof.
  rewrite forallb_forall. unfold described. split.
  - intros H k Hk. apply in_map_iff in Hk. destruct Hk as [item [<- Hi]].
    apply filter_In in Hi. destruct Hi as [Hin Hp].
    specialize (H item Hin). rewrite Hp in H. exact H.
  - intros H item Hin. destruct (spec_pending item) eqn:Hp; [|reflexivity].
    cbn [implb]. apply H. apply in_map. apply filter_In. auto.
Qed.

End PendingFacts.

(** The requests of one call of [process_extraction], whatever the
    results and the schema are. *)
Lemma process_extraction_requests
      (service : llm_request -> llm_outcome)
      (results : DecisionEngine.field_results) (label : str)
      (extraction_schema : dict str) (text : str) (w : world) :
  let asked := existsb spec_pending results
               && forallb (described extraction_schema) results in
  let run := DecisionEngine.process_extraction
               service results label extraction_schema text w in
  exists new_calls,
    llm_calls (snd run) = llm_calls w ++ new_calls
    /\ List.length new_calls = (if asked then 1 else 0)
    /\ used_llm_last_call (snd run) = asked
    /\ (forallb (described extraction_schema) results = true <->
        exists out, fst run = inr out).
Proof.
  cbv zeta. rewrite process_extraction_eq. cbv zeta.
  rewrite process_fields_pending.
  pose proof (described_pending extraction_schema results) as Hd.
  destruct (filter spec_pending results) as [|i0 it] eqn:Ef.
  - apply filter_nil_existsb in Ef. rewrite Ef. cbn [map andb fst snd].
    exists []. rewrite app_nil_r. repeat split; auto.
    + intros _. eexists. reflexivity.
    + intros _. apply Hd. intros k [].
  - assert (Hex : existsb spec_pending results = true).
    { destruct (existsb spec_pending results) eqn:Ex; [reflexivity|].
      apply filter_nil_existsb in Ex. rewrite Ex in Ef. discriminate. }
    rewrite Hex. cbn [andb].
    set (pending := map fst (i0 :: it)) in *.
    assert (Hne : pending <> []) by discriminate.
    destruct pending as [|p0 pt] eqn:Ep; [contradiction|].
    pose proof (pending_schema_of_inv extraction_schema (p0 :: pt) []) as Hps.
    destruct (DecisionEngine.pending_schema_of extraction_schema (p0 :: pt) [])
      as [e|ps].
    + destruct Hps as (k & -> & Hk & Hm).
      assert (Hf : forallb (described extraction_schema) results = false).
      { destruct (forallb (described extraction_schema) results) eqn:Ea;
          [|reflexivity].
        rewrite (proj1 Hd eq_refl k Hk) in Hm. discriminate. }
      rewrite Hf. cbn [fst snd llm_calls used_llm_last_call].
      exists []. rewrite app_nil_r. repeat split; auto.
      * discriminate.
      * intros [out Hout]. discriminate.
    + destruct Hps as [Hall _].
      assert (Ht : forallb (described extraction_schema) results = true)
        by (apply Hd; exact Hall).
      rewrite Ht.
      match goal with
      | |- context [LLMClient.extract_fields service label ps ?doc ?ctx ?w0] =>
          destruct (extract_fields_spec service label ps doc ctx w0)
            as [d [-> _]]
      end.
      cbn [fst snd llm_calls used_llm_last_call].
      eexists. split; [reflexivity|]. repeat split; auto.
      intros _. eexists. reflexivity.
Qed.

Lemma pending_count (results : DecisionEngine.field_results) :
  match map fst (filter spec_pending results) with
  | [] => 0
  | _ :: _ => 1
  end
  = if existsb spec_pending results then 1 else 0.
Proof.
  destruct (filter spec_pending results) as [|i0 it] eqn:Ef.
  - apply filter_nil_existsb in Ef. rewrite Ef. reflexivity.
  - destruct (existsb spec_pending results) eqn:Ex; [reflexivity|].
    apply filter_nil_existsb in Ex. rewrite Ex in Ef. discriminate.
Qed.

(** C1, as the code has it.  A field is pending when its result is absent
    or its best candidate reaches neither threshold and fails the
    deterministic override.  A call of [extract] asks the reasoning
    service at most once: not at all when a stage before the decision
    engine raises, and otherwise exactly once when some field is pending,
    whatever their number, and not at all when none is.  A call of
    [process_extraction], on any results and schema, asks exactly once
    when some field is pending and every pending field has a description
    in the schema, and not at all otherwise: with no pending field it
    returns, and with a pending field without description it raises
    before it asks.  The flag [used_llm_last_call] records whether it
    asked. *)
Theorem fallback_invoked_at_most_once
        (E : collaborators) (label : str) (extraction_schema : dict str)
        (pdf_bytes : list N) (w : world) :
  (exists new_calls,
      llm_calls (snd (PDFExtractor.extract E label extraction_schema
                                           pdf_bytes w))
      = llm_calls w ++ new_calls
      /\ List.length new_calls <= 1
      /\ match PDFExtractor.text_extractor_extract E pdf_bytes w with
         | (inl _, _) => new_calls = []
         | (inr blocks, w1) =>
             match PDFExtractor.field_results_of E label extraction_schema
                                                 blocks w1 with
             | (inl _, _) => new_calls = []
             | (inr fr, _) =>
                 List.length new_calls
                 = if existsb spec_pending fr then 1 else 0
             end
         end)
  /\ (forall (results : DecisionEngine.field_results) (text : str),
        let asked := existsb spec_pending results
                     && forallb (described extraction_schema) results in
        let run := DecisionEngine.process_extraction
                     (service E) results label extraction_schema text w in
        exists new_calls,
          llm_calls (snd run) = llm_calls w ++ new_calls
          /\ List.length new_calls = (if asked then 1 else 0)
          /\ used_llm_last_call (snd run) = asked
          /\ (forallb (described extraction_schema) results = true <->
              exists out, fst run = inr out)).
Proof.
  split.
  - destruct (extract_calls E label extraction_schema pdf_bytes w)
      as (new_calls & H1 & H2 & H3).
    exists new_calls. split; [exact H1|]. split; [exact H2|].
    destruct (PDFExtractor.text_extractor_extract E pdf_bytes w)
      as [[e|blocks] w1]; [exact H3|].
    destruct (PDFExtractor.field_results_of E label extraction_schema
                                            blocks w1)
      as [[e|fr] w2]; [exact H3|].
    rewrite H3, process_fields_pending. apply pending_count.
  - intros results text.
    apply process_extraction_requests.
Qed.

(** C1, as the claim states it, fails on a direct call of
    [process_extraction] in which a pending field has no description in
    the schema: the set of pending fields is not empty, and the call
    raises without asking the reasoning service. *)
Lemma pending_field_without_description_not_asked :
  let results := [(py "cidade", None)] in
  let run := DecisionEngine.process_extraction
               null_service results (py "fatura") [] (py "texto")
               initial_world in
  DecisionEngine.pending_fields (DecisionEngine.process_fields [] results)
  = [py "cidade"]
  /\ existsb spec_pending results = true
  /\ fst run = inl (KeyError (py "cidade"))
  /\ llm_calls (snd run) = []
  /\ used_llm_last_call (snd run) = false.
Proof. repeat split; vm_compute; reflexivity. Qed.
